(** * Titanic survival analysis: cleaning pipeline, survival aggregator
      and insight summarizer

    A shallow embedding of [TitanicAnalyzer.clean_data],
    [TitanicAnalyzer.analyze_survival_patterns] and
    [TitanicAnalyzer.generate_insights] of [src/titanic_analysis.py],
    together with the pandas operations these methods call
    ([drop_duplicates], [groupby(...).transform("median")], [fillna], [mode],
    [str.extract], [value_counts], [replace], [cut], [qcut], [groupby(...).agg],
    [Series.__getitem__], [Series.get]).

    Modelling conventions.
    - A [DataFrame] is its list of column names plus its rows, in order.
    - A missing value ([NaN]) of a nullable column is [None].
    - The float columns [Age] and [Fare] hold rationals ([Q]); medians,
      quantiles and rates are computed exactly and stored in lowest terms,
      the rounding of floating-point arithmetic is not modelled.
    - The integer columns are [int64]: sums wrap around at 64 bits.
    - An exception raised by pandas is a [Raise] of the [result] monad.
    - A method of the object returns the object as the call leaves it, next
      to its outcome: [clean_data] assigns [self.df_clean] before the steps
      that can raise.
    - The insights are modelled as the numbers that their sentences show; the
      text of the sentences, which prints these floats to one decimal, is not
      modelled.
    - pandas is the 2.x series the script was written for: an in-place
      [fillna] on [df[col]] reaches the frame, and [groupby] on a category
      column reports the categories that do not occur ([observed=False]). *)

From Stdlib Require Import String Ascii ZArith QArith Qround Lia Lqa Bool Arith List Sorted.
Import ListNotations.

Local Open Scope string_scope.

(** ** Exceptions *)

Inductive exn : Type :=
| KeyError (key : string)
| ValueError (msg : string).

Inductive result (A : Type) : Type :=
| Ok (a : A)
| Raise (e : exn).

Arguments Ok {A} a.
Arguments Raise {A} e.

Definition bind {A B : Type} (m : result A) (k : A -> result B) : result B :=
  match m with
  | Ok a => k a
  | Raise e => Raise e
  end.

Notation "x <- m ;; k" := (bind m (fun x => k))
  (at level 61, m at next level, right associativity).
Notation "' pat <- m ;; k" := (bind m (fun x => match x with pat => k end))
  (at level 61, pat pattern, m at next level, right associativity).

(** ** The record set *)

(** Modelled from the spec: the column types of the input file, which is not
    part of the repository (spec section 3: only age, cabin and embarkation
    port are nullable).  The last five fields are the columns that
    [clean_data] adds; a title or a group label can be missing. *)
Record Row : Type := mkRow {
  PassengerId : Z;
  Survived : Z;
  Pclass : Z;
  Name : string;
  Sex : string;
  Age : option Q;
  SibSp : Z;
  Parch : Z;
  Fare : Q;
  Cabin : option string;
  Embarked : option string;
  FamilySize : Z;
  IsAlone : Z;
  Title : option string;
  AgeGroup : option string;
  FareGroup : option string
}.

(** [columns] is [df.columns]; the value a row holds for a column that is not
    listed there is never read. *)
Record DataFrame : Type := mkDataFrame {
  columns : list string;
  rows : list Row
}.

Definition set_Age (v : option Q) (r : Row) : Row :=
  mkRow (PassengerId r) (Survived r) (Pclass r) (Name r) (Sex r) v (SibSp r)
        (Parch r) (Fare r) (Cabin r) (Embarked r) (FamilySize r) (IsAlone r)
        (Title r) (AgeGroup r) (FareGroup r).

Definition set_Cabin (v : option string) (r : Row) : Row :=
  mkRow (PassengerId r) (Survived r) (Pclass r) (Name r) (Sex r) (Age r)
        (SibSp r) (Parch r) (Fare r) v (Embarked r) (FamilySize r) (IsAlone r)
        (Title r) (AgeGroup r) (FareGroup r).

Definition set_Embarked (v : option string) (r : Row) : Row :=
  mkRow (PassengerId r) (Survived r) (Pclass r) (Name r) (Sex r) (Age r)
        (SibSp r) (Parch r) (Fare r) (Cabin r) v (FamilySize r) (IsAlone r)
        (Title r) (AgeGroup r) (FareGroup r).

Definition set_FamilySize (v : Z) (r : Row) : Row :=
  mkRow (PassengerId r) (Survived r) (Pclass r) (Name r) (Sex r) (Age r)
        (SibSp r) (Parch r) (Fare r) (Cabin r) (Embarked r) v (IsAlone r)
        (Title r) (AgeGroup r) (FareGroup r).

Definition set_IsAlone (v : Z) (r : Row) : Row :=
  mkRow (PassengerId r) (Survived r) (Pclass r) (Name r) (Sex r) (Age r)
        (SibSp r) (Parch r) (Fare r) (Cabin r) (Embarked r) (FamilySize r) v
        (Title r) (AgeGroup r) (FareGroup r).

Definition set_Title (v : option string) (r : Row) : Row :=
  mkRow (PassengerId r) (Survived r) (Pclass r) (Name r) (Sex r) (Age r)
        (SibSp r) (Parch r) (Fare r) (Cabin r) (Embarked r) (FamilySize r)
        (IsAlone r) v (AgeGroup r) (FareGroup r).

Definition set_AgeGroup (v : option string) (r : Row) : Row :=
  mkRow (PassengerId r) (Survived r) (Pclass r) (Name r) (Sex r) (Age r)
        (SibSp r) (Parch r) (Fare r) (Cabin r) (Embarked r) (FamilySize r)
        (IsAlone r) (Title r) v (FareGroup r).

Definition set_FareGroup (v : option string) (r : Row) : Row :=
  mkRow (PassengerId r) (Survived r) (Pclass r) (Name r) (Sex r) (Age r)
        (SibSp r) (Parch r) (Fare r) (Cabin r) (Embarked r) (FamilySize r)
        (IsAlone r) (Title r) (AgeGroup r) v.

(** [c in df.columns] *)
Definition in_columns (c : string) (cols : list string) : bool :=
  existsb (String.eqb c) cols.

(** [df[c] = ...]: a new column is appended, an existing one keeps its place. *)
Definition assign_column (c : string) (cols : list string) : list string :=
  if in_columns c cols then cols else cols ++ [c].

(** [df.drop(columns=[c])] *)
Definition drop_column (c : string) (cols : list string) : list string :=
  filter (fun x => negb (String.eqb c x)) cols.

(** ** Equality of cells and of rows *)

Definition option_eqb {A : Type} (eqb : A -> A -> bool) (x y : option A) : bool :=
  match x, y with
  | Some a, Some b => eqb a b
  | None, None => true
  | _, _ => false
  end.

(** Two rows are duplicates when they agree on every column of the frame
    (pandas hashes a missing value equal to a missing value). *)
Definition row_eqb (cols : list string) (r1 r2 : Row) : bool :=
  let on c b := implb (in_columns c cols) b in
  on "PassengerId" (Z.eqb (PassengerId r1) (PassengerId r2)) &&
  on "Survived" (Z.eqb (Survived r1) (Survived r2)) &&
  on "Pclass" (Z.eqb (Pclass r1) (Pclass r2)) &&
  on "Name" (String.eqb (Name r1) (Name r2)) &&
  on "Sex" (String.eqb (Sex r1) (Sex r2)) &&
  on "Age" (option_eqb Qeq_bool (Age r1) (Age r2)) &&
  on "SibSp" (Z.eqb (SibSp r1) (SibSp r2)) &&
  on "Parch" (Z.eqb (Parch r1) (Parch r2)) &&
  on "Fare" (Qeq_bool (Fare r1) (Fare r2)) &&
  on "Cabin" (option_eqb String.eqb (Cabin r1) (Cabin r2)) &&
  on "Embarked" (option_eqb String.eqb (Embarked r1) (Embarked r2)) &&
  on "FamilySize" (Z.eqb (FamilySize r1) (FamilySize r2)) &&
  on "IsAlone" (Z.eqb (IsAlone r1) (IsAlone r2)) &&
  on "Title" (option_eqb String.eqb (Title r1) (Title r2)) &&
  on "AgeGroup" (option_eqb String.eqb (AgeGroup r1) (AgeGroup r2)) &&
  on "FareGroup" (option_eqb String.eqb (FareGroup r1) (FareGroup r2)).

(** [df.drop_duplicates()]: the first row of every class of duplicates is
    kept, in the original order. *)
Fixpoint drop_duplicates (cols : list string) (l : list Row) : list Row :=
  match l with
  | [] => []
  | r :: l' =>
      r :: filter (fun x => negb (row_eqb cols r x)) (drop_duplicates cols l')
  end.

(** ** Series helpers *)

(** [s.isnull().sum()] *)
Definition isnull_sum {A : Type} (s : list (option A)) : nat :=
  length (filter (fun x => match x with None => true | Some _ => false end) s).

(** [s.dropna()] *)
Fixpoint dropna {A : Type} (s : list (option A)) : list A :=
  match s with
  | [] => []
  | Some a :: s' => a :: dropna s'
  | None :: s' => dropna s'
  end.

(** Insertion sort, for the sorted values of a column. *)
Fixpoint insert_sorted {A : Type} (leb : A -> A -> bool) (x : A) (l : list A) : list A :=
  match l with
  | [] => [x]
  | y :: l' => if leb x y then x :: l else y :: insert_sorted leb x l'
  end.

Definition sort {A : Type} (leb : A -> A -> bool) (l : list A) : list A :=
  fold_right (insert_sorted leb) [] l.

(** ** Median of a group *)

(** [median] skips nothing itself: it is applied to the non-missing values.
    An empty input has median [NaN]; an even count averages the two middle
    values. *)
Definition median (xs : list Q) : option Q :=
  let s := sort Qle_bool xs in
  let n := length s in
  match n with
  | O => None
  | _ =>
      if Nat.odd n then nth_error s (n / 2)
      else match nth_error s (n / 2 - 1), nth_error s (n / 2) with
           | Some a, Some b => Some (Qred ((a + b) / 2))
           | _, _ => None
           end
  end.

(** The rows that [groupby(["Pclass", "Sex"])] puts in the group of [r]. *)
Definition same_group (r x : Row) : bool :=
  Z.eqb (Pclass r) (Pclass x) && String.eqb (Sex r) (Sex x).

(** [df.groupby(["Pclass", "Sex"])["Age"].transform("median")] at row [r] *)
Definition age_median (l : list Row) (r : Row) : option Q :=
  median (dropna (map Age (filter (same_group r) l))).

(** [s.fillna(v)] on one cell *)
Definition fillna {A : Type} (v : option A) (x : option A) : option A :=
  match x with
  | Some a => Some a
  | None => v
  end.

(** ** Mode of a column *)

(** The number of occurrences of [s] in [l]. *)
Definition count_str (s : string) (l : list string) : nat :=
  length (filter (String.eqb s) l).

(** The distinct values of [l], in increasing order. *)
Definition unique_sorted (l : list string) : list string :=
  sort String.leb (nodup string_dec l).

(** [s.value_counts()]: every distinct non-missing value with its count.
    The entries are listed by value; pandas lists them by count, an order
    that neither [mode] nor the rare titles depend on. *)
Definition value_counts (s : list (option string)) : list (string * nat) :=
  let vals := dropna s in
  map (fun v => (v, count_str v vals)) (unique_sorted vals).

(** [s.mode()]: the most frequent non-missing values, sorted. *)
Definition mode (s : list (option string)) : list string :=
  let vc := value_counts s in
  let m := fold_right Nat.max O (map snd vc) in
  map fst (filter (fun p => Nat.eqb (snd p) m) vc).

(** [s.mode()[0]] *)
Definition mode0 (s : list (option string)) : result string :=
  match mode s with
  | v :: _ => Ok v
  | [] => Raise (KeyError "0")
  end.

(** ** Title extraction *)

(** The character class [[A-Za-z]] *)
Definition is_letter (c : ascii) : bool :=
  let n := nat_of_ascii c in
  ((65 <=? n)%nat && (n <=? 90)%nat) || ((97 <=? n)%nat && (n <=? 122)%nat).

(** The longest prefix of letters, and what follows it. *)
Fixpoint span_letters (s : string) : string * string :=
  match s with
  | String c s' =>
      if is_letter c
      then let (w, rest) := span_letters s' in (String c w, rest)
      else (EmptyString, s)
  | EmptyString => (EmptyString, EmptyString)
  end.

(** The regular expression [" ([A-Za-z]+)\. "] tried at the head of [s]: a
    space, one letter or more, a period, a space.  The group is greedy, and a
    shorter run of letters is followed by a letter and not by a period, so
    only the longest run can match. *)
Definition match_title_here (s : string) : option string :=
  match s with
  | String c s' =>
      if (c =? " ")%char then
        match span_letters s' with
        | (String l w, String c1 (String c2 _)) =>
            if (c1 =? ".")%char && (c2 =? " ")%char then Some (String l w)
            else None
        | _ => None
        end
      else None
  | EmptyString => None
  end.

(** [name.str.extract(" ([A-Za-z]+)\. ", expand=False)]: the group of the
    leftmost match, missing when nothing matches. *)
Fixpoint extract_title (s : string) : option string :=
  match match_title_here s with
  | Some w => Some w
  | None =>
      match s with
      | String _ s' => extract_title s'
      | EmptyString => None
      end
  end.

(** Every character is in [[A-Za-z]]. *)
Fixpoint all_letters (s : string) : bool :=
  match s with
  | String c s' => is_letter c && all_letters s'
  | EmptyString => true
  end.

(** What can follow the longest run of letters. *)
Definition not_a_letter_first (s : string) : Prop :=
  match s with
  | String c _ => is_letter c = false
  | EmptyString => True
  end.

(** An occurrence of the pattern in [name]: after [pre] come a space, the
    letters [t], a period and a space, and then [post]. *)
Definition title_at (name pre t post : string) : Prop :=
  name = pre ++ " " ++ t ++ ". " ++ post /\ t <> EmptyString /\ all_letters t = true.

(** The pattern in the spec's words, "word followed by a period, preceded by
    a space": a space, one letter or more, a period. *)
Definition spec_match_title_here (s : string) : option string :=
  match s with
  | String c s' =>
      if (c =? " ")%char then
        match span_letters s' with
        | (String l w, String c1 _) =>
            if (c1 =? ".")%char then Some (String l w) else None
        | _ => None
        end
      else None
  | EmptyString => None
  end.

Fixpoint spec_extract_title (s : string) : option string :=
  match spec_match_title_here s with
  | Some w => Some w
  | None =>
      match s with
      | String _ s' => spec_extract_title s'
      | EmptyString => None
      end
  end.

(** [title_counts[title_counts < 10].index] *)
Definition rare_titles (titles : list (option string)) : list string :=
  map fst (filter (fun p => (snd p <? 10)%nat) (value_counts titles)).

(** [s.replace(to_replace, value)] on one cell *)
Definition replace (to_replace : list string) (value : string)
    (x : option string) : option string :=
  match x with
  | Some t => if existsb (String.eqb t) to_replace then Some value else Some t
  | None => None
  end.

(** ** Binning *)

(** [bins.searchsorted(x, side="left")] for increasing [bins]: the number of
    edges strictly below [x]. *)
Definition searchsorted_left (bins : list Q) (x : Q) : nat :=
  length (filter (fun b => negb (Qle_bool x b)) bins).

(** pandas' [_bins_to_cuts] with [right=True] and a list of labels. *)
Definition bins_to_cuts (bins : list Q) (labels : list string)
    (include_lowest : bool) (x : option Q) : option string :=
  match x with
  | None => None
  | Some v =>
      let ids := searchsorted_left bins v in
      let ids :=
        if include_lowest && match bins with
                             | b0 :: _ => Qeq_bool v b0
                             | [] => false
                             end
        then 1%nat else ids in
      if (ids =? length bins)%nat || (ids =? 0)%nat then None
      else nth_error labels (ids - 1)
  end.

Definition age_bins : list Q := [0; 12; 18; 35; 60; 100]%Q.
Definition age_labels : list string :=
  ["Child"; "Teen"; "Adult"; "Middle-aged"; "Senior"].

(** [pd.cut(age, bins=[0, 12, 18, 35, 60, 100], labels=[...])]; [cut] leaves
    [include_lowest] at its default, [False]. *)
Definition cut (x : option Q) : option string :=
  bins_to_cuts age_bins age_labels false x.

(** [Series.quantile(q)] with linear interpolation, on the sorted values. *)
Definition quantile (sorted : list Q) (q : Q) : option Q :=
  match sorted with
  | [] => None
  | _ =>
      let pos := (q * inject_Z (Z.of_nat (length sorted - 1)))%Q in
      let lo := Z.to_nat (Qfloor pos) in
      let frac := (pos - inject_Z (Qfloor pos))%Q in
      match nth_error sorted lo, nth_error sorted (S lo) with
      | Some a, Some b => Some (Qred (a + frac * (b - a)))
      | Some a, None => Some (Qred a)
      | None, _ => None
      end
  end.

Fixpoint has_duplicates (l : list (option Q)) : bool :=
  match l with
  | [] => false
  | x :: l' => existsb (option_eqb Qeq_bool x) l' || has_duplicates l'
  end.

(** [np.linspace(0, 1, 5)] *)
Definition quartiles : list Q := [0; 1 # 4; 1 # 2; 3 # 4; 1]%Q.
Definition fare_labels : list string := ["Low"; "Medium"; "High"; "Very High"].

(** The edges that [qcut] computes: the quartiles of the values. *)
Definition qcut_bins (s : list Q) : list (option Q) :=
  map (quantile (sort Qle_bool s)) quartiles.

(** [pd.qcut(s, q=4, labels=[...])]: [duplicates] is left at ["raise"], and
    [qcut] calls [_bins_to_cuts] with [include_lowest=True]. *)
Definition qcut (s : list Q) : result (list (option string)) :=
  let bins := qcut_bins s in
  if has_duplicates bins && negb (length bins =? 2)%nat
  then Raise (ValueError "Bin edges must be unique")
  else Ok (map (fun x => bins_to_cuts (dropna bins) fare_labels true (Some x)) s).

(** ** The cleaner *)

(** What [clean_data] prints about the actions it took. *)
Record CleanLog : Type := mkCleanLog {
  duplicates_removed : nat;
  age_nulls : nat;
  embarked_nulls : nat;
  cabin_dropped : bool;
  remaining_nulls : nat
}.

Definition map_rows (f : Row -> Row) (df : DataFrame) : DataFrame :=
  mkDataFrame (columns df) (map f (rows df)).

(** Step 3, age: [groupby] raises on the first key column that is absent. *)
Definition fill_age (df : DataFrame) : result (nat * DataFrame) :=
  if in_columns "Age" (columns df) then
    if in_columns "Pclass" (columns df) then
      if in_columns "Sex" (columns df) then
        let med := age_median (rows df) in
        Ok (isnull_sum (map Age (rows df)),
            map_rows (fun r => set_Age (fillna (med r) (Age r)) r) df)
      else Raise (KeyError "Sex")
    else Raise (KeyError "Pclass")
  else Ok (O, df).

(** Step 3, embarkation port. *)
Definition fill_embarked (df : DataFrame) : result (nat * DataFrame) :=
  if in_columns "Embarked" (columns df) then
    let nulls := isnull_sum (map Embarked (rows df)) in
    if (0 <? nulls)%nat then
      mode_embarked <- mode0 (map Embarked (rows df)) ;;
      Ok (nulls,
          map_rows (fun r => set_Embarked (fillna (Some mode_embarked) (Embarked r)) r) df)
    else Ok (O, df)
  else Ok (O, df).

(** [(cabin_nulls / len(df)) * 100]; the quotient of zero by zero is [NaN]. *)
Definition null_pct (nulls len : nat) : option Q :=
  match len with
  | O => None
  | _ => Some (inject_Z (Z.of_nat nulls) / inject_Z (Z.of_nat len) * 100)%Q
  end.

(** [pct > 70]; a comparison with [NaN] is false. *)
Definition exceeds_70 (pct : option Q) : bool :=
  match pct with
  | Some p => negb (Qle_bool p 70)
  | None => false
  end.

(** Step 3, cabin: the dropped column takes its values with it. *)
Definition drop_cabin (df : DataFrame) : bool * DataFrame :=
  if in_columns "Cabin" (columns df) then
    let cabin_nulls := isnull_sum (map Cabin (rows df)) in
    let cabin_null_pct := null_pct cabin_nulls (length (rows df)) in
    if exceeds_70 cabin_null_pct then
      (true, mkDataFrame (drop_column "Cabin" (columns df))
                         (map (set_Cabin None) (rows df)))
    else (false, df)
  else (false, df).

(** [int64] wrap-around *)
Definition wrap64 (z : Z) : Z :=
  ((z + 2 ^ 63) mod 2 ^ 64 - 2 ^ 63)%Z.

(** [df["SibSp"] + df["Parch"] + 1] *)
Definition family_size (r : Row) : Z :=
  wrap64 (wrap64 (SibSp r + Parch r) + 1).

(** [(df["FamilySize"] == 1).astype(int)] *)
Definition is_alone (r : Row) : Z :=
  if (FamilySize r =? 1)%Z then 1%Z else 0%Z.

(** Step 4, family size. *)
Definition add_family (df : DataFrame) : DataFrame :=
  if in_columns "SibSp" (columns df) && in_columns "Parch" (columns df) then
    mkDataFrame
      (assign_column "IsAlone" (assign_column "FamilySize" (columns df)))
      (map (fun r => let r1 := set_FamilySize (family_size r) r in
                     set_IsAlone (is_alone r1) r1)
           (rows df))
  else df.

(** Step 4, title: extraction, then the rare titles are grouped. *)
Definition add_title (df : DataFrame) : DataFrame :=
  if in_columns "Name" (columns df) then
    let titles := map (fun r => extract_title (Name r)) (rows df) in
    let rare := rare_titles titles in
    mkDataFrame
      (assign_column "Title" (columns df))
      (map (fun r => set_Title (replace rare "Rare" (extract_title (Name r))) r)
           (rows df))
  else df.

(** Step 4, age groups. *)
Definition add_age_group (df : DataFrame) : DataFrame :=
  if in_columns "Age" (columns df) then
    mkDataFrame
      (assign_column "AgeGroup" (columns df))
      (map (fun r => set_AgeGroup (cut (Age r)) r) (rows df))
  else df.

(** Step 4, fare groups: the [i]-th label goes to the [i]-th row. *)
Definition add_fare_group (df : DataFrame) : result DataFrame :=
  if in_columns "Fare" (columns df) then
    groups <- qcut (map Fare (rows df)) ;;
    Ok (mkDataFrame
          (assign_column "FareGroup" (columns df))
          (map (fun p => set_FareGroup (snd p) (fst p)) (combine (rows df) groups)))
  else Ok df.

(** [df.isnull().sum().sum()] over the columns of the frame. *)
Definition isnull_total (df : DataFrame) : nat :=
  let nulls {A : Type} (c : string) (f : Row -> option A) :=
    if in_columns c (columns df) then isnull_sum (map f (rows df)) else O in
  (nulls "Age" Age + nulls "Cabin" Cabin + nulls "Embarked" Embarked +
   nulls "Title" Title + nulls "AgeGroup" AgeGroup + nulls "FareGroup" FareGroup)%nat.

(** [TitanicAnalyzer.clean_data], on the loaded frame [self.df].  The
    conversion of [Pclass], [Sex] and [Embarked] to the category dtype
    changes no value. *)
Definition clean_data (df : DataFrame) : result (CleanLog * DataFrame) :=
  let initial_rows := length (rows df) in
  let d1 := mkDataFrame (columns df) (drop_duplicates (columns df) (rows df)) in
  let duplicates_removed := (initial_rows - length (rows d1))%nat in
  '(age_nulls, d2) <- fill_age d1 ;;
  '(embarked_nulls, d3) <- fill_embarked d2 ;;
  let '(dropped, d4) := drop_cabin d3 in
  let d5 := add_family d4 in
  let d6 := add_title d5 in
  let d7 := add_age_group d6 in
  d8 <- add_fare_group d7 ;;
  Ok (mkCleanLog duplicates_removed age_nulls embarked_nulls dropped
        (isnull_total d8), d8).

(** ** The survival aggregator *)

(** A group key: a class number or a string. *)
Inductive Category : Type :=
| CatInt (z : Z)
| CatStr (s : string).

Definition Category_eqb (a b : Category) : bool :=
  match a, b with
  | CatInt x, CatInt y => Z.eqb x y
  | CatStr x, CatStr y => String.eqb x y
  | _, _ => false
  end.

Definition option_map_str (x : option string) : option Category :=
  match x with
  | Some s => Some (CatStr s)
  | None => None
  end.

(** The cell of [feature] in a row, as a group key. *)
Definition feature_key (feature : string) (r : Row) : option Category :=
  if feature =? "Sex" then Some (CatStr (Sex r))
  else if feature =? "Pclass" then Some (CatInt (Pclass r))
  else if feature =? "Embarked" then option_map_str (Embarked r)
  else if feature =? "AgeGroup" then option_map_str (AgeGroup r)
  else if feature =? "Title" then option_map_str (Title r)
  else None.

(** The categories of a feature.  All five features are of category dtype in
    the cleaned frame, and [groupby] on such a column reports every category,
    observed or not.  [astype("category")] makes the categories of [Sex],
    [Pclass], [Embarked] and [Title] out of the values that occur, sorted;
    those of [AgeGroup] are the labels handed to [cut]. *)
Definition categories (feature : string) (l : list Row) : list Category :=
  if feature =? "AgeGroup" then map CatStr age_labels
  else if feature =? "Pclass" then
    map CatInt (sort Z.leb (nodup Z.eq_dec (map Pclass l)))
  else if feature =? "Sex" then map CatStr (unique_sorted (map Sex l))
  else if feature =? "Embarked" then map CatStr (unique_sorted (dropna (map Embarked l)))
  else if feature =? "Title" then map CatStr (unique_sorted (dropna (map Title l)))
  else [].

Record SurvivalRow : Type := mkSurvivalRow {
  Total : nat;
  Survived_Count : Z;
  Survival_Rate : option Q
}.

(** The rows of one group: a row with a missing key is in no group. *)
Definition group_rows (feature : string) (c : Category) (l : list Row) : list Row :=
  filter (fun r => option_eqb Category_eqb (feature_key feature r) (Some c)) l.

Definition sum_Z (l : list Z) : Z := fold_right Z.add 0%Z l.

(** ["mean"]: computed in floating point, undefined on an empty group. *)
Definition mean (l : list Z) : option Q :=
  match l with
  | [] => None
  | _ => Some (inject_Z (sum_Z l) / inject_Z (Z.of_nat (length l)))%Q
  end.

Definition scale100 (m : option Q) : option Q :=
  match m with
  | Some x => Some (Qred (x * 100))
  | None => None
  end.

(** [agg(["count", "sum", "mean"])] on one group, and the rate in percent. *)
Definition aggregate (g : list Row) : SurvivalRow :=
  let s := map Survived g in
  mkSurvivalRow (length s) (wrap64 (sum_Z s)) (scale100 (mean s)).

(** [df.groupby(feature)["Survived"].agg(["count", "sum", "mean"])] with the
    rate column multiplied by 100. *)
Definition survival_by_feature (feature : string) (l : list Row)
    : list (Category * SurvivalRow) :=
  map (fun c => (c, aggregate (group_rows feature c l))) (categories feature l).

Definition categorical_features : list string :=
  ["Sex"; "Pclass"; "Embarked"; "AgeGroup"; "Title"].

(** [df_clean["Survived"].mean() * 100], which is printed first. *)
Definition overall_survival_rate (df_clean : DataFrame) : option Q :=
  scale100 (mean (map Survived (rows df_clean))).

(** [TitanicAnalyzer.analyze_survival_patterns], on the cleaned frame
    [self.df_clean]: the dictionary [survival_analysis], one table per
    feature that is a column of the frame, in the order of insertion. *)
Definition analyze_survival_patterns (df_clean : DataFrame)
    : result (list (string * list (Category * SurvivalRow))) :=
  if in_columns "Survived" (columns df_clean) then
    Ok (flat_map (fun feature =>
                    if in_columns feature (columns df_clean)
                    then [(feature, survival_by_feature feature (rows df_clean))]
                    else [])
                 categorical_features)
  else Raise (KeyError "Survived").

(** [round(1)], as the tables are printed: to one decimal, halves to even. *)
Definition round1 (x : Q) : Q :=
  let y := (x * 10)%Q in
  let f := Qfloor y in
  let d := (y - inject_Z f)%Q in
  let n := if Qle_bool d (1 # 2)
           then if Qeq_bool d (1 # 2) then (if Z.even f then f else f + 1)%Z else f
           else (f + 1)%Z in
  Qred (inject_Z n / 10).

(** ** The workflow object *)




(** ** Loaded frames *)

(** The header of the input file (spec sections 3 and 6). *)
Definition raw_columns : list string :=
  ["PassengerId"; "Survived"; "Pclass"; "Name"; "Sex"; "Age"; "SibSp";
   "Parch"; "Fare"; "Cabin"; "Embarked"].

(** A row as it is loaded: the derived columns do not exist yet. *)
Definition raw_row (id survived pclass : Z) (name sex : string) (age : option Q)
    (sibsp parch : Z) (fare : Q) (cabin embarked : option string) : Row :=
  mkRow id survived pclass name sex age sibsp parch fare cabin embarked
        0 0 None None None.

(** ** The cleaner in closed form

    What [clean_data] computes for one row of the deduplicated frame, when
    the columns it reads are all there.  [clean_data_eq] below proves that
    the pipeline of steps above computes exactly this. *)

Definition required_columns (cols : list string) : bool :=
  forallb (fun c => in_columns c cols)
    ["Pclass"; "Name"; "Sex"; "Age"; "SibSp"; "Parch"; "Fare"; "Embarked"].

Definition cabin_is_dropped (cols : list string) (d : list Row) : bool :=
  in_columns "Cabin" cols &&
  exceeds_70 (null_pct (isnull_sum (map Cabin d)) (length d)).

Definition cleaned_row (cols : list string) (d : list Row) (r : Row) : Row :=
  let age := fillna (age_median d r) (Age r) in
  mkRow (PassengerId r) (Survived r) (Pclass r) (Name r) (Sex r) age
        (SibSp r) (Parch r) (Fare r)
        (if cabin_is_dropped cols d then None else Cabin r)
        (fillna (hd_error (mode (map Embarked d))) (Embarked r))
        (family_size r) (if (family_size r =? 1)%Z then 1%Z else 0%Z)
        (replace (rare_titles (map (fun x => extract_title (Name x)) d)) "Rare"
                 (extract_title (Name r)))
        (cut age)
        (bins_to_cuts (dropna (qcut_bins (map Fare d))) fare_labels true
                      (Some (Fare r))).

Definition cleaned_columns (cols : list string) (d : list Row) : list string :=
  assign_column "FareGroup"
    (assign_column "AgeGroup"
       (assign_column "Title"
          (assign_column "IsAlone"
             (assign_column "FamilySize"
                (if cabin_is_dropped cols d then drop_column "Cabin" cols
                 else cols))))).

Definition cleaned_frame (df : DataFrame) : DataFrame :=
  let d := drop_duplicates (columns df) (rows df) in
  mkDataFrame (cleaned_columns (columns df) d)
              (map (cleaned_row (columns df) d) d).

Definition cleaned_log (df : DataFrame) : CleanLog :=
  let d := drop_duplicates (columns df) (rows df) in
  mkCleanLog (length (rows df) - length d)
             (isnull_sum (map Age d))
             (isnull_sum (map Embarked d))
             (cabin_is_dropped (columns df) d)
             (isnull_total (cleaned_frame df)).

(** The row after the two imputations of step 3. *)
Definition imputed_row (d : list Row) (r : Row) : Row :=
  set_Embarked (fillna (hd_error (mode (map Embarked d))) (Embarked r))
               (set_Age (fillna (age_median d r) (Age r)) r).

(** The row after the feature engineering of step 4, in a frame of rows [l]. *)
Definition featured_row (l : list Row) (r : Row) : Row :=
  mkRow (PassengerId r) (Survived r) (Pclass r) (Name r) (Sex r) (Age r)
        (SibSp r) (Parch r) (Fare r) (Cabin r) (Embarked r)
        (family_size r) (if (family_size r =? 1)%Z then 1%Z else 0%Z)
        (replace (rare_titles (map (fun x => extract_title (Name x)) l)) "Rare"
                 (extract_title (Name r)))
        (cut (Age r))
        (bins_to_cuts (dropna (qcut_bins (map Fare l))) fare_labels true
                      (Some (Fare r))).

Definition featured_columns (cols : list string) : list string :=
  assign_column "FareGroup"
    (assign_column "AgeGroup"
       (assign_column "Title"
          (assign_column "IsAlone" (assign_column "FamilySize" cols)))).

(** ** Sample frames *)

(** Two (class, sex) groups, each with one known and one missing age. *)
Definition two_groups : DataFrame :=
  mkDataFrame raw_columns
    [ raw_row 1 0 3 "Braund, Mr. Owen Harris" "male" (Some 22%Q) 1 0 10%Q
              None (Some "S");
      raw_row 2 1 1 "Cumings, Mrs. John Bradley" "female" (Some 38%Q) 1 0 20%Q
              (Some "C85") (Some "C");
      raw_row 3 1 3 "Allen, Mr. William Henry" "male" None 0 0 30%Q
              None None;
      raw_row 4 1 1 "Futrelle, Mrs. Jacques Heath" "female" None 1 0 40%Q
              (Some "C123") (Some "S") ].

(** The third-class men have no known age at all. *)
Definition unknown_group : DataFrame :=
  mkDataFrame raw_columns
    [ raw_row 1 0 3 "Braund, Mr. Owen Harris" "male" None 1 0 10%Q
              None (Some "S");
      raw_row 2 1 1 "Cumings, Mrs. John Bradley" "female" (Some 38%Q) 1 0 20%Q
              (Some "C85") (Some "C");
      raw_row 3 1 3 "Allen, Mr. William Henry" "male" None 0 0 30%Q
              None (Some "S");
      raw_row 4 1 1 "Futrelle, Mrs. Jacques Heath" "female" (Some 35%Q) 1 0 40%Q
              (Some "C123") (Some "S") ].

(** A passenger whose recorded age is exactly 0. *)
Definition newborn : DataFrame :=
  mkDataFrame raw_columns
    [ raw_row 1 1 3 "Dean, Miss. Elizabeth Gladys" "female" (Some 0%Q) 1 2 10%Q
              None (Some "S");
      raw_row 2 1 1 "Cumings, Mrs. John Bradley" "female" (Some 38%Q) 1 0 20%Q
              (Some "C85") (Some "C");
      raw_row 3 0 3 "Allen, Mr. William Henry" "male" (Some 12%Q) 0 0 30%Q
              None (Some "S");
      raw_row 4 0 1 "Futrelle, Mr. Jacques Heath" "male" (Some 37%Q) 1 0 40%Q
              (Some "C123") (Some "S") ].

(** A hundred passengers, the first [missing] of them without a cabin. *)
Definition cabin_sample (missing : nat) : DataFrame :=
  mkDataFrame raw_columns
    (map (fun i => raw_row (Z.of_nat i) 0 3 "Kelly, Mr. James" "male"
                           (Some 30%Q) 0 0 (inject_Z (Z.of_nat i))
                           (if (i <=? missing)%nat then None else Some "B96")
                           (Some "S"))
         (seq 1 100)).

(** A name whose title is not followed by a space. *)
Definition glued_title : DataFrame :=
  mkDataFrame raw_columns
    [ raw_row 1 0 3 "Kelly, Mr.James" "male" (Some 22%Q) 1 0 10%Q
              None (Some "S");
      raw_row 2 1 1 "Cumings, Mrs. John Bradley" "female" (Some 38%Q) 1 0 20%Q
              (Some "C85") (Some "C");
      raw_row 3 1 3 "Allen, Mr. William Henry" "male" (Some 35%Q) 0 0 30%Q
              None (Some "S");
      raw_row 4 1 1 "Futrelle, Mrs. Jacques Heath" "female" (Some 35%Q) 1 0 40%Q
              (Some "C123") (Some "S") ].

(** Twelve men and three women: only "Mr" occurs ten times or more. *)
Definition fifteen_passengers : DataFrame :=
  mkDataFrame raw_columns
    (map (fun i => raw_row (Z.of_nat i) 0 3
                           (if (i <=? 12)%nat then "Kelly, Mr. James"
                            else "Kelly, Mrs. Florence")
                           (if (i <=? 12)%nat then "male" else "female")
                           (Some 30%Q) 0 0 (inject_Z (Z.of_nat i)) None (Some "S"))
         (seq 1 15)).

(** Three women, two of whom survived, and three men, one of whom survived. *)
Definition six_passengers : DataFrame :=
  mkDataFrame raw_columns
    [ raw_row 1 1 1 "Cumings, Mrs. John Bradley" "female" (Some 38%Q) 1 0 71%Q
              (Some "C85") (Some "C");
      raw_row 2 1 3 "Heikkinen, Miss. Laina" "female" (Some 26%Q) 0 0 8%Q
              None (Some "S");
      raw_row 3 0 3 "Vestrom, Miss. Hulda Amanda" "female" (Some 14%Q) 0 0 7%Q
              None (Some "S");
      raw_row 4 0 3 "Braund, Mr. Owen Harris" "male" (Some 22%Q) 1 0 10%Q
              None (Some "S");
      raw_row 5 0 3 "Allen, Mr. William Henry" "male" (Some 35%Q) 0 0 9%Q
              None (Some "S");
      raw_row 6 1 2 "Beesley, Mr. Lawrence" "male" (Some 34%Q) 0 0 13%Q
              (Some "D56") (Some "S") ].

(** Two records of the same passenger, one with and one without the cabin. *)
Definition cabin_twins : DataFrame :=
  mkDataFrame raw_columns
    [ raw_row 1 0 3 "Braund, Mr. Owen Harris" "male" (Some 22%Q) 1 0 10%Q
              None (Some "S");
      raw_row 2 1 1 "Cumings, Mrs. John Bradley" "female" (Some 38%Q) 1 0 20%Q
              None (Some "C");
      raw_row 2 1 1 "Cumings, Mrs. John Bradley" "female" (Some 38%Q) 1 0 20%Q
              (Some "C85") (Some "C");
      raw_row 3 1 3 "Allen, Mr. William Henry" "male" (Some 35%Q) 0 0 30%Q
              None (Some "S") ].

(** No row of the list is a duplicate of an earlier one. *)
Fixpoint distinct_rows (cols : list string) (l : list Row) : Prop :=
  match l with
  | [] => True
  | r :: l' =>
      (forall x, In x l' -> row_eqb cols r x = false) /\ distinct_rows cols l'
  end.

(** [distinct_rows], decided. *)
Fixpoint distinct_rowsb (cols : list string) (l : list Row) : bool :=
  match l with
  | [] => true
  | r :: l' => forallb (fun x => negb (row_eqb cols r x)) l' && distinct_rowsb cols l'
  end.


(** ** The insight summarizer *)

(** [df[mask]["Survived"].mean() * 100], the mask given row by row. *)
Definition survival_of (mask : Row -> bool) (l : list Row) : option Q :=
  scale100 (mean (map Survived (filter mask l))).

(** [df.groupby(feature)["Survived"].mean() * 100]: a series indexed by the
    categories of the feature. *)
Definition survival_rate_by (feature : string) (l : list Row)
    : list (Category * option Q) :=
  map (fun c => (c, scale100 (mean (map Survived (group_rows feature c l)))))
      (categories feature l).

(** [series[key]]: a label that is not in the index raises [KeyError]. *)
Fixpoint getitem (series : list (Category * option Q)) (key : Category) (name : string)
    : result (option Q) :=
  match series with
  | [] => Raise (KeyError name)
  | (c, v) :: series' =>
      if Category_eqb c key then Ok v else getitem series' key name
  end.

(** [series.get(key, default)] *)
Fixpoint get (series : list (Category * option Q)) (key : Category)
    (default : option Q) : option Q :=
  match series with
  | [] => default
  | (c, v) :: series' => if Category_eqb c key then v else get series' key default
  end.

(** [x > y] on floats; false as soon as one of them is [NaN]. *)
Definition float_gt (x y : option Q) : bool :=
  match x, y with
  | Some a, Some b => negb (Qle_bool a b)
  | _, _ => false
  end.

(** [x <= y] on floats; false as soon as one of them is [NaN]. *)
Definition float_le (x y : option Q) : bool :=
  match x, y with
  | Some a, Some b => Qle_bool a b
  | _, _ => false
  end.

(** An insight, as the numbers that its sentence shows. *)
Inductive Insight : Type :=
| GenderInsight (female_survival male_survival : option Q)
| ClassInsight (first_class third_class : option Q)
| ChildInsight (child_survival : option Q)
| FamilyInsight (family_survival alone_survival : option Q)
| FareInsight (high_fare_survival low_fare_survival : option Q).

(** [TitanicAnalyzer.generate_insights] on the frame [self.df_clean]: the
    list [insights] that it returns, each sentence as the numbers it shows,
    in the order in which the sentences are appended.  A column that is read
    without a test raises [KeyError] when it is absent; the last one read so
    is [Age], for the statistical observations that are printed before the
    list is returned. *)
Definition insight_values (df_clean : DataFrame) : result (list Insight) :=
  let cols := columns df_clean in
  let l := rows df_clean in
  if negb (in_columns "Sex" cols) then Raise (KeyError "Sex")
  else if negb (in_columns "Survived" cols) then Raise (KeyError "Survived")
  else
    let female_survival := survival_of (fun r => Sex r =? "female") l in
    let male_survival := survival_of (fun r => Sex r =? "male") l in
    if negb (in_columns "Pclass" cols) then Raise (KeyError "Pclass")
    else
      let class_survival := survival_rate_by "Pclass" l in
      first_class <- getitem class_survival (CatInt 1) "1" ;;
      third_class <- getitem class_survival (CatInt 3) "3" ;;
      let children :=
        if in_columns "AgeGroup" cols then
          let age_survival := survival_rate_by "AgeGroup" l in
          let child_survival := get age_survival (CatStr "Child") (Some 0%Q) in
          if float_gt child_survival (Some 0%Q) then [ChildInsight child_survival]
          else []
        else [] in
      let family :=
        if in_columns "IsAlone" cols then
          let alone_survival := survival_of (fun r => (IsAlone r =? 1)%Z) l in
          let family_survival := survival_of (fun r => (IsAlone r =? 0)%Z) l in
          [FamilyInsight family_survival alone_survival]
        else [] in
      if negb (in_columns "Fare" cols) then Raise (KeyError "Fare")
      else
        let fare_median := median (map Fare l) in
        let high_fare_survival :=
          survival_of (fun r => float_gt (Some (Fare r)) fare_median) l in
        let low_fare_survival :=
          survival_of (fun r => float_le (Some (Fare r)) fare_median) l in
        if negb (in_columns "Age" cols) then Raise (KeyError "Age")
        else
          Ok ([GenderInsight female_survival male_survival;
               ClassInsight first_class third_class]
              ++ children ++ family
              ++ [FareInsight high_fare_survival low_fare_survival])%list.


(** ** More sample frames *)

(** Everybody paid the same fare. *)
Definition same_fare : DataFrame :=
  mkDataFrame raw_columns
    [ raw_row 1 0 3 "Braund, Mr. Owen Harris" "male" (Some 22%Q) 1 0 8%Q
              None (Some "S");
      raw_row 2 1 3 "Heikkinen, Miss. Laina" "female" (Some 26%Q) 0 0 8%Q
              None (Some "S");
      raw_row 3 0 3 "Allen, Mr. William Henry" "male" (Some 35%Q) 0 0 8%Q
              None None ].

(** The place of a fare group among the labels of [qcut]; a missing group
    counts after them. *)
Definition fare_rank (g : option string) : nat :=
  match g with
  | Some l =>
      if l =? "Low" then 0
      else if l =? "Medium" then 1
      else if l =? "High" then 2
      else if l =? "Very High" then 3
      else 4
  | None => 4
  end.

(** A child who survived, travelling with the parents. *)
Definition child_survivor : DataFrame :=
  mkDataFrame raw_columns
    [ raw_row 1 1 3 "Sandstrom, Miss. Marguerite Rut" "female" (Some 4%Q) 1 1 16%Q
              (Some "G6") (Some "S");
      raw_row 2 1 1 "Cumings, Mrs. John Bradley" "female" (Some 38%Q) 1 0 71%Q
              (Some "C85") (Some "C");
      raw_row 3 0 3 "Allen, Mr. William Henry" "male" (Some 35%Q) 0 0 8%Q
              None (Some "S");
      raw_row 4 0 2 "Beesley, Mr. Lawrence" "male" (Some 34%Q) 0 0 13%Q
              (Some "D56") (Some "S") ].

(** Nobody travels first class. *)
Definition no_first_class : DataFrame :=
  mkDataFrame raw_columns
    [ raw_row 1 1 3 "Heikkinen, Miss. Laina" "female" (Some 26%Q) 0 0 8%Q
              None (Some "S");
      raw_row 2 0 2 "Beesley, Mr. Lawrence" "male" (Some 34%Q) 0 0 13%Q
              (Some "D56") (Some "S") ].

(** The first record occurs again after the second and the third. *)
Definition repeated_row : DataFrame :=
  mkDataFrame raw_columns
    [ raw_row 1 0 3 "Braund, Mr. Owen Harris" "male" (Some 22%Q) 1 0 10%Q
              None (Some "S");
      raw_row 2 1 1 "Cumings, Mrs. John Bradley" "female" (Some 38%Q) 1 0 20%Q
              (Some "C85") (Some "C");
      raw_row 3 1 3 "Heikkinen, Miss. Laina" "female" (Some 26%Q) 0 0 30%Q
              None (Some "S");
      raw_row 1 0 3 "Braund, Mr. Owen Harris" "male" (Some 22%Q) 1 0 10%Q
              None (Some "S");
      raw_row 4 1 1 "Futrelle, Mrs. Jacques Heath" "female" (Some 35%Q) 1 0 40%Q
              (Some "C123") (Some "S") ].

(** Three third-class men of known ages 20, 40 and 26 and one of unknown
    age; two first-class women of known ages 30 and 40 and one of unknown
    age. *)
Definition several_ages : DataFrame :=
  mkDataFrame raw_columns
    [ raw_row 1 0 3 "Braund, Mr. Owen Harris" "male" (Some 20%Q) 1 0 10%Q
              None (Some "S");
      raw_row 2 0 3 "Allen, Mr. William Henry" "male" (Some 40%Q) 0 0 20%Q
              None (Some "S");
      raw_row 3 0 3 "Moran, Mr. James" "male" None 0 0 30%Q
              None (Some "Q");
      raw_row 4 1 3 "Kelly, Mr. James" "male" (Some 26%Q) 0 0 40%Q
              None (Some "Q");
      raw_row 5 1 1 "Cumings, Mrs. John Bradley" "female" (Some 30%Q) 1 0 50%Q
              (Some "C85") (Some "C");
      raw_row 6 1 1 "Futrelle, Mrs. Jacques Heath" "female" (Some 40%Q) 1 0 60%Q
              (Some "C123") (Some "S");
      raw_row 7 1 1 "Spencer, Mrs. William Augustus" "female" None 1 0 70%Q
              (Some "B78") (Some "C") ].

(** ** The median, as a statistic

    Stated from the spec's word, by counting, with neither sorting nor
    indexing: what [median] above is compared with. *)

(** The number of values below [v], and the number of values up to [v]. *)
Definition count_below (v : Q) (xs : list Q) : nat :=
  length (filter (fun x => negb (Qle_bool v x)) xs).

Definition count_upto (v : Q) (xs : list Q) : nat :=
  length (filter (fun x => Qle_bool x v) xs).

(** [v] is the value of rank [k] among [xs], the least value having rank 0:
    at most [k] values are below it and more than [k] values are up to it. *)
Definition has_rank (xs : list Q) (k : nat) (v : Q) : Prop :=
  In v xs /\ (count_below v xs <= k)%nat /\ (k < count_upto v xs)%nat.

(** [m] is the median of [xs]: the mean of the two middle values, which are
    one and the same value when the count is odd. *)
Definition is_median (xs : list Q) (m : Q) : Prop :=
  exists lo hi,
    has_rank xs ((length xs - 1) / 2) lo /\ has_rank xs (length xs / 2) hi /\
    m == (lo + hi) / 2.

(** ** First occurrences *)

(** The row at place [i] of [l] is no duplicate of a row before it. *)
Definition first_occurrence (cols : list string) (l : list Row) (i : nat) : Prop :=
  exists r, nth_error l i = Some r /\
    forall j x, (j < i)%nat -> nth_error l j = Some x -> row_eqb cols x r = false.

(** * Properties *)

(** ** Columns *)

Lemma in_columns_In (c : string) (cols : list string) :
  in_columns c cols = true <-> In c cols.
Proof.
  unfold in_columns. rewrite existsb_exists. split.
  - intros (x & Hx & E). apply String.eqb_eq in E. now subst.
  - intros H. exists c. split; [assumption | apply String.eqb_refl].
Qed.

Lemma in_columns_app (c : string) (l1 l2 : list string) :
  in_columns c (l1 ++ l2) = in_columns c l1 || in_columns c l2.
Proof. unfold in_columns. apply existsb_app. Qed.

Lemma in_columns_assign (c c' : string) (cols : list string) :
  in_columns c (assign_column c' cols) = (c =? c') || in_columns c cols.
Proof.
  unfold assign_column. destruct (in_columns c' cols) eqn:E.
  - destruct (String.eqb_spec c c') as [->|]; [now rewrite E | reflexivity].
  - rewrite in_columns_app. cbn. rewrite orb_false_r. apply orb_comm.
Qed.

Lemma in_columns_drop (c c' : string) (cols : list string) :
  in_columns c (drop_column c' cols) = negb (c' =? c) && in_columns c cols.
Proof.
  unfold in_columns, drop_column. induction cols as [|x cols IH]; cbn.
  - now rewrite andb_false_r.
  - destruct (String.eqb_spec c' x) as [->|Hx]; cbn.
    + rewrite IH. rewrite (String.eqb_sym c x).
      destruct (x =? c); cbn; reflexivity.
    + rewrite IH. destruct (String.eqb_spec c x) as [->|]; cbn.
      * apply String.eqb_neq in Hx. now rewrite Hx.
      * reflexivity.
Qed.

Lemma assign_column_present (c : string) (cols : list string) :
  in_columns c cols = true -> assign_column c cols = cols.
Proof. unfold assign_column. now intros ->. Qed.

(** ** Row maps *)

Lemma map_field_ext {A : Type} (f : Row -> A) (g : Row -> Row) (l : list Row) :
  (forall r, f (g r) = f r) -> map f (map g l) = map f l.
Proof. intros H. rewrite map_map. apply map_ext. exact H. Qed.

Lemma combine_map_self {A B : Type} (g : A -> B) (l : list A) :
  combine l (map g l) = map (fun a => (a, g a)) l.
Proof. induction l as [|a l IH]; cbn; [reflexivity | now rewrite IH]. Qed.

Lemma isnull_sum_zero {A : Type} (s : list (option A)) :
  isnull_sum s = O <-> forall x, In x s -> x <> None.
Proof.
  unfold isnull_sum. induction s as [|[a|] s IH]; cbn.
  - split; [intros _ x [] | reflexivity].
  - rewrite IH. split.
    + intros H x [<-|Hx]; [discriminate | now apply H].
    + intros H x Hx. apply H. now right.
  - split; [discriminate |]. intros H. exfalso. apply (H None); [now left | reflexivity].
Qed.

Lemma required_columns_spec (cols : list string) :
  required_columns cols = true ->
  in_columns "Pclass" cols = true /\ in_columns "Name" cols = true /\
  in_columns "Sex" cols = true /\ in_columns "Age" cols = true /\
  in_columns "SibSp" cols = true /\ in_columns "Parch" cols = true /\
  in_columns "Fare" cols = true /\ in_columns "Embarked" cols = true.
Proof.
  unfold required_columns. cbn [forallb].
  rewrite !andb_true_iff. tauto.
Qed.

Lemma fillna_known {A : Type} (v x : option A) : x <> None -> fillna v x = x.
Proof. destruct x; [reflexivity | congruence]. Qed.

Lemma qcut_bins_length (s : list Q) : length (qcut_bins s) = 5%nat.
Proof. unfold qcut_bins. now rewrite length_map. Qed.

Lemma map_combine_maps {A B C D : Type} (f : B * C -> D) (g : A -> B)
    (h : A -> C) (l : list A) :
  map f (combine (map g l) (map h l)) = map (fun x => f (g x, h x)) l.
Proof. induction l as [|a l IH]; cbn; [reflexivity | now rewrite IH]. Qed.

(** Step 4 as one map over the rows. *)
Lemma feature_steps (cols : list string) (l : list Row) :
  required_columns cols = true ->
  add_fare_group (add_age_group (add_title (add_family (mkDataFrame cols l)))) =
  if has_duplicates (qcut_bins (map Fare l))
  then Raise (ValueError "Bin edges must be unique")
  else Ok (mkDataFrame (featured_columns cols) (map (featured_row l) l)).
Proof.
  intros Hreq. apply required_columns_spec in Hreq.
  destruct Hreq as (HP & HN & HS & HA & HSi & HPa & HF & HE).
  unfold add_family. cbn [columns rows]. rewrite HSi, HPa. cbn [andb].
  unfold add_title. cbn [columns rows].
  rewrite !in_columns_assign, HN, !orb_true_r.
  rewrite (map_field_ext (fun r => extract_title (Name r))) by reflexivity.
  unfold add_age_group. cbn [columns rows].
  rewrite !in_columns_assign, HA, !orb_true_r.
  unfold add_fare_group. cbn [columns rows].
  rewrite !in_columns_assign, HF, !orb_true_r.
  rewrite !map_map. unfold qcut.
  rewrite qcut_bins_length. cbn [Nat.eqb negb]. rewrite andb_true_r.
  rewrite (map_ext (fun x => Fare _) Fare) by reflexivity.
  destruct (has_duplicates (qcut_bins (map Fare l))); cbn [bind]; [reflexivity |].
  unfold featured_columns. f_equal. f_equal.
  rewrite (map_map Fare). rewrite map_combine_maps.
  apply map_ext. intros r. reflexivity.
Qed.

Lemma required_columns_drop_cabin (cols : list string) :
  required_columns cols = true ->
  required_columns (drop_column "Cabin" cols) = true.
Proof.
  intros Hreq. apply required_columns_spec in Hreq.
  destruct Hreq as (HP & HN & HS & HA & HSi & HPa & HF & HE).
  unfold required_columns. cbn [forallb].
  rewrite !in_columns_drop, HP, HN, HS, HA, HSi, HPa, HF, HE. reflexivity.
Qed.

(** Steps 3 (cabin) and 4 on the imputed rows. *)
Lemma clean_data_tail (cols : list string) (d : list Row) (n1 n2 n3 : nat) :
  required_columns cols = true ->
  (let '(dropped, d4) :=
     drop_cabin (mkDataFrame cols (map (imputed_row d) d)) in
   d8 <- add_fare_group (add_age_group (add_title (add_family d4))) ;;
   Ok (mkCleanLog n1 n2 n3 dropped (isnull_total d8), d8)) =
  if has_duplicates (qcut_bins (map Fare d))
  then Raise (ValueError "Bin edges must be unique")
  else
    let out := mkDataFrame (cleaned_columns cols d) (map (cleaned_row cols d) d) in
    Ok (mkCleanLog n1 n2 n3 (cabin_is_dropped cols d) (isnull_total out), out).
Proof.
  intros Hreq.
  assert (Hfare : forall g : Row -> Row, (forall r, Fare (g r) = Fare r) ->
            map Fare (map g d) = map Fare d)
    by (intros g Hg; now apply map_field_ext).
  assert (Hname : forall g : Row -> Row, (forall r, Name (g r) = Name r) ->
            map (fun x => extract_title (Name x)) (map g d) =
            map (fun x => extract_title (Name x)) d)
    by (intros g Hg; rewrite map_map; apply map_ext; intros r; now rewrite Hg).
  assert (Hrows : forall (g : Row -> Row) (b : bool),
            (forall r, Fare (g r) = Fare r) -> (forall r, Name (g r) = Name r) ->
            (forall r, featured_row d (g r) =
                       mkRow (PassengerId r) (Survived r) (Pclass r) (Name r)
                         (Sex r) (fillna (age_median d r) (Age r)) (SibSp r)
                         (Parch r) (Fare r) (if b then None else Cabin r)
                         (fillna (hd_error (mode (map Embarked d))) (Embarked r))
                         (family_size r)
                         (if (family_size r =? 1)%Z then 1%Z else 0%Z)
                         (replace (rare_titles (map (fun x => extract_title (Name x)) d))
                            "Rare" (extract_title (Name r)))
                         (cut (fillna (age_median d r) (Age r)))
                         (bins_to_cuts (dropna (qcut_bins (map Fare d)))
                            fare_labels true (Some (Fare r)))) ->
            map (featured_row (map g d)) (map g d) =
            map (fun r => mkRow (PassengerId r) (Survived r) (Pclass r) (Name r)
                         (Sex r) (fillna (age_median d r) (Age r)) (SibSp r)
                         (Parch r) (Fare r) (if b then None else Cabin r)
                         (fillna (hd_error (mode (map Embarked d))) (Embarked r))
                         (family_size r)
                         (if (family_size r =? 1)%Z then 1%Z else 0%Z)
                         (replace (rare_titles (map (fun x => extract_title (Name x)) d))
                            "Rare" (extract_title (Name r)))
                         (cut (fillna (age_median d r) (Age r)))
                         (bins_to_cuts (dropna (qcut_bins (map Fare d)))
                            fare_labels true (Some (Fare r)))) d).
  { intros g b Hf Hn Hg. rewrite map_map. apply map_ext. intros r.
    rewrite <- Hg. unfold featured_row. now rewrite Hfare, Hname. }
  unfold drop_cabin, cleaned_columns, cleaned_row, cabin_is_dropped.
  cbn [columns rows].
  rewrite (map_field_ext Cabin) by reflexivity. rewrite length_map.
  destruct (in_columns "Cabin" cols) eqn:HC; cbn [andb];
    [destruct (exceeds_70 _) eqn:Hdrop |].
  - rewrite map_map.
    rewrite feature_steps by now apply required_columns_drop_cabin.
    rewrite Hfare by reflexivity.
    destruct (has_duplicates _); [reflexivity |].
    cbv zeta. unfold featured_columns.
    rewrite (Hrows _ true) by reflexivity. reflexivity.
  - rewrite feature_steps by assumption.
    rewrite Hfare by reflexivity.
    destruct (has_duplicates _); [reflexivity |].
    cbv zeta. unfold featured_columns.
    rewrite (Hrows _ false) by reflexivity. reflexivity.
  - rewrite feature_steps by assumption.
    rewrite Hfare by reflexivity.
    destruct (has_duplicates _); [reflexivity |].
    cbv zeta. unfold featured_columns.
    rewrite (Hrows _ false) by reflexivity. reflexivity.
Qed.

(** The pipeline of steps computes the closed form.  It raises exactly when
    an embarkation port is missing and none is known, or when two quartiles
    of the fares coincide. *)
Lemma clean_data_eq (df : DataFrame) :
  required_columns (columns df) = true ->
  clean_data df =
    let d := drop_duplicates (columns df) (rows df) in
    if (0 <? isnull_sum (map Embarked d))%nat &&
       match mode (map Embarked d) with [] => true | _ :: _ => false end
    then Raise (KeyError "0")
    else if has_duplicates (qcut_bins (map Fare d))
    then Raise (ValueError "Bin edges must be unique")
    else Ok (cleaned_log df, cleaned_frame df).
Proof.
  intros Hreq. pose proof (required_columns_spec _ Hreq) as Hcols.
  destruct Hcols as (HP & HN & HS & HA & HSi & HPa & HF & HE).
  unfold clean_data, cleaned_log, cleaned_frame.
  cbn [columns rows].
  set (cols := columns df) in *.
  set (d := drop_duplicates cols (rows df)).
  unfold fill_age. cbn [columns rows]. rewrite HA, HP, HS. cbn [andb bind].
  unfold fill_embarked, map_rows. cbn [columns rows]. rewrite HE.
  rewrite (map_field_ext Embarked) by reflexivity.
  destruct (0 <? isnull_sum (map Embarked d))%nat eqn:Hnulls; cbn [andb].
  - unfold mode0. destruct (mode (map Embarked d)) as [|m ms] eqn:Hmode; cbn [bind].
    + reflexivity.
    + rewrite map_map.
      replace (map _ d) with (map (imputed_row d) d)
        by (unfold imputed_row; now rewrite Hmode).
      now apply clean_data_tail.
  - cbn [bind].
    apply Nat.ltb_ge in Hnulls. apply Nat.le_0_r in Hnulls.
    replace (map _ d) with (map (imputed_row d) d).
    + rewrite Hnulls. now apply clean_data_tail.
    + apply map_ext_in. intros r Hr. unfold imputed_row.
      assert (HrE : Embarked r <> None).
      { rewrite isnull_sum_zero in Hnulls. apply Hnulls. now apply in_map. }
      destruct r as [i s p n sx a sb pa f c [e|] fs ia t ag fg]; cbn in *;
        [reflexivity | congruence].
Qed.

Lemma clean_data_ok (df : DataFrame) (log : CleanLog) (out : DataFrame) :
  required_columns (columns df) = true ->
  clean_data df = Ok (log, out) ->
  let d := drop_duplicates (columns df) (rows df) in
  log = cleaned_log df /\ out = cleaned_frame df /\
  has_duplicates (qcut_bins (map Fare d)) = false /\
  (isnull_sum (map Embarked d) = O \/ mode (map Embarked d) <> []).
Proof.
  intros Hreq H. rewrite (clean_data_eq df Hreq) in H. cbv zeta in *.
  destruct (0 <? _)%nat eqn:Hn; cbn [andb] in H.
  - destruct (mode _) eqn:Hm; [discriminate |].
    destruct (has_duplicates _); [discriminate |].
    injection H as <- <-. repeat split. now right.
  - destruct (has_duplicates _); [discriminate |].
    injection H as <- <-. repeat split. left.
    apply Nat.ltb_ge in Hn. lia.
Qed.

Lemma drop_duplicates_In (cols : list string) (l : list Row) (r : Row) :
  In r (drop_duplicates cols l) -> In r l.
Proof.
  induction l as [|x l IH]; cbn; [tauto |].
  intros [->|H]; [now left |].
  apply filter_In in H. right. now apply IH.
Qed.

Lemma cleaned_frame_In (df : DataFrame) (r' : Row) :
  In r' (rows (cleaned_frame df)) ->
  exists r, In r (rows df) /\
    r' = cleaned_row (columns df) (drop_duplicates (columns df) (rows df)) r.
Proof.
  unfold cleaned_frame. cbn [rows]. intros H. apply in_map_iff in H.
  destruct H as (r & <- & Hr). exists r. split; [|reflexivity].
  now apply drop_duplicates_In in Hr.
Qed.

Lemma wrap64_small (z : Z) :
  (- 2 ^ 63 <= z < 2 ^ 63)%Z -> wrap64 z = z.
Proof. intros H. unfold wrap64. rewrite Z.mod_small; lia. Qed.

Lemma in_columns_cleaned (c : string) (cols : list string) (d : list Row) :
  in_columns c (cleaned_columns cols d) =
  (c =? "FareGroup") || (c =? "AgeGroup") || (c =? "Title") ||
  (c =? "IsAlone") || (c =? "FamilySize") ||
  (in_columns c cols && negb (cabin_is_dropped cols d && (c =? "Cabin"))).
Proof.
  unfold cleaned_columns. rewrite !in_columns_assign, !orb_assoc.
  f_equal. destruct (cabin_is_dropped cols d); cbn.
  - rewrite in_columns_drop, String.eqb_sym. apply andb_comm.
  - now rewrite andb_true_r.
Qed.

(** C8: in the cleaned record set, family_size is the sibling/spouse count
    plus the parent/child count plus 1, hence at least 1 (the two counts being
    non-negative and within int64), and is_alone is 1 exactly when
    family_size is 1, and 0 otherwise. *)
Theorem clean_data_family_size (raw : DataFrame) (log : CleanLog) (out : DataFrame) :
  required_columns (columns raw) = true ->
  (forall r, In r (rows raw) ->
     (0 <= SibSp r /\ 0 <= Parch r /\ SibSp r + Parch r + 1 < 2 ^ 63)%Z) ->
  clean_data raw = Ok (log, out) ->
  in_columns "FamilySize" (columns out) = true /\
  in_columns "IsAlone" (columns out) = true /\
  forall r', In r' (rows out) ->
    (FamilySize r' = SibSp r' + Parch r' + 1 /\
     1 <= FamilySize r' /\
     (IsAlone r' = 1 <-> FamilySize r' = 1) /\
     (IsAlone r' = 1 \/ IsAlone r' = 0))%Z.
Proof.
  intros Hreq Hcounts H.
  destruct (clean_data_ok _ _ _ Hreq H) as (_ & -> & _).
  split; [|split].
  - unfold cleaned_frame. cbn [columns]. now rewrite in_columns_cleaned.
  - unfold cleaned_frame. cbn [columns]. now rewrite in_columns_cleaned.
  - intros r' Hr'. apply cleaned_frame_In in Hr'. destruct Hr' as (r & Hr & ->).
    specialize (Hcounts r Hr). cbn [cleaned_row FamilySize IsAlone SibSp Parch].
    assert (E : family_size r = (SibSp r + Parch r + 1)%Z).
    { unfold family_size. rewrite (wrap64_small (SibSp r + Parch r)) by lia.
      apply wrap64_small. lia. }
    rewrite E. repeat split; try lia;
      destruct (Z.eqb_spec (SibSp r + Parch r + 1) 1); lia.
Qed.

Lemma clean_data_family_size_witness :
  in_columns "FamilySize" (columns (cleaned_frame two_groups)) = true /\
  in_columns "IsAlone" (columns (cleaned_frame two_groups)) = true /\
  forall r', In r' (rows (cleaned_frame two_groups)) ->
    (FamilySize r' = SibSp r' + Parch r' + 1 /\
     1 <= FamilySize r' /\
     (IsAlone r' = 1 <-> FamilySize r' = 1) /\
     (IsAlone r' = 1 \/ IsAlone r' = 0))%Z.
Proof.
  apply (clean_data_family_size two_groups (cleaned_log two_groups)).
  - reflexivity.
  - intros r [<-|[<-|[<-|[<-|[]]]]]; cbn; lia.
  - vm_compute. reflexivity.
Defined.

(** ** Duplicates *)

Lemma option_eqb_refl {A : Type} (eqb : A -> A -> bool) (x : option A) :
  (forall a, eqb a a = true) -> option_eqb eqb x x = true.
Proof. intros H. destruct x; cbn; auto. Qed.

Lemma option_eqb_trans {A : Type} (eqb : A -> A -> bool) (x y z : option A) :
  (forall a b c, eqb a b = true -> eqb b c = true -> eqb a c = true) ->
  option_eqb eqb x y = true -> option_eqb eqb y z = true ->
  option_eqb eqb x z = true.
Proof. intros H. destruct x, y, z; cbn; try congruence. apply H. Qed.

Lemma Z_eqb_trans (a b c : Z) :
  (a =? b)%Z = true -> (b =? c)%Z = true -> (a =? c)%Z = true.
Proof. rewrite !Z.eqb_eq. congruence. Qed.

Lemma String_eqb_trans (a b c : string) :
  (a =? b) = true -> (b =? c) = true -> (a =? c) = true.
Proof. rewrite !String.eqb_eq. congruence. Qed.

Lemma implb_trans (a b1 b2 b3 : bool) :
  (b1 = true -> b2 = true -> b3 = true) ->
  implb a b1 = true -> implb a b2 = true -> implb a b3 = true.
Proof. destruct a; cbn; auto. Qed.

Lemma row_eqb_refl (cols : list string) (r : Row) : row_eqb cols r r = true.
Proof.
  unfold row_eqb.
  rewrite !Z.eqb_refl, !String.eqb_refl, Qeq_bool_refl.
  rewrite !(option_eqb_refl String.eqb) by apply String.eqb_refl.
  rewrite (option_eqb_refl Qeq_bool) by apply Qeq_bool_refl.
  rewrite !implb_true_r. reflexivity.
Qed.

Lemma row_eqb_trans (cols : list string) (r1 r2 r3 : Row) :
  row_eqb cols r1 r2 = true -> row_eqb cols r2 r3 = true ->
  row_eqb cols r1 r3 = true.
Proof.
  unfold row_eqb. rewrite !andb_true_iff.
  intros H12 H23.
  repeat match goal with H : _ /\ _ |- _ => destruct H end.
  repeat split;
    match goal with
    | H1 : implb ?a ?b1 = true, H2 : implb ?a ?b2 = true |- implb ?a ?b3 = true =>
        apply (implb_trans a b1 b2 b3); [| exact H1 | exact H2];
        first [ apply Z_eqb_trans | apply String_eqb_trans | apply Qeq_bool_trans
              | apply option_eqb_trans;
                first [ apply String_eqb_trans | apply Qeq_bool_trans ] ]
    end.
Qed.

(** Every row of the frame has its duplicate-free representative. *)
Lemma drop_duplicates_complete (cols : list string) (l : list Row) (x : Row) :
  In x l ->
  exists y, In y (drop_duplicates cols l) /\ row_eqb cols y x = true.
Proof.
  induction l as [|r l IH]; cbn [In drop_duplicates]; [tauto |].
  intros [->|Hx].
  - exists x. split; [now left | apply row_eqb_refl].
  - destruct (IH Hx) as (y & Hy & Eyx).
    destruct (row_eqb cols r y) eqn:Ery.
    + exists r. split; [now left |]. now apply row_eqb_trans with y.
    + exists y. split; [|assumption]. right. apply filter_In. now rewrite Ery.
Qed.

Lemma row_eqb_group (cols : list string) (y x : Row) :
  required_columns cols = true -> row_eqb cols y x = true ->
  Pclass y = Pclass x /\ Sex y = Sex x /\
  (Age x <> None -> Age y <> None).
Proof.
  intros Hreq. apply required_columns_spec in Hreq.
  destruct Hreq as (HP & HN & HS & HA & _).
  unfold row_eqb. rewrite HP, HS, HA. cbn [implb]. rewrite !andb_true_iff.
  intros H. repeat match goal with H : _ /\ _ |- _ => destruct H end.
  repeat match goal with
         | H : (_ =? _)%Z = true |- _ => apply Z.eqb_eq in H
         | H : (_ =? _) = true |- _ => apply String.eqb_eq in H
         end.
  repeat split; try assumption.
  destruct (Age y), (Age x); cbn in *; congruence.
Qed.

(** ** Sorting and the median *)

Lemma insert_sorted_length {A : Type} (leb : A -> A -> bool) (x : A) (l : list A) :
  length (insert_sorted leb x l) = S (length l).
Proof.
  induction l as [|y l IH]; cbn; [reflexivity |].
  destruct (leb x y); cbn; [reflexivity | now rewrite IH].
Qed.

Lemma sort_length {A : Type} (leb : A -> A -> bool) (l : list A) :
  length (sort leb l) = length l.
Proof.
  induction l as [|x l IH]; cbn; [reflexivity |].
  fold (sort leb l). now rewrite insert_sorted_length, IH.
Qed.

Lemma insert_sorted_In {A : Type} (leb : A -> A -> bool) (x a : A) (l : list A) :
  In a (insert_sorted leb x l) <-> a = x \/ In a l.
Proof.
  induction l as [|y l IH]; cbn.
  - intuition congruence.
  - destruct (leb x y); cbn; [intuition congruence |].
    rewrite IH. intuition congruence.
Qed.

Lemma sort_In {A : Type} (leb : A -> A -> bool) (a : A) (l : list A) :
  In a (sort leb l) <-> In a l.
Proof.
  induction l as [|x l IH]; cbn; [tauto |].
  fold (sort leb l). rewrite insert_sorted_In, IH. intuition congruence.
Qed.

Lemma median_nil : median [] = None.
Proof. reflexivity. Qed.

Lemma median_singleton (a : Q) : median [a] = Some a.
Proof. reflexivity. Qed.

Lemma median_defined (xs : list Q) : xs <> [] -> median xs <> None.
Proof.
  intros Hne. unfold median.
  pose proof (sort_length Qle_bool xs) as Hlen.
  destruct xs as [|x xs]; [congruence |].
  set (s := sort Qle_bool (x :: xs)) in *.
  cbn [length] in Hlen. rewrite Hlen.
  assert (Hlt : forall i, (i < length s)%nat -> exists a, nth_error s i = Some a).
  { intros i Hi. destruct (nth_error s i) eqn:E; [eauto |].
    apply nth_error_None in E. lia. }
  rewrite <- Hlen.
  assert (H0 : (0 < length s)%nat) by lia.
  destruct (length s) as [|n] eqn:En; [lia |].
  assert (H2 : (S n / 2 < S n)%nat) by (apply Nat.div_lt; lia).
  destruct (Nat.odd (S n)).
  - destruct (Hlt (S n / 2)%nat) as (a & ->); [lia | discriminate].
  - destruct (Hlt (S n / 2 - 1)%nat) as (a & ->); [lia |].
    destruct (Hlt (S n / 2)%nat) as (b & ->); [lia | discriminate].
Qed.

Lemma dropna_nil_iff {A : Type} (s : list (option A)) :
  dropna s = [] <-> forall x, In x s -> x = None.
Proof.
  induction s as [|[a|] s IH]; cbn.
  - split; [intros _ x [] | reflexivity].
  - split; [discriminate |]. intros H. specialize (H (Some a) (or_introl eq_refl)).
    discriminate.
  - rewrite IH. split.
    + intros H x [<-|Hx]; [reflexivity | now apply H].
    + intros H x Hx. apply H. now right.
Qed.

Lemma Forall2_map_self {A B : Type} (f : A -> B) (l : list A) :
  Forall2 (fun a b => b = f a) l (map f l).
Proof. induction l; cbn; constructor; auto. Qed.

Lemma Forall2_impl_In {A B : Type} (P Q : A -> B -> Prop) (l : list A) (l' : list B) :
  (forall a b, In a l -> P a b -> Q a b) -> Forall2 P l l' -> Forall2 Q l l'.
Proof.
  intros H HF. induction HF; constructor.
  - apply H; [now left | assumption].
  - apply IHHF. intros a b Ha. apply H. now right.
Qed.

(** The rows of the cleaned frame, each next to the row it comes from. *)
Lemma clean_data_rows (df : DataFrame) (log : CleanLog) (out : DataFrame)
    (P : Row -> Row -> Prop) :
  required_columns (columns df) = true ->
  clean_data df = Ok (log, out) ->
  let d := drop_duplicates (columns df) (rows df) in
  (forall r, In r d -> P r (cleaned_row (columns df) d r)) ->
  Forall2 P d (rows out).
Proof.
  intros Hreq H d HP. destruct (clean_data_ok _ _ _ Hreq H) as (_ & -> & _).
  unfold cleaned_frame. cbn [rows]. fold d.
  eapply Forall2_impl_In; [| apply Forall2_map_self].
  intros r r' Hr ->. now apply HP.
Qed.

(** ** Age imputation *)

Lemma age_median_unknown (d : list Row) (r : Row) :
  (forall x, In x d -> same_group r x = true -> Age x = None) ->
  age_median d r = None.
Proof.
  intros H. unfold age_median.
  replace (dropna _) with (@nil Q); [reflexivity |].
  symmetry. apply dropna_nil_iff. intros a Ha.
  apply in_map_iff in Ha. destruct Ha as (x & <- & Hx).
  apply filter_In in Hx. now apply H.
Qed.

Lemma age_median_known (d : list Row) (r x : Row) :
  In x d -> same_group r x = true -> Age x <> None ->
  age_median d r <> None.
Proof.
  intros Hx Hg Ha. unfold age_median. apply median_defined.
  intros E. rewrite dropna_nil_iff in E. apply Ha, E.
  apply in_map. apply filter_In. now split.
Qed.

(** C10: when every age of a (class, sex) group of the input is missing, the
    records of that group come out of the cleaner with their age still
    missing. *)
Theorem clean_data_age_unknown_group (raw : DataFrame) (log : CleanLog) (out : DataFrame) :
  required_columns (columns raw) = true ->
  clean_data raw = Ok (log, out) ->
  Forall2 (fun r r' =>
             PassengerId r' = PassengerId r /\ Pclass r' = Pclass r /\
             Sex r' = Sex r /\
             ((forall x, In x (rows raw) -> same_group r x = true -> Age x = None) ->
              Age r' = None))
          (drop_duplicates (columns raw) (rows raw)) (rows out).
Proof.
  intros Hreq H.
  apply (clean_data_rows raw log out _ Hreq H).
  intros r Hr. cbn [cleaned_row PassengerId Pclass Sex Age].
  do 3 (split; [reflexivity |]). intros Hall.
  rewrite age_median_unknown.
  - apply drop_duplicates_In in Hr. unfold fillna.
    rewrite (Hall r Hr); [reflexivity |].
    unfold same_group. now rewrite Z.eqb_refl, String.eqb_refl.
  - intros x Hx. apply Hall. now apply drop_duplicates_In in Hx.
Qed.

Lemma clean_data_age_unknown_group_witness :
  Forall2 (fun r r' =>
             PassengerId r' = PassengerId r /\ Pclass r' = Pclass r /\
             Sex r' = Sex r /\
             ((forall x, In x (rows unknown_group) -> same_group r x = true ->
                         Age x = None) ->
              Age r' = None))
          (drop_duplicates (columns unknown_group) (rows unknown_group))
          (rows (cleaned_frame unknown_group)).
Proof.
  apply (clean_data_age_unknown_group unknown_group (cleaned_log unknown_group)).
  - reflexivity.
  - vm_compute. reflexivity.
Defined.

(** ** Missing values after cleaning *)

(** C1, as stated, fails: the third-class men of [unknown_group] have no
    known age, the cleaner completes, and their age is still missing. *)
Lemma clean_data_leaves_age_missing :
  exists log out,
    clean_data unknown_group = Ok (log, out) /\
    exists r', In r' (rows out) /\ Age r' = None.
Proof.
  exists (cleaned_log unknown_group), (cleaned_frame unknown_group).
  split; [vm_compute; reflexivity |].
  eexists. split; [left; reflexivity | reflexivity].
Qed.

(** C1, amended: when the cleaner completes, every row keeps the sex, class,
    fare and survival flag it was loaded with (none of them nullable), has an
    embarkation port, and has an age as soon as one record of its
    (class, sex) group in the input has a known age. *)
Theorem clean_data_no_missing (raw : DataFrame) (log : CleanLog) (out : DataFrame) :
  required_columns (columns raw) = true ->
  clean_data raw = Ok (log, out) ->
  Forall2 (fun r r' =>
             Sex r' = Sex r /\ Pclass r' = Pclass r /\ Fare r' = Fare r /\
             Survived r' = Survived r /\
             Embarked r' <> None /\
             ((exists x, In x (rows raw) /\ same_group r x = true /\ Age x <> None) ->
              Age r' <> None))
          (drop_duplicates (columns raw) (rows raw)) (rows out).
Proof.
  intros Hreq H.
  destruct (clean_data_ok _ _ _ Hreq H) as (_ & _ & _ & Hmode).
  apply (clean_data_rows raw log out _ Hreq H).
  intros r Hr. cbn [cleaned_row Sex Pclass Fare Survived Embarked Age].
  do 4 (split; [reflexivity |]). split.
  - destruct Hmode as [Hz|Hm].
    + rewrite isnull_sum_zero in Hz. rewrite fillna_known; apply Hz; now apply in_map.
    + destruct (mode _); [congruence |]. cbn. destruct (Embarked r); discriminate.
  - intros (x & Hx & Hg & Ha).
    destruct (drop_duplicates_complete (columns raw) _ _ Hx) as (y & Hy & Eyx).
    destruct (row_eqb_group _ _ _ Hreq Eyx) as (EP & ES & EA).
    assert (Hmed : age_median (drop_duplicates (columns raw) (rows raw)) r <> None).
    { apply age_median_known with y; [assumption | | now apply EA].
      unfold same_group in *. now rewrite EP, ES. }
    destruct (Age r); cbn; [discriminate | assumption].
Qed.

Lemma clean_data_no_missing_witness :
  Forall2 (fun r r' =>
             Sex r' = Sex r /\ Pclass r' = Pclass r /\ Fare r' = Fare r /\
             Survived r' = Survived r /\
             Embarked r' <> None /\
             ((exists x, In x (rows two_groups) /\ same_group r x = true /\
                         Age x <> None) ->
              Age r' <> None))
          (drop_duplicates (columns two_groups) (rows two_groups))
          (rows (cleaned_frame two_groups)).
Proof.
  apply (clean_data_no_missing two_groups (cleaned_log two_groups)).
  - reflexivity.
  - vm_compute. reflexivity.
Defined.

(** ** Bins *)

Lemma Qle_bool_false (x y : Q) : Qle_bool x y = false -> y < x.
Proof.
  intros H. apply Qnot_le_lt. intros Hc. apply Qle_bool_iff in Hc. congruence.
Qed.

Ltac case_Qle a b :=
  let E := fresh "E" in
  destruct (Qle_bool a b) eqn:E;
  [apply Qle_bool_iff in E | apply Qle_bool_false in E];
  try (exfalso; lra).

(** The intervals of [cut] are open on the left and closed on the right. *)
Lemma cut_intervals (a : Q) :
  (0 < a <= 12 -> cut (Some a) = Some "Child") /\
  (12 < a <= 18 -> cut (Some a) = Some "Teen") /\
  (18 < a <= 35 -> cut (Some a) = Some "Adult") /\
  (35 < a <= 60 -> cut (Some a) = Some "Middle-aged") /\
  (60 < a <= 100 -> cut (Some a) = Some "Senior") /\
  (a <= 0 \/ 100 < a -> cut (Some a) = None).
Proof.
  unfold cut, bins_to_cuts, searchsorted_left, age_bins. cbn [filter andb].
  repeat split; intros H;
    case_Qle a 0; case_Qle a 12; case_Qle a 18; case_Qle a 35;
    case_Qle a 60; case_Qle a 100; reflexivity.
Qed.

(** The intervals of [qcut]: closed on the right, the first one closed on
    both sides. *)
Lemma qcut_intervals (e0 e1 e2 e3 e4 f : Q) :
  e0 < e1 -> e1 < e2 -> e2 < e3 -> e3 < e4 -> e0 <= f <= e4 ->
  let label := bins_to_cuts [e0; e1; e2; e3; e4] fare_labels true (Some f) in
  (f <= e1 -> label = Some "Low") /\
  (e1 < f <= e2 -> label = Some "Medium") /\
  (e2 < f <= e3 -> label = Some "High") /\
  (e3 < f -> label = Some "Very High").
Proof.
  intros H01 H12 H23 H34 Hf label. subst label.
  unfold bins_to_cuts, searchsorted_left. cbn [filter andb].
  destruct (Qeq_bool f e0) eqn:E0;
    [apply Qeq_bool_iff in E0 | apply Qeq_bool_neq in E0].
  - repeat split; intros H; try (exfalso; lra); reflexivity.
  - assert (Hlt : e0 < f).
    { destruct Hf as (Hf & _). apply Qle_lteq in Hf.
      destruct Hf as [Hf|Hf]; [assumption | symmetry in Hf; contradiction]. }
    repeat split; intros H;
      case_Qle f e0; case_Qle f e1; case_Qle f e2; case_Qle f e3; case_Qle f e4;
      reflexivity.
Qed.

(** ** Age groups *)

(** C4, as stated, fails: a record whose age is exactly 0 gets no age group,
    so it is not labelled Child. *)
Lemma clean_data_age_zero_unlabelled :
  exists log out,
    clean_data newborn = Ok (log, out) /\
    exists r', In r' (rows out) /\ Age r' = Some 0%Q /\
               AgeGroup r' = None /\ AgeGroup r' <> Some "Child".
Proof.
  exists (cleaned_log newborn), (cleaned_frame newborn).
  split; [vm_compute; reflexivity |].
  eexists. split; [left; reflexivity |].
  repeat split. discriminate.
Qed.

(** C4, amended: the derived age_group is the bucket of the age under the
    partition Child (0, 12], Teen (12, 18], Adult (18, 35],
    Middle-aged (35, 60], Senior (60, 100]; an age of 0 or less, an age above
    100 and a missing age get no group. *)
Theorem clean_data_age_group (raw : DataFrame) (log : CleanLog) (out : DataFrame) :
  required_columns (columns raw) = true ->
  clean_data raw = Ok (log, out) ->
  in_columns "AgeGroup" (columns out) = true /\
  forall r', In r' (rows out) ->
    match Age r' with
    | None => AgeGroup r' = None
    | Some a =>
        (0 < a <= 12 -> AgeGroup r' = Some "Child") /\
        (12 < a <= 18 -> AgeGroup r' = Some "Teen") /\
        (18 < a <= 35 -> AgeGroup r' = Some "Adult") /\
        (35 < a <= 60 -> AgeGroup r' = Some "Middle-aged") /\
        (60 < a <= 100 -> AgeGroup r' = Some "Senior") /\
        (a <= 0 \/ 100 < a -> AgeGroup r' = None)
    end.
Proof.
  intros Hreq H.
  destruct (clean_data_ok _ _ _ Hreq H) as (_ & -> & _).
  split.
  - unfold cleaned_frame. cbn [columns]. now rewrite in_columns_cleaned.
  - intros r' Hr'. apply cleaned_frame_In in Hr'. destruct Hr' as (r & Hr & ->).
    cbn [cleaned_row Age AgeGroup].
    destruct (fillna _ (Age r)) as [a|]; [apply cut_intervals | reflexivity].
Qed.

Lemma clean_data_age_group_witness :
  in_columns "AgeGroup" (columns (cleaned_frame newborn)) = true /\
  forall r', In r' (rows (cleaned_frame newborn)) ->
    match Age r' with
    | None => AgeGroup r' = None
    | Some a =>
        (0 < a <= 12 -> AgeGroup r' = Some "Child") /\
        (12 < a <= 18 -> AgeGroup r' = Some "Teen") /\
        (18 < a <= 35 -> AgeGroup r' = Some "Adult") /\
        (35 < a <= 60 -> AgeGroup r' = Some "Middle-aged") /\
        (60 < a <= 100 -> AgeGroup r' = Some "Senior") /\
        (a <= 0 \/ 100 < a -> AgeGroup r' = None)
    end.
Proof.
  apply (clean_data_age_group newborn (cleaned_log newborn)).
  - reflexivity.
  - vm_compute. reflexivity.
Defined.

(** ** The cabin column *)

Lemma exceeds_70_iff (n t : nat) :
  (t = O -> n = O) ->
  exceeds_70 (null_pct n t) = true <-> (70 * t < 100 * n)%nat.
Proof.
  intros H0. unfold null_pct. destruct t as [|k].
  - rewrite H0 by reflexivity. cbn. split; [discriminate | lia].
  - unfold exceeds_70. rewrite negb_true_iff, <- not_true_iff_false, Qle_bool_iff.
    set (x := Z.of_nat n). set (y := Z.of_nat (S k)).
    assert (Hy : 0 < inject_Z y).
    { change 0 with (inject_Z 0). rewrite <- Zlt_Qlt. subst y. lia. }
    assert (E : inject_Z x / inject_Z y * 100 <= 70 <-> (100 * x <= 70 * y)%Z).
    { rewrite <- (Qmult_le_r _ _ (inject_Z y) Hy).
      setoid_replace (inject_Z x / inject_Z y * 100 * inject_Z y)
        with (inject_Z (100 * x)).
      2: { rewrite inject_Z_mult. field. intros Hc. rewrite Hc in Hy.
           now apply Qlt_irrefl in Hy. }
      setoid_replace (70 * inject_Z y) with (inject_Z (70 * y))
        by (rewrite inject_Z_mult; reflexivity).
      rewrite <- Zle_Qle. reflexivity. }
    rewrite E. subst x y. lia.
Qed.

Lemma isnull_sum_le {A : Type} (s : list (option A)) :
  (isnull_sum s <= length s)%nat.
Proof. unfold isnull_sum. apply filter_length_le. Qed.

(** C6: the cleaner drops the cabin column exactly when more than 70% of its
    values are missing, in the record set left by step 1; a kept column is
    unchanged.  With 71 missing cabins among 100 the column is gone, with 69
    it is kept as it was. *)
Theorem clean_data_cabin (raw : DataFrame) (log : CleanLog) (out : DataFrame) :
  required_columns (columns raw) = true ->
  in_columns "Cabin" (columns raw) = true ->
  clean_data raw = Ok (log, out) ->
  let d := drop_duplicates (columns raw) (rows raw) in
  let missing := isnull_sum (map Cabin d) in
  let total := length d in
  (in_columns "Cabin" (columns out) = false <-> (70 * total < 100 * missing)%nat) /\
  (cabin_dropped log = true <-> (70 * total < 100 * missing)%nat) /\
  (in_columns "Cabin" (columns out) = true ->
   Forall2 (fun r r' => PassengerId r' = PassengerId r /\ Cabin r' = Cabin r)
           d (rows out)) /\
  (isnull_sum (map Cabin (rows (cabin_sample 71))) = 71%nat /\
   length (rows (cabin_sample 71)) = 100%nat /\
   exists log71 out71,
     clean_data (cabin_sample 71) = Ok (log71, out71) /\
     in_columns "Cabin" (columns out71) = false) /\
  (isnull_sum (map Cabin (rows (cabin_sample 69))) = 69%nat /\
   length (rows (cabin_sample 69)) = 100%nat /\
   exists log69 out69,
     clean_data (cabin_sample 69) = Ok (log69, out69) /\
     in_columns "Cabin" (columns out69) = true /\
     map Cabin (rows out69) = map Cabin (rows (cabin_sample 69))).
Proof.
  intros Hreq HC H d missing total.
  destruct (clean_data_ok _ _ _ Hreq H) as (Hlog & Hout & _).
  assert (Hdrop : cabin_is_dropped (columns raw) d = true <->
                  (70 * total < 100 * missing)%nat).
  { unfold cabin_is_dropped. rewrite HC. cbn [andb]. apply exceeds_70_iff.
    intros Ht. apply length_zero_iff_nil in Ht. subst missing. now rewrite Ht. }
  assert (Hcol : in_columns "Cabin" (columns out) =
                 negb (cabin_is_dropped (columns raw) d)).
  { rewrite Hout. unfold cleaned_frame. cbn [columns]. fold d.
    rewrite in_columns_cleaned, HC. cbn. now rewrite andb_true_r. }
  split; [|split; [|split; [|split]]].
  - rewrite Hcol, negb_false_iff. exact Hdrop.
  - rewrite Hlog. exact Hdrop.
  - intros Hkept. rewrite Hcol, negb_true_iff in Hkept.
    apply (clean_data_rows raw log out _ Hreq H). fold d.
    intros r Hr. cbn [cleaned_row PassengerId Cabin]. now rewrite Hkept.
  - split; [vm_compute; reflexivity | split; [vm_compute; reflexivity |]].
    do 2 eexists. split; vm_compute; reflexivity.
  - split; [vm_compute; reflexivity | split; [vm_compute; reflexivity |]].
    do 2 eexists. split; [|split]; vm_compute; reflexivity.
Qed.

Lemma clean_data_cabin_witness :
  let d := drop_duplicates (columns two_groups) (rows two_groups) in
  (in_columns "Cabin" (columns (cleaned_frame two_groups)) = false <->
   (70 * length d < 100 * isnull_sum (map Cabin d))%nat) /\
  (cabin_dropped (cleaned_log two_groups) = true <->
   (70 * length d < 100 * isnull_sum (map Cabin d))%nat).
Proof.
  intros d.
  pose proof (clean_data_cabin two_groups (cleaned_log two_groups)
                (cleaned_frame two_groups)) as H.
  cbv zeta in H. fold d in H.
  destruct H as (H1 & H2 & _).
  - reflexivity.
  - reflexivity.
  - vm_compute. reflexivity.
  - split; assumption.
Defined.

(** ** Quartiles *)

Lemma insert_sorted_sorted (x : Q) (l : list Q) :
  StronglySorted Qle l -> StronglySorted Qle (insert_sorted Qle_bool x l).
Proof.
  induction 1 as [|y l Hl IH Hy]; cbn.
  - constructor; constructor.
  - destruct (Qle_bool x y) eqn:E.
    + apply Qle_bool_iff in E. constructor; [now constructor |].
      constructor; [assumption |].
      eapply Forall_impl; [| exact Hy]. intros z Hz. now apply Qle_trans with y.
    + apply Qle_bool_false in E. constructor; [assumption |].
      apply Forall_forall. intros z Hz. apply insert_sorted_In in Hz.
      destruct Hz as [->|Hz]; [now apply Qlt_le_weak |].
      rewrite Forall_forall in Hy. now apply Hy.
Qed.

Lemma sort_sorted (l : list Q) : StronglySorted Qle (sort Qle_bool l).
Proof.
  induction l as [|x l IH]; cbn; [constructor |].
  now apply insert_sorted_sorted.
Qed.

Lemma sorted_nth_le (s : list Q) (i j : nat) (a b : Q) :
  StronglySorted Qle s -> (i <= j)%nat ->
  nth_error s i = Some a -> nth_error s j = Some b -> a <= b.
Proof.
  intros Hs. revert i j. induction Hs as [|x s Hs IH Hx]; intros i j Hij Hi Hj.
  - destruct i; discriminate.
  - destruct i as [|i], j as [|j]; cbn in *.
    + injection Hi as <-. injection Hj as <-. apply Qle_refl.
    + injection Hi as <-. apply nth_error_In in Hj.
      rewrite Forall_forall in Hx. now apply Hx.
    + lia.
    + apply (IH i j); [lia | assumption | assumption].
Qed.

Lemma quantile_unfold (s : list Q) (q : Q) :
  s <> [] ->
  quantile s q =
  let pos := q * inject_Z (Z.of_nat (length s - 1)) in
  let lo := Z.to_nat (Qfloor pos) in
  match nth_error s lo, nth_error s (S lo) with
  | Some a, Some b => Some (Qred (a + (pos - inject_Z (Qfloor pos)) * (b - a)))
  | Some a, None => Some (Qred a)
  | None, _ => None
  end.
Proof. destruct s; [congruence | reflexivity]. Qed.

Section Quantile.

Variable s : list Q.
Hypothesis s_nonempty : s <> [].
Hypothesis s_sorted : StronglySorted Qle s.

Let top : Z := Z.of_nat (length s - 1).

Lemma quantile_position (q : Q) :
  0 <= q -> q <= 1 ->
  (0 <= Qfloor (q * inject_Z top) <= top)%Z.
Proof.
  intros H0 H1.
  assert (Ht : 0 <= inject_Z top).
  { change 0 with (inject_Z 0). rewrite <- Zle_Qle. subst top. lia. }
  split.
  - change 0%Z with (Qfloor 0). apply Qfloor_resp_le.
    now apply Qmult_le_0_compat.
  - rewrite <- (Qfloor_Z top) at 2. apply Qfloor_resp_le.
    rewrite <- (Qmult_1_l (inject_Z top)) at 2.
    now apply Qmult_le_compat_r.
Qed.

Lemma quantile_value (q : Q) :
  0 <= q -> q <= 1 ->
  let pos := q * inject_Z top in
  let lo := Z.to_nat (Qfloor pos) in
  exists x v,
    nth_error s lo = Some x /\ quantile s q = Some v /\
    match nth_error s (S lo) with
    | Some y => v == x + (pos - inject_Z (Qfloor pos)) * (y - x)
    | None => v == x
    end.
Proof.
  intros H0 H1 pos lo.
  pose proof (quantile_position q H0 H1) as Hpos.
  assert (Hlo : (lo < length s)%nat).
  { subst lo pos top. destruct s; [congruence |]. cbn [length] in *. lia. }
  destruct (nth_error s lo) as [x|] eqn:Ex;
    [| apply nth_error_None in Ex; lia].
  rewrite (quantile_unfold s q s_nonempty). cbv zeta. fold top. fold pos. fold lo.
  rewrite Ex.
  destruct (nth_error s (S lo)) as [y|] eqn:Ey.
  - eexists x, _. split; [reflexivity |]. split; [reflexivity |].
    apply Qred_correct.
  - eexists x, _. split; [reflexivity |]. split; [reflexivity |].
    apply Qred_correct.
Qed.

(** A quantile lies between the two values it interpolates. *)
Lemma quantile_between (q : Q) :
  0 <= q -> q <= 1 ->
  let lo := Z.to_nat (Qfloor (q * inject_Z top)) in
  exists x v,
    nth_error s lo = Some x /\ quantile s q = Some v /\ x <= v /\
    match nth_error s (S lo) with
    | Some y => v <= y
    | None => v == x
    end.
Proof.
  intros H0 H1 lo.
  destruct (quantile_value q H0 H1) as (x & v & Ex & Ev & Hv).
  cbv zeta in Hv. fold lo in Ex, Hv.
  exists x, v. split; [assumption |]. split; [assumption |].
  pose proof (Qfloor_le (q * inject_Z top)) as Hf1.
  pose proof (Qlt_floor (q * inject_Z top)) as Hf2.
  rewrite inject_Z_plus in Hf2. change (inject_Z 1) with 1 in Hf2.
  destruct (nth_error s (S lo)) as [y|] eqn:Ey.
  - assert (Hxy : x <= y) by (apply (sorted_nth_le s lo (S lo)); auto).
    set (f := q * inject_Z top - inject_Z (Qfloor (q * inject_Z top))) in *.
    assert (Hf0 : 0 <= f) by (subst f; lra).
    assert (Hf3 : f <= 1) by (subst f; lra).
    assert (Ht : 0 <= y - x) by lra.
    pose proof (Qmult_le_0_compat _ _ Hf0 Ht) as Hm0.
    pose proof (Qmult_le_compat_r _ _ _ Hf3 Ht) as Hm1.
    split; lra.
  - split; [lra | assumption].
Qed.

(** Quantiles grow with their level. *)
Lemma quantile_mono (q q' v v' : Q) :
  0 <= q -> q <= q' -> q' <= 1 ->
  quantile s q = Some v -> quantile s q' = Some v' -> v <= v'.
Proof.
  intros H0 Hqq H1 Ev Ev'.
  assert (Ht : 0 <= inject_Z top).
  { change 0 with (inject_Z 0). rewrite <- Zle_Qle. subst top. lia. }
  assert (Hpp : q * inject_Z top <= q' * inject_Z top)
    by now apply Qmult_le_compat_r.
  pose proof (quantile_position q H0 ltac:(lra)) as Hpos.
  pose proof (quantile_position q' ltac:(lra) H1) as Hpos'.
  pose proof (Qfloor_resp_le _ _ Hpp) as Hfl.
  destruct (quantile_between q H0 ltac:(lra)) as (x & w & Ex & Ew & Hxw & Hw).
  destruct (quantile_between q' ltac:(lra) H1) as (x' & w' & Ex' & Ew' & Hxw' & Hw').
  rewrite Ev in Ew. injection Ew as <-. rewrite Ev' in Ew'. injection Ew' as <-.
  cbv zeta in *.
  set (lo := Z.to_nat (Qfloor (q * inject_Z top))) in *.
  set (lo' := Z.to_nat (Qfloor (q' * inject_Z top))) in *.
  assert (Hlo : (lo <= lo')%nat) by (subst lo lo'; lia).
  destruct (Nat.eq_dec lo lo') as [E|NE].
  - destruct (quantile_value q H0 ltac:(lra)) as (y & w & Ey & Ew & Hf).
    destruct (quantile_value q' ltac:(lra) H1) as (y' & w' & Ey' & Ew' & Hf').
    rewrite Ev in Ew. injection Ew as <-. rewrite Ev' in Ew'. injection Ew' as <-.
    cbv zeta in *. fold lo in Ey, Hf. fold lo' in Ey', Hf'.
    assert (EZ : Qfloor (q * inject_Z top) = Qfloor (q' * inject_Z top))
      by (subst lo lo'; lia).
    rewrite <- E in *. rewrite Ey in Ey'. injection Ey' as <-.
    rewrite Ex in Ey. injection Ey as <-.
    destruct (nth_error s (S lo)) as [z|] eqn:Ez.
    + assert (Hxz : x <= z) by (apply (sorted_nth_le s lo (S lo)); auto).
      rewrite <- EZ in Hf'.
      assert (Hz : 0 <= z - x) by lra.
      assert (Hff : q * inject_Z top - inject_Z (Qfloor (q * inject_Z top)) <=
                    q' * inject_Z top - inject_Z (Qfloor (q * inject_Z top)))
        by lra.
      pose proof (Qmult_le_compat_r _ _ _ Hff Hz) as Hm.
      lra.
    + lra.
  - assert (Hlt : (S lo <= lo')%nat) by lia.
    destruct (nth_error s (S lo)) as [z|] eqn:Ez.
    + assert (Hzx : z <= x') by (apply (sorted_nth_le s (S lo) lo'); auto).
      lra.
    + apply nth_error_None in Ez.
      assert (Hsome : nth_error s lo' <> None) by congruence.
      apply nth_error_Some in Hsome. lia.
Qed.

(** The quantile of level 0 is the least value, that of level 1 the
    greatest. *)
Lemma quantile_min (v a : Q) : quantile s 0 = Some v -> In a s -> v <= a.
Proof.
  intros Ev Ha.
  destruct (quantile_value 0 ltac:(lra) ltac:(lra)) as (x & w & Ex & Ew & Hw).
  rewrite Ev in Ew. injection Ew as <-. cbv zeta in *.
  assert (E0 : Qfloor (0 * inject_Z top) = 0%Z).
  { rewrite (Qfloor_comp (0 * inject_Z top) 0) by ring. reflexivity. }
  rewrite E0 in *. cbn [Z.to_nat] in *.
  apply In_nth_error in Ha. destruct Ha as (i & Hi).
  assert (Hxa : x <= a) by (apply (sorted_nth_le s 0 i); auto; lia).
  destruct (nth_error s 1) as [y|].
  - assert (Hv : v == x) by (rewrite Hw; ring). lra.
  - lra.
Qed.

Lemma quantile_max (v a : Q) : quantile s 1 = Some v -> In a s -> a <= v.
Proof.
  intros Ev Ha.
  destruct (quantile_between 1 ltac:(lra) ltac:(lra)) as (x & w & Ex & Ew & Hxw & _).
  rewrite Ev in Ew. injection Ew as <-. cbv zeta in *.
  assert (E1 : Qfloor (1 * inject_Z top) = top).
  { rewrite (Qfloor_comp (1 * inject_Z top) (inject_Z top)) by ring.
    apply Qfloor_Z. }
  rewrite E1 in *.
  apply In_nth_error in Ha. destruct Ha as (i & Hi).
  assert (Hi' : (i < length s)%nat) by (apply nth_error_Some; congruence).
  assert (Hax : a <= x).
  { apply (sorted_nth_le s i (Z.to_nat top)); auto. subst top. lia. }
  lra.
Qed.

End Quantile.

(** The five edges of [qcut]: defined, increasing, and around every value. *)
Lemma qcut_bins_spec (l : list Q) :
  has_duplicates (qcut_bins l) = false ->
  exists e0 e1 e2 e3 e4,
    qcut_bins l = [Some e0; Some e1; Some e2; Some e3; Some e4] /\
    e0 < e1 /\ e1 < e2 /\ e2 < e3 /\ e3 < e4 /\
    forall a, In a l -> e0 <= a <= e4.
Proof.
  intros Hdup.
  assert (Hne : sort Qle_bool l <> []).
  { intros E. unfold qcut_bins in Hdup. rewrite E in Hdup. discriminate. }
  pose proof (sort_sorted l) as Hs.
  set (s := sort Qle_bool l) in *.
  assert (Hq : forall q, 0 <= q -> q <= 1 -> exists v, quantile s q = Some v).
  { intros q H0 H1.
    destruct (quantile_between s Hne Hs q H0 H1) as (x & v & _ & Ev & _).
    now exists v. }
  destruct (Hq 0 ltac:(lra) ltac:(lra)) as (e0 & E0).
  destruct (Hq (1 # 4) ltac:(lra) ltac:(lra)) as (e1 & E1).
  destruct (Hq (1 # 2) ltac:(lra) ltac:(lra)) as (e2 & E2).
  destruct (Hq (3 # 4) ltac:(lra) ltac:(lra)) as (e3 & E3).
  destruct (Hq 1 ltac:(lra) ltac:(lra)) as (e4 & E4).
  assert (Hbins : qcut_bins l = [Some e0; Some e1; Some e2; Some e3; Some e4]).
  { unfold qcut_bins, quartiles. fold s. cbn [map]. now rewrite E0, E1, E2, E3, E4. }
  exists e0, e1, e2, e3, e4. split; [assumption |].
  assert (Hadj : ~ e0 == e1 /\ ~ e1 == e2 /\ ~ e2 == e3 /\ ~ e3 == e4).
  { rewrite Hbins in Hdup. cbn in Hdup.
    repeat split; intros E; apply Qeq_bool_iff in E; rewrite E in Hdup;
      cbn in Hdup; rewrite ?orb_true_r in Hdup; discriminate. }
  destruct Hadj as (N01 & N12 & N23 & N34).
  pose proof (quantile_mono s Hne Hs 0 (1 # 4) e0 e1
                ltac:(lra) ltac:(lra) ltac:(lra) E0 E1) as L01.
  pose proof (quantile_mono s Hne Hs (1 # 4) (1 # 2) e1 e2
                ltac:(lra) ltac:(lra) ltac:(lra) E1 E2) as L12.
  pose proof (quantile_mono s Hne Hs (1 # 2) (3 # 4) e2 e3
                ltac:(lra) ltac:(lra) ltac:(lra) E2 E3) as L23.
  pose proof (quantile_mono s Hne Hs (3 # 4) 1 e3 e4
                ltac:(lra) ltac:(lra) ltac:(lra) E3 E4) as L34.
  apply Qle_lteq in L01, L12, L23, L34.
  split; [tauto |]. split; [tauto |]. split; [tauto |]. split; [tauto |].
  intros a Ha. apply (sort_In Qle_bool) in Ha. fold s in Ha. split.
  - now apply (quantile_min s Hne Hs).
  - now apply (quantile_max s Hne Hs).
Qed.

(** ** The filled age is the median *)

Lemma filter_insert_sorted_length {A : Type} (leb : A -> A -> bool) (p : A -> bool)
    (x : A) (l : list A) :
  length (filter p (insert_sorted leb x l)) = length (filter p (x :: l)).
Proof.
  induction l as [|y l IH]; [reflexivity |].
  cbn [insert_sorted]. destruct (leb x y); [reflexivity |].
  cbn [filter] in *. destruct (p y), (p x); cbn [length] in *; lia.
Qed.

Lemma filter_sort_length {A : Type} (leb : A -> A -> bool) (p : A -> bool)
    (l : list A) :
  length (filter p (sort leb l)) = length (filter p l).
Proof.
  induction l as [|x l IH]; [reflexivity |].
  cbn [sort fold_right]. fold (sort leb l).
  rewrite filter_insert_sorted_length. cbn [filter].
  destruct (p x); cbn [length]; now rewrite IH.
Qed.

Lemma filter_length_mono {A : Type} (p q : A -> bool) (l : list A) :
  (forall x, In x l -> p x = true -> q x = true) ->
  (length (filter p l) <= length (filter q l))%nat.
Proof.
  induction l as [|a l IH]; intros H; [cbn; lia |].
  assert (IH' := IH (fun x Hx => H x (or_intror Hx))).
  cbn [filter]. destruct (p a) eqn:Ep.
  - rewrite (H a (or_introl eq_refl) Ep). cbn [length]. lia.
  - destruct (q a); cbn [length]; lia.
Qed.

(** In a sorted list the value at place [k] has rank [k]. *)
Lemma sorted_rank (s : list Q) (k : nat) (v : Q) :
  StronglySorted Qle s -> nth_error s k = Some v -> has_rank s k v.
Proof.
  intros Hs. revert k. induction Hs as [|a s Hs IH Ha]; intros k Hk.
  - destruct k; discriminate.
  - rewrite Forall_forall in Ha. unfold has_rank, count_below, count_upto.
    destruct k as [|k]; cbn [nth_error] in Hk.
    + injection Hk as ->. split; [now left |]. cbn [filter].
      assert (E : Qle_bool v v = true) by (apply Qle_bool_iff, Qle_refl).
      rewrite E. cbn [negb length]. split; [|lia].
      pose proof (filter_length_mono (fun x => negb (Qle_bool v x)) (fun _ => false) s)
        as Hz.
      rewrite filter_false in Hz. apply Hz.
      intros x Hx Hn. apply negb_true_iff, not_true_iff_false in Hn.
      exfalso. apply Hn, Qle_bool_iff. now apply Ha.
    + destruct (IH k Hk) as (Hin & Hb & Hu). split; [now right |].
      assert (E : Qle_bool a v = true) by (apply Qle_bool_iff; now apply Ha).
      cbn [filter]. rewrite E.
      unfold count_below, count_upto in Hb, Hu.
      destruct (negb (Qle_bool v a)); cbn [length]; lia.
Qed.

Lemma has_rank_sort (xs : list Q) (k : nat) (v : Q) :
  has_rank (sort Qle_bool xs) k v -> has_rank xs k v.
Proof.
  unfold has_rank, count_below, count_upto. rewrite !filter_sort_length, sort_In.
  tauto.
Qed.

(** The rank pins the value. *)
Lemma has_rank_unique (xs : list Q) (k : nat) (v v' : Q) :
  has_rank xs k v -> has_rank xs k v' -> v == v'.
Proof.
  assert (H : forall a b, has_rank xs k a -> has_rank xs k b -> a <= b).
  { intros a b (_ & Hba & Hua) (_ & Hbb & Hub).
    destruct (Qlt_le_dec b a) as [Hlt|]; [exfalso | assumption].
    assert (Hle : (count_upto b xs <= count_below a xs)%nat).
    { apply filter_length_mono. intros x _ Hx. apply Qle_bool_iff in Hx.
      apply negb_true_iff, not_true_iff_false. rewrite Qle_bool_iff.
      apply Qlt_not_le. eapply Qle_lt_trans; eassumption. }
    lia. }
  intros Hv Hv'. apply Qle_antisym; now apply H.
Qed.

(** [median] computes the median, and the median is one value. *)
Lemma median_is_median (xs : list Q) (m : Q) :
  median xs = Some m -> is_median xs m.
Proof.
  unfold median. pose proof (sort_length Qle_bool xs) as Hlen.
  pose proof (sort_sorted xs) as Hs.
  set (s := sort Qle_bool xs) in *. rewrite Hlen.
  destruct (length xs) as [|n] eqn:En; [discriminate |].
  destruct (Nat.odd (S n)) eqn:Hodd.
  - intros Hm. unfold is_median. rewrite En. exists m, m.
    assert (E : ((S n - 1) / 2 = S n / 2)%nat).
    { apply Nat.odd_spec in Hodd. destruct Hodd as (q & Hq). rewrite Hq.
      replace (2 * q + 1 - 1)%nat with (q * 2)%nat by lia.
      rewrite Nat.div_mul by lia.
      replace (2 * q + 1)%nat with (1 + q * 2)%nat by lia.
      rewrite Nat.div_add by lia. reflexivity. }
    rewrite E. split; [|split].
    + apply has_rank_sort. now apply sorted_rank.
    + apply has_rank_sort. now apply sorted_rank.
    + field.
  - destruct (nth_error s (S n / 2 - 1)) as [a|] eqn:Ea; [|discriminate].
    destruct (nth_error s (S n / 2)) as [b|] eqn:Eb; [|discriminate].
    intros Hm. unfold is_median. rewrite En. exists a, b.
    assert (E : ((S n - 1) / 2 = S n / 2 - 1)%nat).
    { assert (Hev : Nat.even (S n) = true)
        by (rewrite <- Nat.negb_odd, Hodd; reflexivity).
      apply Nat.even_spec in Hev. destruct Hev as (q & Hq). rewrite Hq.
      destruct q as [|q]; [lia |].
      replace (2 * S q - 1)%nat with (1 + q * 2)%nat by lia.
      rewrite Nat.div_add by lia.
      replace (2 * S q)%nat with (S q * 2)%nat by lia.
      rewrite Nat.div_mul by lia. cbn. lia. }
    rewrite E. split; [|split].
    + apply has_rank_sort. now apply sorted_rank.
    + apply has_rank_sort. now apply sorted_rank.
    + assert (Em : Qred ((a + b) / 2) = m) by congruence.
      rewrite <- Em. apply Qred_correct.
Qed.

Lemma is_median_unique (xs : list Q) (m m' : Q) :
  is_median xs m -> is_median xs m' -> m == m'.
Proof.
  intros (lo & hi & Hlo & Hhi & E) (lo' & hi' & Hlo' & Hhi' & E').
  rewrite E, E'.
  rewrite (has_rank_unique _ _ _ _ Hlo Hlo'), (has_rank_unique _ _ _ _ Hhi Hhi').
  reflexivity.
Qed.

Lemma several_ages_cleaned :
  clean_data several_ages = Ok (cleaned_log several_ages, cleaned_frame several_ages) /\
  map Age (rows (cleaned_frame several_ages)) =
    [Some 20%Q; Some 40%Q; Some 26%Q; Some 26%Q; Some 30%Q; Some 40%Q; Some 35%Q].
Proof. split; vm_compute; reflexivity. Qed.

(** C3: a record with a missing age gets the median of the known ages of its
    (class, sex) group, the groups being those of the record set after step 1.
    The median is the mean of the two middle values of the known ages, found
    by counting: the values of ranks (n-1)/2 and n/2 among the n known ages,
    one and the same when n is odd.  A group with a single known age hands
    that age to its missing ones, as in the sample of two groups; with the
    known ages 20, 40, 26 the missing age becomes 26, and with 30, 40 it
    becomes 35. *)
Theorem clean_data_age_imputation (raw : DataFrame) (log : CleanLog) (out : DataFrame) :
  required_columns (columns raw) = true ->
  clean_data raw = Ok (log, out) ->
  let d := drop_duplicates (columns raw) (rows raw) in
  Forall2 (fun r r' =>
             PassengerId r' = PassengerId r /\ Pclass r' = Pclass r /\
             Sex r' = Sex r /\
             (Age r = None ->
              let known := dropna (map Age (filter (same_group r) d)) in
              Age r' = median known /\
              (known <> [] -> exists m, Age r' = Some m /\ is_median known m) /\
              forall a, known = [a] -> Age r' = Some a))
          d (rows out) /\
  map Age (rows two_groups) = [Some 22%Q; Some 38%Q; None; None] /\
  (exists log2 out2,
     clean_data two_groups = Ok (log2, out2) /\
     map Age (rows out2) = [Some 22%Q; Some 38%Q; Some 22%Q; Some 38%Q]) /\
  map Age (rows several_ages) =
    [Some 20%Q; Some 40%Q; None; Some 26%Q; Some 30%Q; Some 40%Q; None] /\
  exists log3 out3,
    clean_data several_ages = Ok (log3, out3) /\
    map Age (rows out3) =
      [Some 20%Q; Some 40%Q; Some 26%Q; Some 26%Q; Some 30%Q; Some 40%Q; Some 35%Q].
Proof.
  intros Hreq H d. split; [|split; [|split; [|split]]].
  - apply (clean_data_rows raw log out _ Hreq H). fold d.
    intros r Hr. cbn [cleaned_row PassengerId Pclass Sex Age].
    do 3 (split; [reflexivity |]).
    intros E. rewrite E. cbn [fillna]. unfold age_median. cbv zeta.
    split; [reflexivity |]. split.
    + intros Hne. destruct (median _) as [m|] eqn:Em.
      * exists m. split; [reflexivity |]. now apply median_is_median.
      * now apply median_defined in Hne.
    + intros a ->. reflexivity.
  - reflexivity.
  - exists (cleaned_log two_groups), (cleaned_frame two_groups).
    split; vm_compute; reflexivity.
  - reflexivity.
  - exists (cleaned_log several_ages), (cleaned_frame several_ages).
    exact several_ages_cleaned.
Qed.

Lemma clean_data_age_imputation_witness :
  let d := drop_duplicates (columns several_ages) (rows several_ages) in
  Forall2 (fun r r' =>
             PassengerId r' = PassengerId r /\ Pclass r' = Pclass r /\
             Sex r' = Sex r /\
             (Age r = None ->
              let known := dropna (map Age (filter (same_group r) d)) in
              Age r' = median known /\
              (known <> [] -> exists m, Age r' = Some m /\ is_median known m) /\
              forall a, known = [a] -> Age r' = Some a))
          d (rows (cleaned_frame several_ages)).
Proof.
  refine (proj1 (clean_data_age_imputation several_ages (cleaned_log several_ages)
                   (cleaned_frame several_ages) _ _)).
  - reflexivity.
  - vm_compute. reflexivity.
Defined.

(** ** Fare groups *)



(** ** Titles *)

Lemma append_assoc (a b c : string) : (a ++ b) ++ c = a ++ b ++ c.
Proof. induction a as [|x a IH]; cbn; [reflexivity | now rewrite IH]. Qed.

Lemma span_letters_spec (s : string) :
  s = fst (span_letters s) ++ snd (span_letters s) /\
  all_letters (fst (span_letters s)) = true /\
  not_a_letter_first (snd (span_letters s)).
Proof.
  induction s as [|c s IH]; cbn.
  - auto.
  - destruct (is_letter c) eqn:Ec.
    + destruct (span_letters s) as [w rest]. cbn in *.
      destruct IH as (E & Hw & Hr). rewrite Ec, Hw. repeat split; [congruence | assumption].
    + cbn. repeat split. exact Ec.
Qed.

Lemma span_letters_app (t rest : string) :
  all_letters t = true -> not_a_letter_first rest ->
  span_letters (t ++ rest) = (t, rest).
Proof.
  intros Ht Hr. induction t as [|c t IH]; cbn in *.
  - destruct rest as [|c rest]; [reflexivity |]. cbn in *. now rewrite Hr.
  - apply andb_true_iff in Ht. destruct Ht as (Hc & Ht).
    rewrite Hc, (IH Ht). reflexivity.
Qed.

Lemma match_title_here_iff (s t : string) :
  match_title_here s = Some t <->
  exists post, s = " " ++ t ++ ". " ++ post /\ t <> EmptyString /\ all_letters t = true.
Proof.
  split.
  - destruct s as [|c s]; cbn; [discriminate |].
    destruct (Ascii.eqb_spec c " ") as [->|]; [|discriminate].
    pose proof (span_letters_spec s) as (E & Hw & _).
    destruct (span_letters s) as [[|l w] [|c1 [|c2 post]]]; cbn in *; try discriminate.
    destruct (Ascii.eqb_spec c1 ".") as [->|]; [|discriminate].
    destruct (Ascii.eqb_spec c2 " ") as [->|]; [|discriminate].
    cbn. intros [= <-]. exists post. rewrite E. repeat split; [discriminate | assumption].
  - intros (post & -> & Hne & Ht). cbn.
    rewrite (span_letters_app t (String "." (String " " post)) Ht) by reflexivity.
    destruct t as [|l w]; [congruence | reflexivity].
Qed.

Lemma extract_title_leftmost (s t : string) :
  extract_title s = Some t <->
  exists pre rest,
    s = pre ++ rest /\ match_title_here rest = Some t /\
    forall pre' rest', s = pre' ++ rest' ->
      (String.length pre' < String.length pre)%nat ->
      match_title_here rest' = None.
Proof.
  induction s as [|c s IH].
  - cbn. split; [discriminate |].
    intros (pre & rest & E & Hm & _).
    destruct pre; [|discriminate]. cbn in E. subst rest. discriminate.
  - cbn [extract_title].
    destruct (match_title_here (String c s)) as [w|] eqn:Hhere.
    + split.
      * intros [= <-]. exists EmptyString, (String c s). repeat split; [assumption |].
        cbn. intros; lia.
      * intros (pre & rest & E & Hm & Hleft).
        destruct pre as [|c' pre].
        -- cbn in E. subst rest. congruence.
        -- specialize (Hleft EmptyString (String c s) eq_refl ltac:(cbn; lia)). congruence.
    + rewrite IH. split.
      * intros (pre & rest & E & Hm & Hleft).
        exists (String c pre), rest. subst s. repeat split; [assumption |].
        intros pre' rest' E' Hlen. destruct pre' as [|c' pre'].
        -- cbn in E'. now subst rest'.
        -- cbn in E'. injection E' as -> E'. apply (Hleft pre' rest' E').
           cbn in Hlen. lia.
      * intros (pre & rest & E & Hm & Hleft).
        destruct pre as [|c' pre].
        -- cbn in E. subst rest. congruence.
        -- cbn in E. injection E as -> E. exists pre, rest.
           repeat split; [assumption | assumption |].
           intros pre' rest' E' Hlen.
           apply (Hleft (String c' pre') rest'); cbn; [now rewrite E' | lia].
Qed.

Lemma extract_title_none (s : string) :
  extract_title s = None <->
  forall pre rest, s = pre ++ rest -> match_title_here rest = None.
Proof.
  induction s as [|c s IH].
  - cbn. split; [|reflexivity]. intros _ pre rest E.
    destruct pre; [|discriminate]. cbn in E. now subst rest.
  - cbn [extract_title].
    destruct (match_title_here (String c s)) as [w|] eqn:Hhere.
    + split; [discriminate |]. intros H.
      specialize (H EmptyString (String c s) eq_refl). congruence.
    + rewrite IH. split.
      * intros H pre rest E. destruct pre as [|c' pre].
        -- cbn in E. now subst rest.
        -- cbn in E. injection E as -> E. now apply (H pre rest).
      * intros H pre rest E. apply (H (String c pre) rest). cbn. now rewrite E.
Qed.

(** [extract_title] returns the letters of the leftmost occurrence of the
    pattern, and nothing when there is no occurrence. *)
Lemma extract_title_spec (name : string) :
  (forall t, extract_title name = Some t <->
     exists pre post,
       title_at name pre t post /\
       forall pre' t' post', title_at name pre' t' post' ->
         (String.length pre <= String.length pre')%nat) /\
  (extract_title name = None <->
     forall pre t post, ~ title_at name pre t post).
Proof.
  split.
  - intros t. rewrite extract_title_leftmost. split.
    + intros (pre & rest & E & Hm & Hleft).
      apply match_title_here_iff in Hm. destruct Hm as (post & -> & Hne & Ht).
      exists pre, post. split; [now repeat split |].
      intros pre' t' post' (E' & Hne' & Ht').
      destruct (Nat.le_gt_cases (String.length pre) (String.length pre')) as [|Hlt];
        [assumption |].
      specialize (Hleft pre' _ E' Hlt).
      assert (Hs : match_title_here (" " ++ t' ++ ". " ++ post') = Some t')
        by (apply match_title_here_iff; eauto).
      congruence.
    + intros (pre & post & (E & Hne & Ht) & Hmin).
      exists pre, (" " ++ t ++ ". " ++ post). split; [assumption |]. split.
      * apply match_title_here_iff. eauto.
      * intros pre' rest' E' Hlen.
        destruct (match_title_here rest') as [t'|] eqn:Hm; [|reflexivity].
        apply match_title_here_iff in Hm. destruct Hm as (post' & -> & Hne' & Ht').
        assert (Hle : (String.length pre <= String.length pre')%nat)
          by (apply (Hmin pre' t' post'); now repeat split).
        lia.
  - rewrite extract_title_none. split.
    + intros H pre t post (E & Hne & Ht).
      specialize (H pre _ E).
      assert (Hs : match_title_here (" " ++ t ++ ". " ++ post) = Some t)
        by (apply match_title_here_iff; eauto).
      congruence.
    + intros H pre rest E.
      destruct (match_title_here rest) as [t|] eqn:Hm; [|reflexivity].
      apply match_title_here_iff in Hm. destruct Hm as (post & -> & Hne & Ht).
      exfalso. apply (H pre t post). now repeat split.
Qed.

Lemma dropna_In {A : Type} (s : list (option A)) (a : A) :
  In a (dropna s) <-> In (Some a) s.
Proof.
  induction s as [|[b|] s IH]; cbn.
  - tauto.
  - rewrite IH. split; [intros [->|H]; auto | intros [[= ->]|H]; auto].
  - rewrite IH. split; [auto | intros [H|H]; [discriminate | assumption]].
Qed.

Lemma unique_sorted_In (l : list string) (v : string) :
  In v (unique_sorted l) <-> In v l.
Proof. unfold unique_sorted. now rewrite sort_In, nodup_In. Qed.

Lemma rare_titles_In (titles : list (option string)) (t : string) :
  In t (rare_titles titles) <->
  In (Some t) titles /\ (count_str t (dropna titles) < 10)%nat.
Proof.
  unfold rare_titles, value_counts. rewrite in_map_iff. split.
  - intros ((v & n) & <- & H). apply filter_In in H. destruct H as (H & Hn).
    apply in_map_iff in H. destruct H as (v' & [= <- <-] & Hv).
    apply unique_sorted_In, dropna_In in Hv. cbn in *.
    split; [assumption | now apply Nat.ltb_lt].
  - intros (Ht & Hn). exists (t, count_str t (dropna titles)). split; [reflexivity |].
    apply filter_In. split; [| now apply Nat.ltb_lt].
    apply in_map_iff. exists t. split; [reflexivity |].
    now apply unique_sorted_In, dropna_In.
Qed.

Lemma count_str_dropna_map {A : Type} (f : A -> option string) (l : list A) (t : string) :
  count_str t (dropna (map f l)) =
  length (filter (fun x => option_eqb String.eqb (f x) (Some t)) l).
Proof.
  unfold count_str. induction l as [|x l IH]; cbn; [reflexivity |].
  destruct (f x) as [v|]; cbn; [|exact IH].
  rewrite (String.eqb_sym t v). destruct (v =? t); cbn; now rewrite IH.
Qed.

Lemma replace_rare (titles : list (option string)) (t : string) :
  In (Some t) titles ->
  ((count_str t (dropna titles) < 10)%nat ->
   replace (rare_titles titles) "Rare" (Some t) = Some "Rare") /\
  ((10 <= count_str t (dropna titles))%nat ->
   replace (rare_titles titles) "Rare" (Some t) = Some t).
Proof.
  intros Hin. unfold replace.
  destruct (existsb (String.eqb t) (rare_titles titles)) eqn:E.
  - apply existsb_exists in E. destruct E as (v & Hv & Etv).
    apply String.eqb_eq in Etv. subst v. apply rare_titles_In in Hv.
    split; [reflexivity | lia].
  - split; [|reflexivity]. intros Hlt. exfalso.
    assert (Hr : In t (rare_titles titles)) by (apply rare_titles_In; auto).
    assert (Ht : existsb (String.eqb t) (rare_titles titles) = true).
    { apply existsb_exists. exists t. split; [assumption | apply String.eqb_refl]. }
    congruence.
Qed.

(** C5, as stated, fails on the pattern: in "Kelly, Mr.James" the word "Mr"
    is preceded by a space and followed by a period, but the cleaner finds no
    title, because no space follows the period. *)
Lemma clean_data_title_needs_space :
  exists log out,
    clean_data glued_title = Ok (log, out) /\
    exists r', In r' (rows out) /\ Name r' = "Kelly, Mr.James" /\
               spec_extract_title (Name r') = Some "Mr" /\ Title r' = None.
Proof.
  do 2 eexists. split; [vm_compute; reflexivity |].
  eexists. split; [left; reflexivity |]. repeat split.
Qed.

(** C5, amended: the derived title is the run of ASCII letters of the
    leftmost place of the name where a space, one letter or more, a period
    and a space follow one another (no title when there is no such place);
    a title that fewer than 10 records of the record set carry is replaced by
    "Rare", a title carried by 10 records or more is kept. *)
Theorem clean_data_title (raw : DataFrame) (log : CleanLog) (out : DataFrame) :
  required_columns (columns raw) = true ->
  clean_data raw = Ok (log, out) ->
  let d := drop_duplicates (columns raw) (rows raw) in
  let frequency t :=
    length (filter (fun x => option_eqb String.eqb (extract_title (Name x)) (Some t)) d) in
  Forall2 (fun r r' =>
             PassengerId r' = PassengerId r /\ Name r' = Name r /\
             match extract_title (Name r) with
             | None => Title r' = None
             | Some t =>
                 ((frequency t < 10)%nat -> Title r' = Some "Rare") /\
                 ((10 <= frequency t)%nat -> Title r' = Some t)
             end)
          d (rows out) /\
  (forall name,
     (forall t, extract_title name = Some t <->
        exists pre post,
          title_at name pre t post /\
          forall pre' t' post', title_at name pre' t' post' ->
            (String.length pre <= String.length pre')%nat) /\
     (extract_title name = None <->
        forall pre t post, ~ title_at name pre t post)) /\
  (exists log2 out2,
     clean_data fifteen_passengers = Ok (log2, out2) /\
     map Title (rows out2) = (repeat (Some "Mr") 12 ++ repeat (Some "Rare") 3)%list).
Proof.
  intros Hreq H d frequency. split; [|split].
  - apply (clean_data_rows raw log out _ Hreq H). fold d.
    intros r Hr. cbn [cleaned_row PassengerId Name Title].
    do 2 (split; [reflexivity |]).
    destruct (extract_title (Name r)) as [t|] eqn:Et; [|reflexivity].
    subst frequency. cbv beta.
    rewrite <- (count_str_dropna_map (fun x => extract_title (Name x))).
    apply replace_rare. rewrite <- Et.
    apply (in_map (fun x => extract_title (Name x))). exact Hr.
  - exact extract_title_spec.
  - do 2 eexists. split; vm_compute; reflexivity.
Qed.

Lemma clean_data_title_witness :
  let d := drop_duplicates (columns fifteen_passengers) (rows fifteen_passengers) in
  let frequency t :=
    length (filter (fun x => option_eqb String.eqb (extract_title (Name x)) (Some t)) d) in
  Forall2 (fun r r' =>
             PassengerId r' = PassengerId r /\ Name r' = Name r /\
             match extract_title (Name r) with
             | None => Title r' = None
             | Some t =>
                 ((frequency t < 10)%nat -> Title r' = Some "Rare") /\
                 ((10 <= frequency t)%nat -> Title r' = Some t)
             end)
          d (rows (cleaned_frame fifteen_passengers)).
Proof.
  refine (proj1 (clean_data_title fifteen_passengers (cleaned_log fifteen_passengers)
                   (cleaned_frame fifteen_passengers) _ _)).
  - reflexivity.
  - vm_compute. reflexivity.
Defined.

(** ** The survival aggregator *)

Lemma sum_Z_flags (g : list Row) :
  (forall r, In r g -> Survived r = 0 \/ Survived r = 1)%Z ->
  sum_Z (map Survived g) =
  Z.of_nat (length (filter (fun x => (Survived x =? 1)%Z) g)).
Proof.
  induction g as [|r g IH]; intros H; [reflexivity |].
  cbn [map sum_Z fold_right filter]. fold (sum_Z (map Survived g)).
  rewrite IH by (intros x Hx; apply H; now right).
  destruct (H r (or_introl eq_refl)) as [E|E]; rewrite E.
  - change (0 =? 1)%Z with false. cbv iota. lia.
  - change (1 =? 1)%Z with true. cbv iota. cbn [length]. lia.
Qed.

Lemma drop_duplicates_length (cols : list string) (l : list Row) :
  (length (drop_duplicates cols l) <= length l)%nat.
Proof.
  induction l as [|r l IH]; cbn; [lia |].
  pose proof (filter_length_le (fun x => negb (row_eqb cols r x))
                (drop_duplicates cols l)). lia.
Qed.

Lemma mean_nonempty (l : list Z) :
  l <> [] ->
  mean l = Some (inject_Z (sum_Z l) / inject_Z (Z.of_nat (length l))).
Proof. destruct l; [congruence | reflexivity]. Qed.

(** One group of flags: its count, its survivors and its rate. *)
Lemma aggregate_spec (g : list Row) :
  (forall r, In r g -> Survived r = 0 \/ Survived r = 1)%Z ->
  (Z.of_nat (length g) < 2 ^ 63)%Z ->
  let survivors := filter (fun x => (Survived x =? 1)%Z) g in
  Total (aggregate g) = length g /\
  Survived_Count (aggregate g) = Z.of_nat (length survivors) /\
  (g = [] -> Survival_Rate (aggregate g) = None) /\
  (g <> [] ->
   exists rate,
     Survival_Rate (aggregate g) = Some rate /\
     rate == inject_Z (Z.of_nat (length survivors)) /
             inject_Z (Z.of_nat (length g)) * 100).
Proof.
  intros Hflags Hlen survivors. unfold aggregate.
  cbn [Total Survived_Count Survival_Rate]. rewrite length_map.
  rewrite (sum_Z_flags g Hflags). fold survivors.
  assert (Hs : (length survivors <= length g)%nat) by apply filter_length_le.
  split; [reflexivity |]. split; [apply wrap64_small; lia |].
  split; [intros ->; reflexivity |]. intros Hne.
  rewrite mean_nonempty by (destruct g; [congruence | discriminate]).
  rewrite (sum_Z_flags g Hflags). fold survivors. rewrite length_map.
  cbn [scale100]. eexists. split; [reflexivity |]. apply Qred_correct.
Qed.

Lemma cut_label (x : option Q) (s : string) :
  cut x = Some s -> In s age_labels.
Proof.
  unfold cut, bins_to_cuts. destruct x as [v|]; [|discriminate].
  cbv zeta. destruct (_ || _); [discriminate |]. apply nth_error_In.
Qed.

(** A key that occurs in a cleaned frame is one of the categories. *)
Lemma feature_key_category (df : DataFrame) (feature : string) (r : Row) (c : Category) :
  In feature categorical_features ->
  In r (rows (cleaned_frame df)) ->
  feature_key feature r = Some c ->
  In c (categories feature (rows (cleaned_frame df))).
Proof.
  intros Hf Hr Hk. set (l := rows (cleaned_frame df)) in *.
  cbn in Hf. destruct Hf as [<-|[<-|[<-|[<-|[<-|[]]]]]]; cbn in Hk |- *.
  - injection Hk as <-. apply in_map, unique_sorted_In. now apply in_map.
  - injection Hk as <-. apply in_map. apply sort_In, nodup_In. now apply in_map.
  - destruct (Embarked r) as [s|] eqn:E; [|discriminate]. injection Hk as <-.
    apply in_map, unique_sorted_In, dropna_In. rewrite <- E. now apply in_map.
  - destruct (AgeGroup r) as [s|] eqn:E; [|discriminate]. injection Hk as <-.
    change (In (CatStr s) (map CatStr age_labels)).
    apply in_map. subst l. apply cleaned_frame_In in Hr. destruct Hr as (r0 & _ & ->).
    cbn [cleaned_row AgeGroup] in E. now apply cut_label in E.
  - destruct (Title r) as [s|] eqn:E; [|discriminate]. injection Hk as <-.
    apply in_map, unique_sorted_In, dropna_In. rewrite <- E. now apply in_map.
Qed.

Lemma Category_eqb_refl (c : Category) : Category_eqb c c = true.
Proof. destruct c; cbn; [apply Z.eqb_refl | apply String.eqb_refl]. Qed.

Lemma cleaned_frame_length (df : DataFrame) :
  (length (rows (cleaned_frame df)) <= length (rows df))%nat.
Proof.
  unfold cleaned_frame. cbn [rows]. rewrite length_map.
  apply drop_duplicates_length.
Qed.

Lemma feature_in_cleaned_columns (cols : list string) (d : list Row) (feature : string) :
  required_columns cols = true ->
  In feature categorical_features ->
  in_columns feature (cleaned_columns cols d) = true.
Proof.
  intros Hreq Hf. apply required_columns_spec in Hreq.
  destruct Hreq as (HP & HN & HS & HA & HSi & HPa & HF & HE).
  rewrite in_columns_cleaned.
  cbn in Hf. destruct Hf as [<-|[<-|[<-|[<-|[<-|[]]]]]];
    rewrite ?HS, ?HP, ?HE; cbn; now rewrite ?andb_false_r.
Qed.

Lemma six_passengers_rates :
  exists log6 out6 tables by_age,
    clean_data six_passengers = Ok (log6, out6) /\
    analyze_survival_patterns out6 = Ok tables /\
    In ("Sex", [(CatStr "female", mkSurvivalRow 3 2 (Some (200 # 3)));
                (CatStr "male", mkSurvivalRow 3 1 (Some (100 # 3)))]) tables /\
    round1 (200 # 3) = 667 # 10 /\ round1 (100 # 3) = 333 # 10 /\
    In ("AgeGroup", by_age) tables /\
    In (CatStr "Child", mkSurvivalRow 0 0 None) by_age.
Proof.
  do 4 eexists. split; [vm_compute; reflexivity |].
  split; [vm_compute; reflexivity |].
  split; [left; reflexivity |].
  split; [vm_compute; reflexivity |]. split; [vm_compute; reflexivity |].
  split; [do 3 right; left; reflexivity |]. left. reflexivity.
Qed.

(** C2: on a cleaned record set the aggregator does not raise; its table for
    a feature has a row for every category value that occurs, each row gives
    the number of records of the category, the number of survivors among
    them and, when there are records, the rate survivors / count * 100; a
    category without records has the rate NaN.  With 2 survivors among 3
    women and 1 among 3 men the rates are 200/3 and 100/3, printed 66.7 and
    33.3. *)
Theorem analyze_survival_patterns_spec (raw : DataFrame) (log : CleanLog)
    (df_clean : DataFrame) (feature : string) :
  required_columns (columns raw) = true ->
  in_columns "Survived" (columns raw) = true ->
  (forall r, In r (rows raw) -> Survived r = 0 \/ Survived r = 1)%Z ->
  (Z.of_nat (length (rows raw)) < 2 ^ 63)%Z ->
  clean_data raw = Ok (log, df_clean) ->
  In feature categorical_features ->
  let table := survival_by_feature feature (rows df_clean) in
  (exists tables,
     analyze_survival_patterns df_clean = Ok tables /\
     In (feature, table) tables) /\
  (forall r c, In r (rows df_clean) -> feature_key feature r = Some c ->
     exists sr, In (c, sr) table /\ (0 < Total sr)%nat) /\
  (forall c sr, In (c, sr) table ->
     let group := group_rows feature c (rows df_clean) in
     let survivors := filter (fun x => (Survived x =? 1)%Z) group in
     Total sr = length group /\
     Survived_Count sr = Z.of_nat (length survivors) /\
     (Total sr = O -> Survival_Rate sr = None) /\
     ((0 < Total sr)%nat ->
      exists rate,
        Survival_Rate sr = Some rate /\
        rate == inject_Z (Z.of_nat (length survivors)) /
                inject_Z (Z.of_nat (Total sr)) * 100)) /\
  (exists log6 out6 tables by_age,
     clean_data six_passengers = Ok (log6, out6) /\
     analyze_survival_patterns out6 = Ok tables /\
     In ("Sex", [(CatStr "female", mkSurvivalRow 3 2 (Some (200 # 3)));
                 (CatStr "male", mkSurvivalRow 3 1 (Some (100 # 3)))]) tables /\
     round1 (200 # 3) = 667 # 10 /\ round1 (100 # 3) = 333 # 10 /\
     In ("AgeGroup", by_age) tables /\
     In (CatStr "Child", mkSurvivalRow 0 0 None) by_age).
Proof.
  intros Hreq Hsurv Hflags Hlen H Hf table.
  destruct (clean_data_ok _ _ _ Hreq H) as (_ & Hout & _).
  assert (Hflags' : forall r, In r (rows df_clean) -> (Survived r = 0 \/ Survived r = 1)%Z).
  { intros r Hr. rewrite Hout in Hr. apply cleaned_frame_In in Hr.
    destruct Hr as (r0 & Hr0 & ->). cbn [cleaned_row Survived]. now apply Hflags. }
  assert (Hlen' : (length (rows df_clean) <= length (rows raw))%nat)
    by (rewrite Hout; apply cleaned_frame_length).
  split; [|split; [|split]].
  - unfold analyze_survival_patterns.
    assert (HS : in_columns "Survived" (columns df_clean) = true).
    { rewrite Hout. unfold cleaned_frame. cbn [columns].
      rewrite in_columns_cleaned, Hsurv. cbn. now rewrite andb_false_r. }
    rewrite HS. eexists. split; [reflexivity |].
    apply in_flat_map. exists feature. split; [assumption |].
    replace (in_columns feature (columns df_clean)) with true; [now left |].
    symmetry. rewrite Hout. unfold cleaned_frame. cbn [columns].
    now apply feature_in_cleaned_columns.
  - intros r c Hr Hk. exists (aggregate (group_rows feature c (rows df_clean))). split.
    + unfold table, survival_by_feature.
      apply (in_map (fun c => (c, aggregate (group_rows feature c (rows df_clean))))).
      rewrite Hout in Hr |- *. now apply feature_key_category with r.
    + unfold aggregate. cbn [Total]. rewrite length_map.
      assert (Hin : In r (group_rows feature c (rows df_clean))).
      { apply filter_In. split; [assumption |]. rewrite Hk. cbn.
        apply Category_eqb_refl. }
      destruct (group_rows feature c (rows df_clean)); [contradiction | cbn; lia].
  - intros c sr Hin group survivors.
    unfold table, survival_by_feature in Hin. apply in_map_iff in Hin.
    destruct Hin as (c' & [= -> <-] & _). fold group.
    assert (Hg : forall r, In r group -> In r (rows df_clean))
      by (intros r Hr; now apply filter_In in Hr).
    assert (Hgl : (length group <= length (rows df_clean))%nat)
      by apply filter_length_le.
    destruct (aggregate_spec group) as (Ht & Hc & Hnone & Hsome);
      [auto | lia |].
    fold survivors in Hc, Hsome. rewrite Ht.
    split; [reflexivity |]. split; [assumption |]. split.
    + intros E. apply Hnone. now apply length_zero_iff_nil.
    + intros E. apply Hsome. intros ->. cbn in E. lia.
  - exact six_passengers_rates.
Qed.

Lemma analyze_survival_patterns_witness :
  let table := survival_by_feature "Sex" (rows (cleaned_frame six_passengers)) in
  exists tables,
    analyze_survival_patterns (cleaned_frame six_passengers) = Ok tables /\
    In ("Sex", table) tables.
Proof.
  refine (proj1 (analyze_survival_patterns_spec six_passengers
                   (cleaned_log six_passengers) (cleaned_frame six_passengers)
                   "Sex" _ _ _ _ _ _)).
  - reflexivity.
  - reflexivity.
  - intros r [<-|[<-|[<-|[<-|[<-|[<-|[]]]]]]]; cbn; auto.
  - cbn. lia.
  - vm_compute. reflexivity.
  - left. reflexivity.
Defined.

(** ** Cleaning a cleaned frame *)

Lemma drop_duplicates_distinct (cols : list string) (l : list Row) :
  distinct_rows cols l -> drop_duplicates cols l = l.
Proof.
  induction l as [|r l IH]; cbn; [reflexivity |].
  intros (Hr & Hl). rewrite (IH Hl). f_equal.
  apply forallb_filter_id. apply forallb_forall.
  intros x Hx. now rewrite (Hr x Hx).
Qed.

Lemma required_columns_cleaned (cols : list string) (d : list Row) :
  required_columns cols = true ->
  required_columns (cleaned_columns cols d) = true.
Proof.
  intros Hreq. apply required_columns_spec in Hreq.
  destruct Hreq as (HP & HN & HS & HA & HSi & HPa & HF & HE).
  unfold required_columns. cbn [forallb].
  rewrite !in_columns_cleaned, HP, HN, HS, HA, HSi, HPa, HF, HE. cbn.
  now rewrite !andb_false_r.
Qed.

Lemma isnull_total_zero (df : DataFrame) :
  isnull_total df = O ->
  forall c, in_columns c (columns df) = true ->
    (c = "Age" -> isnull_sum (map Age (rows df)) = O) /\
    (c = "Cabin" -> isnull_sum (map Cabin (rows df)) = O) /\
    (c = "Embarked" -> isnull_sum (map Embarked (rows df)) = O).
Proof.
  unfold isnull_total. intros H c Hc.
  repeat split; intros ->; rewrite Hc in H; lia.
Qed.

(** Cleaning the output of the cleaner again, when that output has no
    missing value and no duplicate row, changes nothing. *)
Lemma cleaned_frame_fixpoint (df : DataFrame) :
  required_columns (columns df) = true ->
  has_duplicates (qcut_bins (map Fare (drop_duplicates (columns df) (rows df)))) = false ->
  let out := cleaned_frame df in
  isnull_total out = O ->
  distinct_rows (columns out) (rows out) ->
  cleaned_frame out = out /\
  cabin_is_dropped (columns out) (rows out) = false /\
  drop_duplicates (columns out) (rows out) = rows out /\
  isnull_sum (map Age (rows out)) = O /\
  isnull_sum (map Embarked (rows out)) = O /\
  has_duplicates (qcut_bins (map Fare (rows out))) = false.
Proof.
  intros Hreq Hdup out Hnull Hdist.
  pose proof (required_columns_cleaned _ (drop_duplicates (columns df) (rows df)) Hreq)
    as Hreq'.
  pose proof (required_columns_spec _ Hreq') as Hcols.
  destruct Hcols as (HP & HN & HS & HA & HSi & HPa & HF & HE).
  pose proof (drop_duplicates_distinct _ _ Hdist) as Hdd.
  set (d := drop_duplicates (columns df) (rows df)) in *.
  set (cols' := cleaned_columns (columns df) d) in *.
  assert (Hrows : rows out = map (cleaned_row (columns df) d) d) by reflexivity.
  assert (Hc : columns out = cols') by reflexivity.
  rewrite Hc in *.
  destruct (isnull_total_zero out Hnull "Age" HA) as (HnA & _ & _).
  destruct (isnull_total_zero out Hnull "Embarked" HE) as (_ & _ & HnE).
  specialize (HnA eq_refl). specialize (HnE eq_refl).
  assert (Hfare : map Fare (rows out) = map Fare d)
    by (rewrite Hrows; now apply map_field_ext).
  assert (Hnames : map (fun x => extract_title (Name x)) (rows out) =
                   map (fun x => extract_title (Name x)) d).
  { rewrite Hrows, map_map. now apply map_ext. }
  assert (Hcab : cabin_is_dropped cols' (rows out) = false).
  { unfold cabin_is_dropped. destruct (in_columns "Cabin" cols') eqn:HC; [|reflexivity].
    destruct (isnull_total_zero out Hnull "Cabin" HC) as (_ & HnC & _).
    rewrite (HnC eq_refl). cbn [andb]. apply not_true_iff_false.
    rewrite exceeds_70_iff by reflexivity. lia. }
  split; [|repeat split; try assumption; now rewrite Hfare].
  transitivity (mkDataFrame cols' (rows out)); [|reflexivity].
  unfold cleaned_frame. rewrite Hc, Hdd. f_equal.
  - unfold cleaned_columns. rewrite Hcab.
    assert (Hin : forall c, In c ["FamilySize"; "IsAlone"; "Title"; "AgeGroup"; "FareGroup"] ->
                            in_columns c cols' = true).
    { intros c Hin. unfold cols'. rewrite in_columns_cleaned.
      cbn in Hin. destruct Hin as [<-|[<-|[<-|[<-|[<-|[]]]]]]; reflexivity. }
    rewrite (assign_column_present "FamilySize" cols') by (apply Hin; cbn; auto).
    rewrite (assign_column_present "IsAlone" cols') by (apply Hin; cbn; auto).
    rewrite (assign_column_present "Title" cols') by (apply Hin; cbn; auto).
    rewrite (assign_column_present "AgeGroup" cols') by (apply Hin; cbn; auto).
    apply assign_column_present. apply Hin; cbn; auto 6.
  - transitivity (map (fun x : Row => x) (rows out)); [|apply map_id].
    apply map_ext_in. intros r' Hr'.
    assert (HrA : Age r' <> None)
      by (rewrite isnull_sum_zero in HnA; apply HnA; now apply in_map).
    assert (HrE : Embarked r' <> None)
      by (rewrite isnull_sum_zero in HnE; apply HnE; now apply in_map).
    rewrite Hrows in Hr'. apply in_map_iff in Hr'. destruct Hr' as (r & <- & Hr).
    unfold cleaned_row at 1. rewrite Hcab, Hfare, Hnames.
    rewrite !(fillna_known _ _ HrA), (fillna_known _ _ HrE).
    reflexivity.
Qed.

Lemma distinct_rowsb_spec (cols : list string) (l : list Row) :
  distinct_rowsb cols l = true -> distinct_rows cols l.
Proof.
  induction l as [|r l IH]; cbn; [trivial |].
  rewrite andb_true_iff, forallb_forall. intros (Hr & Hl). split; [|auto].
  intros x Hx. apply negb_true_iff. now apply Hr.
Qed.

(** C9, as stated, fails: the two records of passenger 2 in [cabin_twins]
    differ by the cabin only; the first cleaning drops the cabin column and
    leaves them identical, with no missing value anywhere, and the second
    cleaning removes one of them. *)
Lemma clean_data_not_idempotent :
  exists log1 out1 log2 out2,
    clean_data cabin_twins = Ok (log1, out1) /\
    remaining_nulls log1 = O /\
    clean_data out1 = Ok (log2, out2) /\
    duplicates_removed log2 = 1%nat /\
    length (rows out1) = 4%nat /\ length (rows out2) = 3%nat /\
    out2 <> out1.
Proof.
  do 4 eexists. split; [vm_compute; reflexivity |].
  split; [reflexivity |].
  split; [vm_compute; reflexivity |].
  split; [reflexivity |]. split; [reflexivity |]. split; [reflexivity |].
  intros E. apply (f_equal (fun df => length (rows df))) in E. discriminate.
Qed.

(** C9, amended: on an already-cleaned record set with no missing value and
    no two identical rows, the cleaner removes no duplicate, fills no age and
    no port, drops no column, and returns its input unchanged. *)
Theorem clean_data_idempotent (raw : DataFrame) (log : CleanLog) (out : DataFrame) :
  required_columns (columns raw) = true ->
  clean_data raw = Ok (log, out) ->
  isnull_total out = O ->
  distinct_rows (columns out) (rows out) ->
  clean_data out = Ok (mkCleanLog 0 0 0 false 0, out).
Proof.
  intros Hreq H Hnull Hdist.
  destruct (clean_data_ok _ _ _ Hreq H) as (_ & Hout & Hdup & _).
  cbv zeta in Hdup. subst out.
  destruct (cleaned_frame_fixpoint raw Hreq Hdup Hnull Hdist)
    as (Hfix & Hcab & Hdd & HnA & HnE & Hdup').
  rewrite clean_data_eq
    by (unfold cleaned_frame; cbn [columns]; now apply required_columns_cleaned).
  cbv zeta. rewrite Hdd, HnE, Hdup'. cbn [Nat.ltb Nat.leb andb].
  unfold cleaned_log. rewrite Hdd, HnA, HnE, Hcab, Hfix, Hnull, Nat.sub_diag.
  reflexivity.
Qed.

Lemma clean_data_idempotent_witness :
  clean_data (cleaned_frame fifteen_passengers) =
  Ok (mkCleanLog 0 0 0 false 0, cleaned_frame fifteen_passengers).
Proof.
  apply (clean_data_idempotent fifteen_passengers (cleaned_log fifteen_passengers)).
  - reflexivity.
  - vm_compute. reflexivity.
  - vm_compute. reflexivity.
  - apply distinct_rowsb_spec. vm_compute. reflexivity.
Defined.

(** * Further properties of the cleaner and of the aggregator *)

(** ** Deduplication *)

Lemma distinct_rows_filter (cols : list string) (f : Row -> bool) (l : list Row) :
  distinct_rows cols l -> distinct_rows cols (filter f l).
Proof.
  induction l as [|r l IH]; cbn; [trivial |].
  intros (Hr & Hl). destruct (f r); cbn; [|auto].
  split; [|auto]. intros x Hx. apply filter_In in Hx. now apply Hr.
Qed.

Lemma drop_duplicates_distinct_rows (cols : list string) (l : list Row) :
  distinct_rows cols (drop_duplicates cols l).
Proof.
  induction l as [|r l IH]; cbn; [trivial |]. split.
  - intros x Hx. apply filter_In in Hx. destruct Hx as (_ & Hx).
    now apply negb_true_iff.
  - now apply distinct_rows_filter.
Qed.

Lemma Forall2_filter {A B : Type} (P : A -> B -> Prop) (f : A -> bool)
    (g : B -> bool) (l : list A) (l' : list B) :
  (forall a b, P a b -> f a = g b) ->
  Forall2 P l l' -> Forall2 P (filter f l) (filter g l').
Proof.
  intros Hfg HF. induction HF as [|a b l l' Hab HF IH]; cbn [filter]; [constructor |].
  rewrite (Hfg a b Hab). destruct (g b); [now constructor | assumption].
Qed.

Lemma Forall2_map_l {A B C : Type} (P : C -> B -> Prop) (f : A -> C)
    (l : list A) (l' : list B) :
  Forall2 (fun a b => P (f a) b) l l' -> Forall2 P (map f l) l'.
Proof. induction 1; cbn; constructor; auto. Qed.

Lemma Forall2_map_r {A B C : Type} (P : A -> C -> Prop) (f : B -> C)
    (l : list A) (l' : list B) :
  Forall2 (fun a b => P a (f b)) l l' -> Forall2 P l (map f l').
Proof. induction 1; cbn; constructor; auto. Qed.

Lemma StronglySorted_filter {A : Type} (R : A -> A -> Prop) (f : A -> bool)
    (l : list A) :
  StronglySorted R l -> StronglySorted R (filter f l).
Proof.
  induction 1 as [|a l Hl IH Ha]; cbn [filter]; [constructor |].
  destruct (f a); [|assumption]. constructor; [assumption |].
  rewrite Forall_forall in *. intros x Hx. apply filter_In in Hx. now apply Ha.
Qed.

Lemma StronglySorted_map_S (l : list nat) :
  StronglySorted lt l -> StronglySorted lt (map S l).
Proof.
  induction 1 as [|a l Hl IH Ha]; cbn [map]; constructor; [assumption |].
  rewrite Forall_forall in *. intros x Hx. apply in_map_iff in Hx.
  destruct Hx as (y & <- & Hy). apply Ha in Hy. lia.
Qed.

Lemma first_occurrence_cons (cols : list string) (r0 : Row) (l : list Row) (i : nat) :
  first_occurrence cols (r0 :: l) (S i) <->
  first_occurrence cols l i /\
  exists r, nth_error l i = Some r /\ row_eqb cols r0 r = false.
Proof.
  unfold first_occurrence. cbn [nth_error]. split.
  - intros (r & Hr & Hfirst). split.
    + exists r. split; [assumption |]. intros j x Hj Hx.
      apply (Hfirst (S j) x); [lia | assumption].
    + exists r. split; [assumption |]. apply (Hfirst O r0); [lia | reflexivity].
  - intros ((r & Hr & Hfirst) & (r' & Hr' & Hneq)).
    assert (r' = r) by congruence. subst r'.
    exists r. split; [assumption |]. intros [|j] x Hj Hx; cbn [nth_error] in Hx.
    + now injection Hx as <-.
    + apply (Hfirst j x); [lia | assumption].
Qed.

(** The rows that [drop_duplicates] keeps are the first occurrences, in the
    order of the input. *)
Lemma drop_duplicates_first (cols : list string) (l : list Row) :
  exists idx : list nat,
    StronglySorted lt idx /\
    (forall i, In i idx <-> first_occurrence cols l i) /\
    Forall2 (fun i r => nth_error l i = Some r) idx (drop_duplicates cols l).
Proof.
  induction l as [|r0 l (idx & Hsorted & Hin & Hrows)].
  - exists []. split; [constructor |]. split; [|constructor].
    intros i. split; [intros [] |]. intros (r & Hr & _). destruct i; discriminate.
  - set (keep := fun i => match nth_error l i with
                          | Some x => negb (row_eqb cols r0 x)
                          | None => false
                          end).
    exists (O :: map S (filter keep idx)). split; [|split].
    + constructor.
      * now apply StronglySorted_map_S, StronglySorted_filter.
      * rewrite Forall_forall. intros x Hx. apply in_map_iff in Hx.
        destruct Hx as (y & <- & _). lia.
    + intros [|i].
      * split; [|now left]. intros _. exists r0. split; [reflexivity |].
        intros j x Hj. lia.
      * rewrite first_occurrence_cons, <- Hin. cbn [In]. split.
        -- intros [Hc|Hi]; [discriminate |]. apply in_map_iff in Hi.
           destruct Hi as (y & [= ->] & Hy). apply filter_In in Hy.
           destruct Hy as (Hy & Hk). split; [assumption |].
           unfold keep in Hk. destruct (nth_error l i) as [x|]; [|discriminate].
           exists x. split; [reflexivity | now apply negb_true_iff].
        -- intros (Hi & x & Hx & Hneq). right. apply in_map, filter_In.
           split; [assumption |]. unfold keep. rewrite Hx.
           now apply negb_true_iff.
    + cbn [drop_duplicates]. constructor; [reflexivity |].
      apply Forall2_map_l. cbn [nth_error].
      apply Forall2_filter; [|assumption].
      intros i r Hr. unfold keep. now rewrite Hr.
Qed.

(** X1: the cleaner keeps the first record of every set of duplicates, in
    the order of the input: the records it returns come, one by one, from the
    places of the input whose record is no duplicate of an earlier one, taken
    in increasing order. *)
Theorem clean_data_keeps_first (raw : DataFrame) (log : CleanLog) (out : DataFrame) :
  required_columns (columns raw) = true ->
  clean_data raw = Ok (log, out) ->
  exists idx : list nat,
    StronglySorted lt idx /\
    (forall i, In i idx <-> first_occurrence (columns raw) (rows raw) i) /\
    Forall2 (fun i r' =>
               exists r, nth_error (rows raw) i = Some r /\
                 PassengerId r' = PassengerId r /\ Survived r' = Survived r /\
                 Pclass r' = Pclass r /\ Name r' = Name r /\ Sex r' = Sex r /\
                 SibSp r' = SibSp r /\ Parch r' = Parch r /\ Fare r' = Fare r)
            idx (rows out).
Proof.
  intros Hreq H. destruct (clean_data_ok _ _ _ Hreq H) as (_ & -> & _).
  destruct (drop_duplicates_first (columns raw) (rows raw))
    as (idx & Hsorted & Hin & Hrows).
  exists idx. split; [assumption |]. split; [assumption |].
  unfold cleaned_frame. cbn [rows]. apply Forall2_map_r.
  eapply Forall2_impl; [|exact Hrows].
  intros i r Hr. exists r. split; [assumption |]. cbn. tauto.
Qed.

Lemma clean_data_keeps_first_witness :
  exists idx : list nat,
    StronglySorted lt idx /\
    (forall i, In i idx <->
               first_occurrence (columns repeated_row) (rows repeated_row) i) /\
    Forall2 (fun i r' =>
               exists r, nth_error (rows repeated_row) i = Some r /\
                 PassengerId r' = PassengerId r /\ Survived r' = Survived r /\
                 Pclass r' = Pclass r /\ Name r' = Name r /\ Sex r' = Sex r /\
                 SibSp r' = SibSp r /\ Parch r' = Parch r /\ Fare r' = Fare r)
            idx (rows (cleaned_frame repeated_row)).
Proof.
  apply (clean_data_keeps_first repeated_row (cleaned_log repeated_row)).
  - reflexivity.
  - vm_compute. reflexivity.
Defined.

Lemma filter_length_same {A : Type} (f : A -> bool) (l : list A) :
  length (filter f l) = length l -> filter f l = l.
Proof.
  induction l as [|a l IH]; cbn; [reflexivity |].
  pose proof (filter_length_le f l) as Hle.
  destruct (f a); cbn; intros H; [f_equal; apply IH; lia | lia].
Qed.

Lemma drop_duplicates_same_length (cols : list string) (l : list Row) :
  length (drop_duplicates cols l) = length l -> drop_duplicates cols l = l.
Proof.
  induction l as [|r l IH]; cbn; [reflexivity |].
  pose proof (drop_duplicates_length cols l) as Hle.
  pose proof (filter_length_le (fun x => negb (row_eqb cols r x))
                (drop_duplicates cols l)) as Hfl.
  intros H. f_equal.
  rewrite filter_length_same by lia. apply IH. lia.
Qed.

(** X2: the cleaner never adds a row and reports its removals exactly: the
    rows it returns and the duplicates it reports add up to the rows it was
    given, and it reports none exactly when no row of the input is a
    duplicate of an earlier one. *)
Theorem clean_data_row_count (raw : DataFrame) (log : CleanLog) (out : DataFrame) :
  required_columns (columns raw) = true ->
  clean_data raw = Ok (log, out) ->
  (length (rows out) + duplicates_removed log = length (rows raw))%nat /\
  (duplicates_removed log = O <-> distinct_rows (columns raw) (rows raw)).
Proof.
  intros Hreq H. destruct (clean_data_ok _ _ _ Hreq H) as (-> & -> & _).
  unfold cleaned_log, cleaned_frame. cbn [rows duplicates_removed].
  rewrite length_map.
  pose proof (drop_duplicates_length (columns raw) (rows raw)) as Hle.
  split; [lia |]. split.
  - intros H0.
    rewrite <- (drop_duplicates_same_length (columns raw) (rows raw)) by lia.
    apply drop_duplicates_distinct_rows.
  - intros Hd. rewrite (drop_duplicates_distinct _ _ Hd). lia.
Qed.

Lemma clean_data_row_count_witness :
  (length (rows (cleaned_frame cabin_twins)) +
   duplicates_removed (cleaned_log cabin_twins) = length (rows cabin_twins))%nat /\
  (duplicates_removed (cleaned_log cabin_twins) = O <->
   distinct_rows (columns cabin_twins) (rows cabin_twins)).
Proof.
  apply (clean_data_row_count cabin_twins).
  - reflexivity.
  - vm_compute. reflexivity.
Defined.

(** ** What the cleaner leaves alone *)

(** X3: the cleaner changes no value that was loaded: identifier, survival
    flag, class, name, sex, the two family counts and the fare are carried
    over, and so are an age and a port that are known. *)
Theorem clean_data_keeps_known_values (raw : DataFrame) (log : CleanLog) (out : DataFrame) :
  required_columns (columns raw) = true ->
  clean_data raw = Ok (log, out) ->
  Forall2 (fun r r' =>
             PassengerId r' = PassengerId r /\ Survived r' = Survived r /\
             Pclass r' = Pclass r /\ Name r' = Name r /\ Sex r' = Sex r /\
             SibSp r' = SibSp r /\ Parch r' = Parch r /\ Fare r' = Fare r /\
             (forall a, Age r = Some a -> Age r' = Some a) /\
             (forall p, Embarked r = Some p -> Embarked r' = Some p))
          (drop_duplicates (columns raw) (rows raw)) (rows out).
Proof.
  intros Hreq H. apply (clean_data_rows raw log out _ Hreq H).
  intros r Hr.
  cbn [cleaned_row PassengerId Survived Pclass Name Sex SibSp Parch Fare Age Embarked].
  do 8 (split; [reflexivity |]).
  split; intros v ->; reflexivity.
Qed.

Lemma clean_data_keeps_known_values_witness :
  Forall2 (fun r r' =>
             PassengerId r' = PassengerId r /\ Survived r' = Survived r /\
             Pclass r' = Pclass r /\ Name r' = Name r /\ Sex r' = Sex r /\
             SibSp r' = SibSp r /\ Parch r' = Parch r /\ Fare r' = Fare r /\
             (forall a, Age r = Some a -> Age r' = Some a) /\
             (forall p, Embarked r = Some p -> Embarked r' = Some p))
          (drop_duplicates (columns two_groups) (rows two_groups))
          (rows (cleaned_frame two_groups)).
Proof.
  apply (clean_data_keeps_known_values two_groups (cleaned_log two_groups)).
  - reflexivity.
  - vm_compute. reflexivity.
Defined.

(** ** Embarkation port *)

Lemma String_leb_trans (a b c : string) :
  String.leb a b = true -> String.leb b c = true -> String.leb a c = true.
Proof.
  revert b c. induction a as [|x a IH]; intros [|y b] [|z c]; cbn; try congruence;
    try reflexivity.
  unfold String.leb. cbn. unfold Ascii.compare.
  destruct (N.compare_spec (N_of_ascii x) (N_of_ascii y)) as [Exy|Hxy|Hxy];
    destruct (N.compare_spec (N_of_ascii y) (N_of_ascii z)) as [Eyz|Hyz|Hyz];
    destruct (N.compare_spec (N_of_ascii x) (N_of_ascii z)) as [Exz|Hxz|Hxz];
    try lia; try congruence; try reflexivity.
  apply IH.
Qed.

Lemma insert_sorted_leb {A : Type} (leb : A -> A -> bool) (x : A) (l : list A) :
  (forall a b, leb a b = true \/ leb b a = true) ->
  (forall a b c, leb a b = true -> leb b c = true -> leb a c = true) ->
  StronglySorted (fun a b => leb a b = true) l ->
  StronglySorted (fun a b => leb a b = true) (insert_sorted leb x l).
Proof.
  intros Htot Htrans. induction 1 as [|y l Hl IH Hy]; cbn.
  - constructor; constructor.
  - destruct (leb x y) eqn:E.
    + constructor; [now constructor |]. constructor; [assumption |].
      eapply Forall_impl; [| exact Hy]. intros z Hz. now apply Htrans with y.
    + constructor; [assumption |].
      apply Forall_forall. intros z Hz. apply insert_sorted_In in Hz.
      destruct Hz as [->|Hz].
      * destruct (Htot x y); congruence.
      * rewrite Forall_forall in Hy. now apply Hy.
Qed.

Lemma unique_sorted_sorted (l : list string) :
  StronglySorted (fun a b => String.leb a b = true) (unique_sorted l).
Proof.
  unfold unique_sorted, sort.
  induction (nodup string_dec l) as [|x u IH]; cbn; [constructor |].
  apply insert_sorted_leb;
    [apply String.leb_total | apply String_leb_trans | exact IH].
Qed.

Lemma map_fst_filter_snd {A : Type} (c : A -> nat) (m : nat) (u : list A) :
  map fst (filter (fun p => Nat.eqb (snd p) m) (map (fun v => (v, c v)) u)) =
  filter (fun v => Nat.eqb (c v) m) u.
Proof.
  induction u as [|v u IH]; cbn; [reflexivity |].
  destruct (Nat.eqb (c v) m); cbn; now rewrite IH.
Qed.

Lemma mode_filter (s : list (option string)) :
  mode s =
  filter (fun v => Nat.eqb (count_str v (dropna s))
                           (fold_right Nat.max O
                              (map (fun v => count_str v (dropna s))
                                   (unique_sorted (dropna s)))))
         (unique_sorted (dropna s)).
Proof.
  unfold mode, value_counts. rewrite map_map. cbn [snd].
  apply map_fst_filter_snd.
Qed.

Lemma fold_max_ge (l : list nat) (n : nat) :
  In n l -> (n <= fold_right Nat.max O l)%nat.
Proof.
  induction l as [|x l IH]; cbn; [tauto |].
  intros [->|H]; [lia |]. specialize (IH H). lia.
Qed.

Lemma count_str_absent (v : string) (l : list string) :
  ~ In v l -> count_str v l = O.
Proof.
  unfold count_str. induction l as [|x l IH]; cbn; [reflexivity |].
  intros H. destruct (String.eqb_spec v x) as [->|]; [tauto |]. apply IH. tauto.
Qed.

Lemma sorted_filter_head {A : Type} (R : A -> A -> Prop) (f : A -> bool)
    (l : list A) (h : A) (t : list A) :
  StronglySorted R l -> filter f l = h :: t -> forall x, In x t -> R h x.
Proof.
  induction 1 as [|y l Hl IH Hy]; cbn; [discriminate |].
  destruct (f y).
  - intros [= -> <-] x Hx. apply filter_In in Hx.
    rewrite Forall_forall in Hy. now apply Hy.
  - exact IH.
Qed.

(** The first mode: a value that occurs, as often as any other, and the
    least of those that occur as often. *)
Lemma mode_head (s : list (option string)) (m : string) (ms : list string) :
  mode s = m :: ms ->
  In m (dropna s) /\
  (forall v, (count_str v (dropna s) <= count_str m (dropna s))%nat) /\
  (forall v, In v (dropna s) -> count_str v (dropna s) = count_str m (dropna s) ->
             String.leb m v = true).
Proof.
  rewrite mode_filter. set (vals := dropna s).
  set (top := fold_right Nat.max O (map (fun v => count_str v vals) (unique_sorted vals))).
  intros Hm.
  assert (Hin : In m (filter (fun v => Nat.eqb (count_str v vals) top) (unique_sorted vals)))
    by (rewrite Hm; now left).
  apply filter_In in Hin. destruct Hin as (Hmu & Hmc).
  apply Nat.eqb_eq in Hmc. apply (proj1 (unique_sorted_In _ _)) in Hmu.
  split; [assumption |]. split.
  - intros v. rewrite Hmc.
    destruct (in_dec string_dec v vals) as [Hv|Hv].
    + apply fold_max_ge.
      apply (in_map (fun v => count_str v vals)). now apply unique_sorted_In.
    + rewrite (count_str_absent v vals Hv). lia.
  - intros v Hv Hc.
    assert (Hvin : In v (filter (fun v => Nat.eqb (count_str v vals) top)
                                (unique_sorted vals))).
    { apply filter_In. split; [now apply unique_sorted_In |].
      apply Nat.eqb_eq. congruence. }
    rewrite Hm in Hvin. destruct Hvin as [<-|Hvin].
    + destruct (String.leb_total m m); assumption.
    + apply (sorted_filter_head _ _ _ _ _ (unique_sorted_sorted vals) Hm v Hvin).
Qed.

(** X4: when a port is missing, the cleaner gives every record without a
    port one and the same port: a port that occurs in the record set, as
    often as any other, and the first in string order of those that occur as
    often.  With the ports S, C, missing, S the missing one becomes S. *)
Theorem clean_data_port_imputation (raw : DataFrame) (log : CleanLog) (out : DataFrame) :
  required_columns (columns raw) = true ->
  clean_data raw = Ok (log, out) ->
  let d := drop_duplicates (columns raw) (rows raw) in
  let ports := dropna (map Embarked d) in
  ((exists r, In r d /\ Embarked r = None) ->
   exists m,
     In m ports /\
     (forall v, (count_str v ports <= count_str m ports)%nat) /\
     (forall v, In v ports -> count_str v ports = count_str m ports ->
                String.leb m v = true) /\
     Forall2 (fun r r' =>
                PassengerId r' = PassengerId r /\
                (Embarked r = None -> Embarked r' = Some m))
             d (rows out)) /\
  map Embarked (rows two_groups) = [Some "S"; Some "C"; None; Some "S"] /\
  (exists log2 out2,
     clean_data two_groups = Ok (log2, out2) /\
     map Embarked (rows out2) = [Some "S"; Some "C"; Some "S"; Some "S"]).
Proof.
  intros Hreq H d ports. split; [|split].
  - intros (r0 & Hr0 & Er0).
    destruct (clean_data_ok _ _ _ Hreq H) as (_ & _ & _ & Hmode).
    cbv zeta in Hmode. fold d in Hmode.
    destruct Hmode as [Hz|Hne].
    + exfalso. rewrite isnull_sum_zero in Hz. apply (Hz (Embarked r0)); [|assumption].
      now apply in_map.
    + destruct (mode (map Embarked d)) as [|m ms] eqn:Hm; [congruence |].
      destruct (mode_head _ _ _ Hm) as (Hin & Hmax & Hleast).
      exists m. do 3 (split; [assumption |]).
      apply (clean_data_rows raw log out _ Hreq H). fold d.
      intros r Hr. cbn [cleaned_row PassengerId Embarked].
      split; [reflexivity |]. intros ->. now rewrite Hm.
  - reflexivity.
  - do 2 eexists. split; vm_compute; reflexivity.
Qed.

Lemma clean_data_port_imputation_witness :
  exists log2 out2,
    clean_data two_groups = Ok (log2, out2) /\
    map Embarked (rows out2) = [Some "S"; Some "C"; Some "S"; Some "S"].
Proof.
  refine (proj2 (proj2 (clean_data_port_imputation two_groups (cleaned_log two_groups)
                          (cleaned_frame two_groups) _ _))).
  - reflexivity.
  - vm_compute. reflexivity.
Defined.

Lemma drop_duplicates_nonempty (cols : list string) (l : list Row) :
  l <> [] -> drop_duplicates cols l <> [].
Proof. destruct l; [congruence | discriminate]. Qed.

Lemma isnull_sum_all {A : Type} (s : list (option A)) :
  (forall x, In x s -> x = None) -> isnull_sum s = length s.
Proof.
  unfold isnull_sum. induction s as [|x s IH]; cbn; [reflexivity |].
  intros H. rewrite (H x (or_introl eq_refl)). cbn. f_equal.
  apply IH. intros y Hy. apply H. now right.
Qed.

(** ** Fares *)

Lemma fold_max_attained (l : list nat) :
  l <> [] -> In (fold_right Nat.max O l) l.
Proof.
  induction l as [|x l IH]; [congruence |]. intros _. cbn [fold_right].
  destruct l as [|y l].
  - cbn. left. lia.
  - specialize (IH ltac:(discriminate)).
    destruct (Nat.max_spec x (fold_right Nat.max O (y :: l))) as [(_ & ->)|(_ & ->)];
      [now right | now left].
Qed.

Lemma mode_nonempty (s : list (option string)) :
  (exists v, In (Some v) s) -> mode s <> [].
Proof.
  intros (v & Hv). rewrite mode_filter.
  set (vals := dropna s). set (u := unique_sorted vals).
  assert (Hu : u <> []).
  { intros E. assert (Hin : In v u) by now apply unique_sorted_In, dropna_In.
    rewrite E in Hin. contradiction. }
  assert (Hmax : In (fold_right Nat.max O (map (fun v => count_str v vals) u))
                    (map (fun v => count_str v vals) u)).
  { apply fold_max_attained. destruct u; [congruence | discriminate]. }
  apply in_map_iff in Hmax. destruct Hmax as (w & Hw & Hwu).
  intros E.
  assert (Hin : In w (filter (fun v => Nat.eqb (count_str v vals)
                     (fold_right Nat.max O (map (fun v => count_str v vals) u))) u)).
  { apply filter_In. split; [assumption | now apply Nat.eqb_eq]. }
  rewrite E in Hin. contradiction.
Qed.

Lemma row_eqb_port (cols : list string) (y x : Row) :
  required_columns cols = true -> row_eqb cols y x = true ->
  Embarked x <> None -> Embarked y <> None.
Proof.
  intros Hreq. apply required_columns_spec in Hreq.
  destruct Hreq as (_ & _ & _ & _ & _ & _ & _ & HE).
  unfold row_eqb. rewrite HE. cbn [implb]. rewrite !andb_true_iff.
  intros H. repeat match goal with H : _ /\ _ |- _ => destruct H end.
  destruct (Embarked y), (Embarked x); cbn in *; congruence.
Qed.

(** The quantiles of values that are all equal are that value. *)
Lemma quantile_constant (s : list Q) (f q v : Q) :
  s <> [] -> StronglySorted Qle s -> (forall a, In a s -> a == f) ->
  0 <= q -> q <= 1 -> quantile s q = Some v -> v == f.
Proof.
  intros Hne Hs Hall H0 H1 Hv.
  destruct (quantile_between s Hne Hs q H0 H1) as (x & w & Ex & Ew & Hxw & Hw).
  rewrite Hv in Ew. injection Ew as <-.
  assert (Hx : x == f) by (apply Hall; now apply nth_error_In in Ex).
  cbv zeta in Hw.
  destruct (nth_error s (S (Z.to_nat (Qfloor (q * inject_Z (Z.of_nat (length s - 1)))))))
    as [y|] eqn:Ey.
  - assert (Hy : y == f) by (apply Hall; now apply nth_error_In in Ey).
    apply Qle_antisym; lra.
  - lra.
Qed.

(** X5: when all records paid the same fare, the quartiles coincide and the
    cleaner does not complete: [qcut] raises [ValueError].  (A port has to be
    known for the cleaner to come that far.) *)
Theorem clean_data_same_fare (raw : DataFrame) (f : Q) :
  required_columns (columns raw) = true ->
  (exists r, In r (rows raw) /\ Embarked r <> None) ->
  (forall r, In r (rows raw) -> Fare r == f) ->
  clean_data raw = Raise (ValueError "Bin edges must be unique").
Proof.
  intros Hreq (r0 & Hr0 & Er0) Hall. rewrite (clean_data_eq raw Hreq). cbv zeta.
  set (d := drop_duplicates (columns raw) (rows raw)).
  assert (Hmode : mode (map Embarked d) <> []).
  { apply mode_nonempty.
    destruct (drop_duplicates_complete (columns raw) _ _ Hr0) as (y & Hy & Eyx).
    fold d in Hy.
    assert (Ey : Embarked y <> None) by now apply (row_eqb_port _ _ _ Hreq Eyx).
    destruct (Embarked y) as [p|] eqn:Ep; [|congruence].
    exists p. rewrite <- Ep. now apply in_map. }
  destruct (mode (map Embarked d)) as [|m ms]; [congruence |].
  rewrite andb_false_r.
  replace (has_duplicates (qcut_bins (map Fare d))) with true; [reflexivity |].
  symmetry.
  assert (Hd : d <> []).
  { apply drop_duplicates_nonempty. destruct (rows raw); [contradiction | discriminate]. }
  set (s := sort Qle_bool (map Fare d)).
  assert (Hs : StronglySorted Qle s) by apply sort_sorted.
  assert (Hsn : s <> []).
  { intros E. apply (f_equal (@length Q)) in E. unfold s in E.
    rewrite sort_length, length_map in E. destruct d; [congruence | discriminate]. }
  assert (Hsf : forall a, In a s -> a == f).
  { intros a Ha. apply sort_In in Ha. apply in_map_iff in Ha.
    destruct Ha as (r & <- & Hr). apply Hall. now apply drop_duplicates_In in Hr. }
  destruct (quantile_between s Hsn Hs 0 ltac:(lra) ltac:(lra)) as (_ & e0 & _ & E0 & _).
  destruct (quantile_between s Hsn Hs (1 # 4) ltac:(lra) ltac:(lra))
    as (_ & e1 & _ & E1 & _).
  pose proof (quantile_constant s f 0 e0 Hsn Hs Hsf ltac:(lra) ltac:(lra) E0) as H0.
  pose proof (quantile_constant s f (1 # 4) e1 Hsn Hs Hsf ltac:(lra) ltac:(lra) E1) as H1.
  unfold qcut_bins, quartiles. fold s. cbn [map]. rewrite E0, E1.
  cbn [has_duplicates existsb option_eqb].
  assert (E : Qeq_bool e0 e1 = true) by (apply Qeq_bool_iff; lra).
  now rewrite E.
Qed.

Lemma clean_data_same_fare_witness :
  clean_data same_fare = Raise (ValueError "Bin edges must be unique").
Proof.
  apply (clean_data_same_fare same_fare 8).
  - reflexivity.
  - eexists. split; [left; reflexivity | discriminate].
  - intros r [<-|[<-|[<-|[]]]]; reflexivity.
Defined.

(** The edges of [qcut], with the first and the last among the values. *)
Lemma qcut_bins_extremes (l : list Q) :
  has_duplicates (qcut_bins l) = false ->
  exists e0 e1 e2 e3 e4,
    qcut_bins l = [Some e0; Some e1; Some e2; Some e3; Some e4] /\
    e0 < e1 /\ e1 < e2 /\ e2 < e3 /\ e3 < e4 /\
    (forall a, In a l -> e0 <= a <= e4) /\
    (exists a, In a l /\ a == e0) /\ (exists a, In a l /\ a == e4).
Proof.
  intros Hdup.
  destruct (qcut_bins_spec l Hdup)
    as (e0 & e1 & e2 & e3 & e4 & Hbins & H01 & H12 & H23 & H34 & Hin).
  exists e0, e1, e2, e3, e4. do 6 (split; [assumption |]).
  assert (Hne : sort Qle_bool l <> []).
  { intros E. unfold qcut_bins in Hdup. rewrite E in Hdup. discriminate. }
  pose proof (sort_sorted l) as Hs.
  set (s := sort Qle_bool l) in *.
  assert (Hq : map (quantile s) quartiles =
               [Some e0; Some e1; Some e2; Some e3; Some e4]) by exact Hbins.
  cbn [map quartiles] in Hq. injection Hq as E0 _ _ _ E4.
  split.
  - destruct (quantile_between s Hne Hs 0 ltac:(lra) ltac:(lra))
      as (x & v & Ex & Ev & Hxv & _).
    rewrite E0 in Ev. injection Ev as <-.
    apply nth_error_In in Ex. exists x. split; [now apply (sort_In Qle_bool) |].
    apply Qle_antisym; [assumption |].
    apply Hin. now apply (sort_In Qle_bool).
  - destruct (quantile_between s Hne Hs 1 ltac:(lra) ltac:(lra))
      as (x & v & Ex & Ev & Hxv & Hv).
    rewrite E4 in Ev. injection Ev as <-. cbv zeta in Hv.
    destruct (nth_error s (S (Z.to_nat (Qfloor (1 * inject_Z (Z.of_nat (length s - 1)))))))
      as [y|] eqn:Ey.
    + apply nth_error_In in Ey. exists y. split; [now apply (sort_In Qle_bool) |].
      apply Qle_antisym; [| assumption].
      apply Hin. now apply (sort_In Qle_bool).
    + apply nth_error_In in Ex. exists x. split; [now apply (sort_In Qle_bool) |].
      now symmetry.
Qed.

(** The label of a fare that lies between the first and the last edge. *)
Lemma qcut_label_cases (e0 e1 e2 e3 e4 f : Q) :
  e0 < e1 -> e1 < e2 -> e2 < e3 -> e3 < e4 -> e0 <= f <= e4 ->
  let label := bins_to_cuts [e0; e1; e2; e3; e4] fare_labels true (Some f) in
  (f <= e1 /\ label = Some "Low") \/
  (e1 < f <= e2 /\ label = Some "Medium") \/
  (e2 < f <= e3 /\ label = Some "High") \/
  (e3 < f /\ label = Some "Very High").
Proof.
  intros H01 H12 H23 H34 Hf label.
  destruct (qcut_intervals e0 e1 e2 e3 e4 f H01 H12 H23 H34 Hf) as (L & M & H & V).
  fold label in L, M, H, V.
  destruct (Qlt_le_dec e1 f) as [G1|G1]; [|left; auto].
  destruct (Qlt_le_dec e2 f) as [G2|G2]; [|right; left; auto].
  destruct (Qlt_le_dec e3 f) as [G3|G3]; [|right; right; left; auto].
  right; right; right; auto.
Qed.

(** X6: when the cleaner completes, every record has a fare group; a
    record with the least fare is in Low, a record with the greatest fare in
    Very High, and of two records the one with the higher fare is never in a
    lower group. *)
Theorem clean_data_fare_group_order (raw : DataFrame) (log : CleanLog) (out : DataFrame) :
  required_columns (columns raw) = true ->
  clean_data raw = Ok (log, out) ->
  (forall r, In r (rows out) -> In (FareGroup r) (map Some fare_labels)) /\
  (forall r, In r (rows out) ->
     (forall x, In x (rows out) -> Fare r <= Fare x) -> FareGroup r = Some "Low") /\
  (forall r, In r (rows out) ->
     (forall x, In x (rows out) -> Fare x <= Fare r) ->
     FareGroup r = Some "Very High") /\
  (forall r1 r2, In r1 (rows out) -> In r2 (rows out) -> Fare r1 <= Fare r2 ->
     (fare_rank (FareGroup r1) <= fare_rank (FareGroup r2))%nat).
Proof.
  intros Hreq H.
  destruct (clean_data_ok _ _ _ Hreq H) as (_ & -> & Hdup & _). cbv zeta in Hdup.
  set (d := drop_duplicates (columns raw) (rows raw)) in *.
  destruct (qcut_bins_extremes _ Hdup)
    as (e0 & e1 & e2 & e3 & e4 & Hbins & H01 & H12 & H23 & H34 & Hin & Hmin & Hmax).
  assert (Hrow : forall r', In r' (rows (cleaned_frame raw)) ->
            In (Fare r') (map Fare d) /\
            FareGroup r' = bins_to_cuts [e0; e1; e2; e3; e4] fare_labels true
                             (Some (Fare r'))).
  { intros r' Hr'. unfold cleaned_frame in Hr'. cbn [rows] in Hr'. fold d in Hr'.
    apply in_map_iff in Hr'. destruct Hr' as (r & <- & Hr).
    cbn [cleaned_row Fare FareGroup]. rewrite Hbins. cbn [dropna].
    split; [now apply in_map | reflexivity]. }
  assert (Hfares : forall a, In a (map Fare d) ->
            exists r', In r' (rows (cleaned_frame raw)) /\ Fare r' = a).
  { intros a Ha. apply in_map_iff in Ha. destruct Ha as (r & <- & Hr).
    exists (cleaned_row (columns raw) d r). split; [|reflexivity].
    unfold cleaned_frame. cbn [rows]. fold d. now apply in_map. }
  assert (Hcase : forall r', In r' (rows (cleaned_frame raw)) ->
            (Fare r' <= e1 /\ FareGroup r' = Some "Low") \/
            (e1 < Fare r' <= e2 /\ FareGroup r' = Some "Medium") \/
            (e2 < Fare r' <= e3 /\ FareGroup r' = Some "High") \/
            (e3 < Fare r' /\ FareGroup r' = Some "Very High")).
  { intros r' Hr'. destruct (Hrow r' Hr') as (Hf & ->).
    apply qcut_label_cases; auto. }
  split; [|split; [|split]].
  - intros r Hr. destruct (Hcase r Hr) as [(_ & ->)|[(_ & ->)|[(_ & ->)|(_ & ->)]]];
      cbn; auto.
  - intros r Hr Hleast. destruct Hmin as (a & Ha & Ea).
    destruct (Hfares a Ha) as (x & Hx & <-). specialize (Hleast x Hx).
    destruct (Hcase r Hr) as [(_ & E)|[(G & _)|[(G & _)|(G & _)]]];
      [assumption | exfalso; lra ..].
  - intros r Hr Hmost. destruct Hmax as (a & Ha & Ea).
    destruct (Hfares a Ha) as (x & Hx & <-). specialize (Hmost x Hx).
    destruct (Hcase r Hr) as [(G & _)|[(G & _)|[(G & _)|(_ & E)]]];
      [exfalso; lra .. | assumption].
  - intros r1 r2 Hr1 Hr2 Hle.
    destruct (Hcase r1 Hr1) as [(G1 & ->)|[(G1 & ->)|[(G1 & ->)|(G1 & ->)]]];
      destruct (Hcase r2 Hr2) as [(G2 & ->)|[(G2 & ->)|[(G2 & ->)|(G2 & ->)]]];
      cbn; try lia; exfalso; lra.
Qed.

Lemma clean_data_fare_group_order_witness :
  let out := cleaned_frame six_passengers in
  (forall r, In r (rows out) -> In (FareGroup r) (map Some fare_labels)) /\
  (forall r, In r (rows out) ->
     (forall x, In x (rows out) -> Fare r <= Fare x) -> FareGroup r = Some "Low") /\
  (forall r, In r (rows out) ->
     (forall x, In x (rows out) -> Fare x <= Fare r) ->
     FareGroup r = Some "Very High") /\
  (forall r1 r2, In r1 (rows out) -> In r2 (rows out) -> Fare r1 <= Fare r2 ->
     (fare_rank (FareGroup r1) <= fare_rank (FareGroup r2))%nat).
Proof.
  apply (clean_data_fare_group_order six_passengers (cleaned_log six_passengers)).
  - reflexivity.
  - vm_compute. reflexivity.
Defined.

(** ** How the cleaner ends *)

(** X7: the cleaner ends in one of three ways.  It raises [KeyError] exactly
    when, after step 1, a port is missing and no port is known; otherwise it
    raises [ValueError] exactly when two of the five quartile edges of the
    fares coincide; otherwise it completes. *)
Theorem clean_data_outcomes (raw : DataFrame) :
  required_columns (columns raw) = true ->
  let d := drop_duplicates (columns raw) (rows raw) in
  let no_port := (exists r, In r d /\ Embarked r = None) /\
                 (forall r, In r d -> Embarked r = None) in
  let tied := has_duplicates (qcut_bins (map Fare d)) = true in
  (clean_data raw = Raise (KeyError "0") <-> no_port) /\
  (clean_data raw = Raise (ValueError "Bin edges must be unique") <->
   ~ no_port /\ tied) /\
  ((exists log out, clean_data raw = Ok (log, out)) <-> ~ no_port /\ ~ tied).
Proof.
  intros Hreq d no_port tied.
  assert (Hport : (0 <? isnull_sum (map Embarked d))%nat &&
                  match mode (map Embarked d) with [] => true | _ :: _ => false end = true
                  <-> no_port).
  { rewrite andb_true_iff, Nat.ltb_lt. unfold no_port. split.
    - intros (Hn & Hm). split.
      + destruct (isnull_sum (map Embarked d)) eqn:E; [lia |].
        assert (Hnz : ~ (forall x, In x (map Embarked d) -> x <> None))
          by (rewrite <- isnull_sum_zero; lia).
        destruct (existsb (fun r => match Embarked r with None => true | _ => false end) d)
          eqn:Ex.
        * apply existsb_exists in Ex. destruct Ex as (r & Hr & Er).
          exists r. split; [assumption |]. now destruct (Embarked r).
        * exfalso. apply Hnz. intros x Hx Ex0. subst x.
          apply in_map_iff in Hx. destruct Hx as (r & Er & Hr).
          assert (Ht : existsb (fun r => match Embarked r with None => true | _ => false end) d
                       = true).
          { apply existsb_exists. exists r. split; [assumption |]. now rewrite Er. }
          congruence.
      + intros r Hr. destruct (Embarked r) as [p|] eqn:Ep; [|reflexivity].
        exfalso. destruct (mode (map Embarked d)) eqn:Em; [|discriminate].
        apply (mode_nonempty (map Embarked d)); [|assumption].
        exists p. rewrite <- Ep. now apply in_map.
    - intros ((r & Hr & Er) & Hall). split.
      + rewrite isnull_sum_all, length_map.
        * destruct d; [contradiction | cbn; lia].
        * intros x Hx. apply in_map_iff in Hx. destruct Hx as (y & <- & Hy). auto.
      + unfold mode, value_counts.
        replace (dropna (map Embarked d)) with (@nil string); [reflexivity |].
        symmetry. apply dropna_nil_iff. intros x Hx.
        apply in_map_iff in Hx. destruct Hx as (y & <- & Hy). auto. }
  rewrite (clean_data_eq raw Hreq). cbv zeta. fold d. unfold tied.
  destruct ((0 <? isnull_sum (map Embarked d))%nat &&
            match mode (map Embarked d) with [] => true | _ :: _ => false end) eqn:Ep.
  - assert (Hnp : no_port) by now apply Hport.
    split; [tauto |]. split.
    + split; [discriminate | tauto].
    + split; [intros (l & o & E); discriminate | tauto].
  - assert (Hnp : ~ no_port) by (rewrite <- Hport; congruence).
    destruct (has_duplicates (qcut_bins (map Fare d))) eqn:Ed.
    + split; [split; [discriminate | tauto] |]. split; [tauto |].
      split; [intros (l & o & E); discriminate | intros (_ & Hc); congruence].
    + split; [split; [discriminate | tauto] |]. split.
      * split; [discriminate | intros (_ & Hc); discriminate].
      * split; [intros _; split; [assumption | discriminate] | eauto].
Qed.

Lemma clean_data_outcomes_witness :
  exists log out, clean_data two_groups = Ok (log, out).
Proof.
  pose proof (clean_data_outcomes two_groups eq_refl) as (_ & _ & H).
  apply H. split.
  - intros (_ & Hall). specialize (Hall _ (or_introl eq_refl)). discriminate.
  - vm_compute. discriminate.
Defined.

(** ** Imputed ages *)

(** A median lies between two of the values. *)
Lemma median_between (xs : list Q) (m : Q) :
  median xs = Some m ->
  exists a b, In a xs /\ In b xs /\ a <= m <= b.
Proof.
  unfold median. pose proof (sort_sorted xs) as Hs.
  set (s := sort Qle_bool xs) in *.
  assert (Hin : forall i a, nth_error s i = Some a -> In a xs).
  { intros i a Ha. apply nth_error_In in Ha.
    exact (proj1 (sort_In Qle_bool a xs) Ha). }
  destruct (length s) as [|n] eqn:En; [discriminate |].
  destruct (Nat.odd (S n)).
  - intros Hm. exists m, m. repeat split; eauto; apply Qle_refl.
  - destruct (nth_error s (S n / 2 - 1)) as [a|] eqn:Ea; [|discriminate].
    destruct (nth_error s (S n / 2)) as [b|] eqn:Eb; [|discriminate].
    intros Hm. exists a, b.
    assert (Hab : a <= b) by (apply (sorted_nth_le s (S n / 2 - 1) (S n / 2)); auto; lia).
    split; [eauto |]. split; [eauto |].
    assert (E : Qred ((a + b) / 2) = m) by congruence.
    pose proof (Qred_correct ((a + b) / 2)) as Hr. rewrite E in Hr.
    assert (Hmid : a <= (a + b) / 2 /\ (a + b) / 2 <= b).
    { split; [apply Qle_shift_div_l | apply Qle_shift_div_r]; lra. }
    destruct Hmid as (Hm1 & Hm2). split.
    + apply Qle_trans with ((a + b) / 2); [assumption |].
      apply Qle_lteq. right. now symmetry.
    + apply Qle_trans with ((a + b) / 2); [| assumption].
      apply Qle_lteq. now right.
Qed.

(** X8: an age that the cleaner fills in lies between two known ages of
    records of the same class and sex. *)
Theorem clean_data_imputed_age_range (raw : DataFrame) (log : CleanLog) (out : DataFrame) :
  required_columns (columns raw) = true ->
  clean_data raw = Ok (log, out) ->
  let d := drop_duplicates (columns raw) (rows raw) in
  Forall2 (fun r r' =>
             PassengerId r' = PassengerId r /\
             forall m, Age r = None -> Age r' = Some m ->
               exists x y a b,
                 In x d /\ In y d /\ same_group r x = true /\ same_group r y = true /\
                 Age x = Some a /\ Age y = Some b /\ a <= m <= b)
          d (rows out).
Proof.
  intros Hreq H d. apply (clean_data_rows raw log out _ Hreq H). fold d.
  intros r Hr. cbn [cleaned_row PassengerId Age]. split; [reflexivity |].
  intros m -> Hm. cbn [fillna] in Hm. unfold age_median in Hm.
  destruct (median_between _ _ Hm) as (a & b & Ha & Hb & Hab).
  apply dropna_In, in_map_iff in Ha. destruct Ha as (x & Ex & Hx).
  apply dropna_In, in_map_iff in Hb. destruct Hb as (y & Ey & Hy).
  apply filter_In in Hx. apply filter_In in Hy.
  exists x, y, a, b. tauto.
Qed.

Lemma clean_data_imputed_age_range_witness :
  let d := drop_duplicates (columns two_groups) (rows two_groups) in
  Forall2 (fun r r' =>
             PassengerId r' = PassengerId r /\
             forall m, Age r = None -> Age r' = Some m ->
               exists x y a b,
                 In x d /\ In y d /\ same_group r x = true /\ same_group r y = true /\
                 Age x = Some a /\ Age y = Some b /\ a <= m <= b)
          d (rows (cleaned_frame two_groups)).
Proof.
  apply (clean_data_imputed_age_range two_groups (cleaned_log two_groups)).
  - reflexivity.
  - vm_compute. reflexivity.
Defined.

(** ** The header of the cleaned frame *)

Lemma assign_column_absent (c : string) (cols : list string) :
  in_columns c cols = false -> assign_column c cols = (cols ++ [c])%list.
Proof. unfold assign_column. now intros ->. Qed.

(** X9: on a frame that has none of the five derived columns yet, the
    cleaner keeps the columns in their order, removes the cabin column when it
    reports it as dropped, and appends FamilySize, IsAlone, Title, AgeGroup
    and FareGroup. *)
Theorem clean_data_columns (raw : DataFrame) (log : CleanLog) (out : DataFrame) :
  required_columns (columns raw) = true ->
  (forall c, In c ["FamilySize"; "IsAlone"; "Title"; "AgeGroup"; "FareGroup"] ->
             in_columns c (columns raw) = false) ->
  clean_data raw = Ok (log, out) ->
  columns out =
    ((if cabin_dropped log then drop_column "Cabin" (columns raw) else columns raw)
     ++ ["FamilySize"; "IsAlone"; "Title"; "AgeGroup"; "FareGroup"])%list.
Proof.
  intros Hreq Hnew H. destruct (clean_data_ok _ _ _ Hreq H) as (-> & -> & _).
  unfold cleaned_log, cleaned_frame, cleaned_columns. cbn [columns cabin_dropped].
  set (base := if cabin_is_dropped _ _ then _ else _).
  assert (Hbase : forall c, In c ["FamilySize"; "IsAlone"; "Title"; "AgeGroup"; "FareGroup"] ->
                            in_columns c base = false).
  { intros c Hc. subst base. destruct (cabin_is_dropped _ _); [|auto].
    rewrite in_columns_drop, (Hnew c Hc). apply andb_false_r. }
  rewrite (assign_column_absent "FamilySize") by (apply Hbase; cbn; auto).
  rewrite (assign_column_absent "IsAlone")
    by (rewrite in_columns_app, Hbase by (cbn; auto); reflexivity).
  rewrite (assign_column_absent "Title")
    by (rewrite !in_columns_app, Hbase by (cbn; auto); reflexivity).
  rewrite (assign_column_absent "AgeGroup")
    by (rewrite !in_columns_app, Hbase by (cbn; auto); reflexivity).
  rewrite (assign_column_absent "FareGroup")
    by (rewrite !in_columns_app, Hbase by (cbn; auto 6); reflexivity).
  now rewrite <- !app_assoc.
Qed.

Lemma clean_data_columns_witness :
  columns (cleaned_frame fifteen_passengers) =
  ["PassengerId"; "Survived"; "Pclass"; "Name"; "Sex"; "Age"; "SibSp"; "Parch";
   "Fare"; "Embarked"; "FamilySize"; "IsAlone"; "Title"; "AgeGroup"; "FareGroup"].
Proof.
  rewrite (clean_data_columns fifteen_passengers (cleaned_log fifteen_passengers)
             (cleaned_frame fifteen_passengers)).
  - vm_compute. reflexivity.
  - reflexivity.
  - intros c [<-|[<-|[<-|[<-|[<-|[]]]]]]; reflexivity.
  - vm_compute. reflexivity.
Defined.

(** ** Titles after the grouping *)

Lemma filter_map_length_le {A B : Type} (f : A -> bool) (g : B -> bool)
    (h : A -> B) (l : list A) :
  (forall a, In a l -> f a = true -> g (h a) = true) ->
  (length (filter f l) <= length (filter g (map h l)))%nat.
Proof.
  induction l as [|a l IH]; cbn; [lia |]. intros H.
  assert (IH' : (length (filter f l) <= length (filter g (map h l)))%nat)
    by (apply IH; intros x Hx; apply H; now right).
  destruct (f a) eqn:Ef.
  - rewrite (H a (or_introl eq_refl) Ef). cbn. lia.
  - destruct (g (h a)); cbn; lia.
Qed.

(** X10: in the cleaned record set every title other than "Rare" is the
    title of at least 10 records. *)
Theorem clean_data_titles_frequent (raw : DataFrame) (log : CleanLog) (out : DataFrame) :
  required_columns (columns raw) = true ->
  clean_data raw = Ok (log, out) ->
  forall r t, In r (rows out) -> Title r = Some t -> t <> "Rare" ->
    (10 <= length (filter (fun x => option_eqb String.eqb (Title x) (Some t))
                          (rows out)))%nat.
Proof.
  intros Hreq H r' t Hr' Ht Hrare.
  destruct (clean_data_ok _ _ _ Hreq H) as (_ & -> & _).
  unfold cleaned_frame in *. cbn [rows] in *.
  set (d := drop_duplicates (columns raw) (rows raw)) in *.
  set (titles := map (fun x => extract_title (Name x)) d).
  apply in_map_iff in Hr'. destruct Hr' as (r & <- & Hr).
  cbn [cleaned_row Title] in Ht. fold titles in Ht.
  destruct (extract_title (Name r)) as [t0|] eqn:Et; [|discriminate].
  assert (Hin : In (Some t0) titles)
    by (rewrite <- Et; apply (in_map (fun x => extract_title (Name x))); exact Hr).
  destruct (replace_rare titles t0 Hin) as (Hlt & Hge).
  destruct (Nat.lt_ge_cases (count_str t0 (dropna titles)) 10) as [Hc|Hc].
  - rewrite (Hlt Hc) in Ht. congruence.
  - pose proof (Hge Hc) as Hkeep. rewrite Hkeep in Ht. injection Ht as <-.
    unfold titles in Hc. rewrite count_str_dropna_map in Hc.
    eapply Nat.le_trans; [exact Hc |].
    apply filter_map_length_le. intros x Hx Ex.
    cbn [cleaned_row Title]. fold titles.
    destruct (extract_title (Name x)) as [tx|] eqn:Etx; [|discriminate].
    cbn in Ex. apply String.eqb_eq in Ex. subst tx.
    rewrite Hkeep. cbn. apply String.eqb_refl.
Qed.

Lemma clean_data_titles_frequent_witness :
  (10 <= length (filter (fun x => option_eqb String.eqb (Title x) (Some "Mr"))
                        (rows (cleaned_frame fifteen_passengers))))%nat.
Proof.
  eapply (clean_data_titles_frequent fifteen_passengers (cleaned_log fifteen_passengers)).
  - reflexivity.
  - vm_compute. reflexivity.
  - vm_compute. left. reflexivity.
  - reflexivity.
  - discriminate.
Defined.

(** ** The tables of the aggregator *)

Lemma Category_eqb_eq (a b : Category) : Category_eqb a b = true <-> a = b.
Proof.
  destruct a, b; cbn; try (split; [discriminate | congruence]).
  - rewrite Z.eqb_eq. split; congruence.
  - rewrite String.eqb_eq. split; congruence.
Qed.

Lemma insert_sorted_NoDup {A : Type} (leb : A -> A -> bool) (x : A) (l : list A) :
  ~ In x l -> NoDup l -> NoDup (insert_sorted leb x l).
Proof.
  intros Hx Hl. induction Hl as [|y l Hy Hl IH]; cbn.
  - constructor; [tauto | constructor].
  - destruct (leb x y).
    + constructor; [assumption | now constructor].
    + constructor.
      * rewrite insert_sorted_In. cbn in Hx. intros [->|Hc]; tauto.
      * apply IH. cbn in Hx. tauto.
Qed.

Lemma sort_NoDup {A : Type} (leb : A -> A -> bool) (l : list A) :
  NoDup l -> NoDup (sort leb l).
Proof.
  induction 1 as [|x l Hx Hl IH]; cbn; [constructor |]. fold (sort leb l).
  apply insert_sorted_NoDup; [now rewrite sort_In | exact IH].
Qed.

Lemma map_NoDup {A B : Type} (f : A -> B) (l : list A) :
  (forall a b, f a = f b -> a = b) -> NoDup l -> NoDup (map f l).
Proof.
  intros Hf. induction 1 as [|x l Hx Hl IH]; cbn; constructor; [|exact IH].
  intros Hc. apply in_map_iff in Hc. destruct Hc as (y & Ey & Hy).
  apply Hf in Ey. now subst y.
Qed.

(** No category is listed twice. *)
Lemma categories_NoDup (feature : string) (l : list Row) :
  NoDup (categories feature l).
Proof.
  unfold categories.
  destruct (feature =? "AgeGroup").
  { cbn. repeat constructor; cbn; intuition discriminate. }
  destruct (feature =? "Pclass").
  { apply map_NoDup; [congruence |]. apply sort_NoDup, NoDup_nodup. }
  destruct (feature =? "Sex").
  { apply map_NoDup; [congruence |]. apply sort_NoDup, NoDup_nodup. }
  destruct (feature =? "Embarked").
  { apply map_NoDup; [congruence |]. apply sort_NoDup, NoDup_nodup. }
  destruct (feature =? "Title").
  { apply map_NoDup; [congruence |]. apply sort_NoDup, NoDup_nodup. }
  constructor.
Qed.

Lemma list_sum_cons (a : nat) (l : list nat) :
  list_sum (a :: l) = (a + list_sum l)%nat.
Proof. reflexivity. Qed.

Lemma list_sum_absent (cats : list Category) :
  list_sum (map (fun _ : Category => O) cats) = O.
Proof.
  induction cats as [|c cats IH]; [reflexivity |].
  cbn [map]. now rewrite list_sum_cons, IH.
Qed.

Lemma list_sum_indicator_absent (cats : list Category) (k : Category) :
  ~ In k cats ->
  list_sum (map (fun c => if Category_eqb k c then 1 else 0)%nat cats) = O.
Proof.
  induction cats as [|c cats IH]; intros Hk; [reflexivity |].
  cbn [map]. rewrite list_sum_cons, IH by (intros Hin; apply Hk; now right).
  destruct (Category_eqb k c) eqn:E; [|reflexivity].
  apply Category_eqb_eq in E. subst c. exfalso. apply Hk. now left.
Qed.

Lemma list_sum_indicator (cats : list Category) (k : Category) :
  NoDup cats -> In k cats ->
  list_sum (map (fun c => if Category_eqb k c then 1 else 0)%nat cats) = 1%nat.
Proof.
  induction 1 as [|c cats Hc Hn IH]; [intros [] |].
  cbn [In map]. rewrite list_sum_cons. intros [->|Hk].
  - rewrite Category_eqb_refl, list_sum_indicator_absent by assumption. reflexivity.
  - destruct (Category_eqb k c) eqn:E.
    + apply Category_eqb_eq in E. subst c. contradiction.
    + now rewrite IH.
Qed.

Lemma list_sum_map_add {A : Type} (f g : A -> nat) (l : list A) :
  list_sum (map (fun a => f a + g a)%nat l) =
  (list_sum (map f l) + list_sum (map g l))%nat.
Proof.
  induction l as [|a l IH]; [reflexivity |].
  cbn [map]. rewrite !list_sum_cons, IH. lia.
Qed.

(** The groups of a list of rows share out the rows that have a key. *)
Lemma group_rows_partition (feature : string) (cats : list Category) (l : list Row) :
  NoDup cats ->
  (forall r c, In r l -> feature_key feature r = Some c -> In c cats) ->
  list_sum (map (fun c => length (group_rows feature c l)) cats) =
  length (filter (fun r => match feature_key feature r with
                           | Some _ => true
                           | None => false
                           end) l).
Proof.
  intros Hn. induction l as [|r l IH]; intros Hcov.
  - apply list_sum_absent.
  - assert (IH' := IH (fun r0 c H => Hcov r0 c (or_intror H))).
    unfold group_rows in *. cbn [filter].
    rewrite (map_ext _ (fun c =>
               (if option_eqb Category_eqb (feature_key feature r) (Some c) then 1 else 0) +
               length (filter (fun r0 => option_eqb Category_eqb
                                           (feature_key feature r0) (Some c)) l))%nat)
      by (intros c; destruct (option_eqb _ _ _); reflexivity).
    rewrite list_sum_map_add, IH'.
    destruct (feature_key feature r) as [k|] eqn:Ek; cbn [option_eqb length].
    + rewrite list_sum_indicator; [reflexivity | assumption |].
      apply (Hcov r k); [now left | assumption].
    + now rewrite list_sum_absent.
Qed.

Lemma rate_range (a b : Z) :
  (0 <= a <= b)%Z -> (0 < b)%Z ->
  0 <= inject_Z a / inject_Z b * 100 <= 100.
Proof.
  intros Ha Hb.
  assert (Hb' : 0 < inject_Z b) by (change 0 with (inject_Z 0); now rewrite <- Zlt_Qlt).
  assert (Ha0 : 0 <= inject_Z a) by (change 0 with (inject_Z 0); rewrite <- Zle_Qle; lia).
  assert (Hab : inject_Z a <= inject_Z b) by (rewrite <- Zle_Qle; lia).
  assert (H0 : 0 <= inject_Z a / inject_Z b) by (apply Qle_shift_div_l; lra).
  assert (H1 : inject_Z a / inject_Z b <= 1) by (apply Qle_shift_div_r; lra).
  split; lra.
Qed.

(** X11: in every table of the aggregator, on a cleaned record set with
    flags 0 and 1, the survivors of a category are at most its records and
    its rate, when defined, lies between 0 and 100. *)
Theorem survival_rate_range (raw : DataFrame) (log : CleanLog)
    (df_clean : DataFrame) (feature : string) :
  required_columns (columns raw) = true ->
  (forall r, In r (rows raw) -> Survived r = 0 \/ Survived r = 1)%Z ->
  (Z.of_nat (length (rows raw)) < 2 ^ 63)%Z ->
  clean_data raw = Ok (log, df_clean) ->
  forall c sr, In (c, sr) (survival_by_feature feature (rows df_clean)) ->
    (0 <= Survived_Count sr <= Z.of_nat (Total sr))%Z /\
    forall rate, Survival_Rate sr = Some rate -> 0 <= rate <= 100.
Proof.
  intros Hreq Hflags Hlen H c sr Hin.
  destruct (clean_data_ok _ _ _ Hreq H) as (_ & Hout & _).
  unfold survival_by_feature in Hin. apply in_map_iff in Hin.
  destruct Hin as (c' & [= -> <-] & _).
  set (group := group_rows feature c (rows df_clean)).
  assert (Hsub : forall r, In r group -> In r (rows df_clean))
    by (intros r Hr; now apply filter_In in Hr).
  assert (Hgl : (length group <= length (rows df_clean))%nat) by apply filter_length_le.
  assert (Hcl : (length (rows df_clean) <= length (rows raw))%nat)
    by (rewrite Hout; apply cleaned_frame_length).
  assert (Hf : forall r, In r group -> (Survived r = 0 \/ Survived r = 1)%Z).
  { intros r Hr. apply Hsub in Hr. rewrite Hout in Hr. apply cleaned_frame_In in Hr.
    destruct Hr as (r0 & Hr0 & ->). cbn [cleaned_row Survived]. now apply Hflags. }
  destruct (aggregate_spec group Hf ltac:(lia)) as (Ht & Hc & Hnone & Hsome).
  pose proof (filter_length_le (fun x => (Survived x =? 1)%Z) group) as Hs.
  rewrite Ht, Hc. split; [lia |].
  intros rate Hrate. destruct group as [|r g] eqn:Eg.
  - rewrite (Hnone eq_refl) in Hrate. discriminate.
  - destruct (Hsome ltac:(discriminate)) as (rate' & Er & Hr).
    rewrite Er in Hrate. injection Hrate as <-. rewrite Hr.
    apply rate_range; cbn [length] in *; lia.
Qed.

Lemma survival_rate_range_witness :
  (0 <= 2 <= Z.of_nat 3)%Z /\
  forall rate, Some (200 # 3) = Some rate -> 0 <= rate <= 100.
Proof.
  apply (survival_rate_range six_passengers (cleaned_log six_passengers)
           (cleaned_frame six_passengers) "Sex")
    with (c := CatStr "female") (sr := mkSurvivalRow 3 2 (Some (200 # 3))).
  - reflexivity.
  - intros r [<-|[<-|[<-|[<-|[<-|[<-|[]]]]]]]; cbn; auto.
  - cbn. lia.
  - vm_compute. reflexivity.
  - vm_compute. left. reflexivity.
Defined.

(** X12: the totals of a table add up to the records whose value of the
    feature is not missing: no record is counted twice and none with a value
    is left out.  For sex, class and port these are all the records. *)
Theorem survival_totals_partition (raw : DataFrame) (log : CleanLog)
    (df_clean : DataFrame) (feature : string) :
  required_columns (columns raw) = true ->
  clean_data raw = Ok (log, df_clean) ->
  In feature categorical_features ->
  let table := survival_by_feature feature (rows df_clean) in
  list_sum (map (fun p => Total (snd p)) table) =
    length (filter (fun r => match feature_key feature r with
                             | Some _ => true
                             | None => false
                             end) (rows df_clean)) /\
  (In feature ["Sex"; "Pclass"; "Embarked"] ->
   list_sum (map (fun p => Total (snd p)) table) = length (rows df_clean)).
Proof.
  intros Hreq H Hf table.
  assert (Hsum : list_sum (map (fun p => Total (snd p)) table) =
                 length (filter (fun r => match feature_key feature r with
                                          | Some _ => true
                                          | None => false
                                          end) (rows df_clean))).
  { unfold table, survival_by_feature. rewrite map_map. cbn [snd].
    rewrite (map_ext _ (fun c => length (group_rows feature c (rows df_clean))))
      by (intros c; unfold aggregate; cbn [Total]; apply length_map).
    apply group_rows_partition; [apply categories_NoDup |].
    intros r c Hr Hk. destruct (clean_data_ok _ _ _ Hreq H) as (_ & Hout & _).
    rewrite Hout in Hr |- *. now apply feature_key_category with r. }
  split; [exact Hsum |].
  intros Hfull. rewrite Hsum. f_equal.
  apply forallb_filter_id. apply forallb_forall. intros r Hr.
  destruct (clean_data_ok _ _ _ Hreq H) as (_ & Hout & _ & Hmode).
  cbn in Hfull. destruct Hfull as [<-|[<-|[<-|[]]]]; [reflexivity | reflexivity |].
  assert (He : Embarked r <> None).
  { rewrite Hout in Hr. unfold cleaned_frame in Hr. cbn [rows] in Hr.
    apply in_map_iff in Hr. destruct Hr as (r0 & <- & Hr0).
    cbn [cleaned_row Embarked]. cbv zeta in Hmode. destruct Hmode as [Hz|Hm].
    - rewrite isnull_sum_zero in Hz. rewrite fillna_known; apply Hz; now apply in_map.
    - destruct (mode _); [congruence |]. cbn. destruct (Embarked r0); discriminate. }
  cbn. destruct (Embarked r); [reflexivity | congruence].
Qed.

Lemma survival_totals_partition_witness :
  list_sum (map (fun p => Total (snd p))
                (survival_by_feature "AgeGroup" (rows (cleaned_frame newborn)))) =
  length (filter (fun r => match feature_key "AgeGroup" r with
                           | Some _ => true
                           | None => false
                           end) (rows (cleaned_frame newborn))).
Proof.
  refine (proj1 (survival_totals_partition newborn (cleaned_log newborn)
                   (cleaned_frame newborn) "AgeGroup" _ _ _)).
  - reflexivity.
  - vm_compute. reflexivity.
  - cbn. auto.
Defined.

Lemma analyze_cleaned_frame (raw : DataFrame) (log : CleanLog)
    (df_clean : DataFrame) :
  required_columns (columns raw) = true ->
  in_columns "Survived" (columns raw) = true ->
  clean_data raw = Ok (log, df_clean) ->
  analyze_survival_patterns df_clean =
  Ok (map (fun feature => (feature, survival_by_feature feature (rows df_clean)))
          ["Sex"; "Pclass"; "Embarked"; "AgeGroup"; "Title"]).
Proof.
  intros Hreq Hsurv H.
  destruct (clean_data_ok _ _ _ Hreq H) as (_ & Hout & _).
  assert (Hcol : forall f, In f categorical_features ->
                           in_columns f (columns df_clean) = true).
  { intros f Hf. rewrite Hout. unfold cleaned_frame. cbn [columns].
    now apply feature_in_cleaned_columns. }
  unfold analyze_survival_patterns.
  replace (in_columns "Survived" (columns df_clean)) with true.
  - unfold categorical_features in *. cbn [flat_map map app].
    rewrite !Hcol by (cbn; auto 6). reflexivity.
  - symmetry. rewrite Hout. unfold cleaned_frame. cbn [columns].
    rewrite in_columns_cleaned, Hsurv. cbn. now rewrite andb_false_r.
Qed.

(** X13: on a cleaned record set that has the survival flag, the aggregator
    returns exactly five tables, for sex, class, port, age group and title, in
    this order. *)
Theorem analyze_survival_patterns_tables (raw : DataFrame) (log : CleanLog)
    (df_clean : DataFrame) :
  required_columns (columns raw) = true ->
  in_columns "Survived" (columns raw) = true ->
  clean_data raw = Ok (log, df_clean) ->
  analyze_survival_patterns df_clean =
  Ok (map (fun feature => (feature, survival_by_feature feature (rows df_clean)))
          ["Sex"; "Pclass"; "Embarked"; "AgeGroup"; "Title"]).
Proof. apply analyze_cleaned_frame. Qed.

Lemma analyze_survival_patterns_tables_witness :
  analyze_survival_patterns (cleaned_frame six_passengers) =
  Ok (map (fun feature =>
             (feature, survival_by_feature feature (rows (cleaned_frame six_passengers))))
          ["Sex"; "Pclass"; "Embarked"; "AgeGroup"; "Title"]).
Proof.
  apply (analyze_survival_patterns_tables six_passengers (cleaned_log six_passengers)).
  - reflexivity.
  - reflexivity.
  - vm_compute. reflexivity.
Defined.

(** ** The workflow object *)











(** ** The insight summarizer *)

Lemma getitem_map (f : Category -> option Q) (cats : list Category)
    (k : Category) (name : string) :
  (In k cats -> getitem (map (fun c => (c, f c)) cats) k name = Ok (f k)) /\
  (~ In k cats -> getitem (map (fun c => (c, f c)) cats) k name = Raise (KeyError name)).
Proof.
  induction cats as [|c cats (IH1 & IH2)]; cbn [map getitem In].
  - split; [tauto | reflexivity].
  - destruct (Category_eqb c k) eqn:E.
    + apply Category_eqb_eq in E. subst c. split; [reflexivity | tauto].
    + assert (c <> k) by (intros ->; rewrite Category_eqb_refl in E; discriminate).
      split; [intros [Hc|Hk]; [contradiction | auto] | intros Hn; apply IH2; tauto].
Qed.

Lemma get_map (f : Category -> option Q) (cats : list Category)
    (k : Category) (default : option Q) :
  In k cats -> get (map (fun c => (c, f c)) cats) k default = f k.
Proof.
  induction cats as [|c cats IH]; cbn [map get In]; [tauto |].
  destruct (Category_eqb c k) eqn:E.
  - apply Category_eqb_eq in E. now subst c.
  - intros [->|Hk]; [rewrite Category_eqb_refl in E; discriminate | auto].
Qed.

Lemma class_category (l : list Row) (z : Z) :
  In (CatInt z) (categories "Pclass" l) <-> exists r, In r l /\ Pclass r = z.
Proof.
  cbn. rewrite in_map_iff. split.
  - intros (x & [= ->] & Hx). apply sort_In, nodup_In, in_map_iff in Hx.
    destruct Hx as (r & <- & Hr). eauto.
  - intros (r & Hr & <-). exists (Pclass r). split; [reflexivity |].
    apply sort_In, nodup_In. now apply in_map.
Qed.

Lemma filter_ext_length {A : Type} (f g : A -> bool) (l : list A) :
  (forall a, f a = g a) -> filter f l = filter g l.
Proof. intros H. apply filter_ext. exact H. Qed.

(** The rate that an insight shows for a group is the rate of that group in
    the table of the aggregator. *)
Lemma survival_rate_by_table (feature : string) (l : list Row) :
  survival_rate_by feature l =
  map (fun p => (fst p, Survival_Rate (snd p))) (survival_by_feature feature l).
Proof.
  unfold survival_rate_by, survival_by_feature. rewrite map_map. reflexivity.
Qed.

(** What [insight_values] computes on a frame that has the columns of a
    cleaned frame. *)
Lemma insight_values_eq (df : DataFrame) :
  (forall c, In c ["Sex"; "Survived"; "Pclass"; "AgeGroup"; "IsAlone"; "Fare"; "Age"] ->
             in_columns c (columns df) = true) ->
  let l := rows df in
  let child_survival :=
    scale100 (mean (map Survived (group_rows "AgeGroup" (CatStr "Child") l))) in
  insight_values df =
  first_class <- getitem (survival_rate_by "Pclass" l) (CatInt 1) "1" ;;
  third_class <- getitem (survival_rate_by "Pclass" l) (CatInt 3) "3" ;;
  Ok ([GenderInsight (survival_of (fun r => Sex r =? "female") l)
                     (survival_of (fun r => Sex r =? "male") l);
       ClassInsight first_class third_class]
      ++ (if float_gt child_survival (Some 0) then [ChildInsight child_survival] else [])
      ++ [FamilyInsight (survival_of (fun r => (IsAlone r =? 0)%Z) l)
                        (survival_of (fun r => (IsAlone r =? 1)%Z) l);
          FareInsight
            (survival_of (fun r => float_gt (Some (Fare r)) (median (map Fare l))) l)
            (survival_of (fun r => float_le (Some (Fare r)) (median (map Fare l))) l)])%list.
Proof.
  intros Hcols l child_survival. unfold insight_values. fold l.
  rewrite !Hcols by (cbn; auto 8). cbn [negb].
  replace (get (survival_rate_by "AgeGroup" l) (CatStr "Child") (Some 0))
    with child_survival; [reflexivity |].
  unfold survival_rate_by. rewrite get_map; [reflexivity |].
  cbn. auto.
Qed.

Lemma cleaned_insight_columns (raw : DataFrame) (c : string) :
  required_columns (columns raw) = true ->
  in_columns "Survived" (columns raw) = true ->
  In c ["Sex"; "Survived"; "Pclass"; "AgeGroup"; "IsAlone"; "Fare"; "Age"] ->
  in_columns c (columns (cleaned_frame raw)) = true.
Proof.
  intros Hreq Hsurv Hc. apply required_columns_spec in Hreq.
  destruct Hreq as (HP & HN & HS & HA & HSi & HPa & HF & HE).
  unfold cleaned_frame. cbn [columns]. rewrite in_columns_cleaned.
  cbn in Hc. destruct Hc as [<-|[<-|[<-|[<-|[<-|[<-|[<-|[]]]]]]]];
    rewrite ?HS, ?Hsurv, ?HP, ?HF, ?HA; cbn; now rewrite ?andb_false_r.
Qed.

(** X15: on a cleaned record set with the survival flag, the summarizer
    raises [KeyError] when no record is first class, and when no record is
    third class; otherwise it returns the insights on gender and class, the
    one on children if its rate is above 0, and the insights on family and
    fare, in this order: four or five insights. *)
Theorem generate_insights_outcome (raw : DataFrame) (log : CleanLog) (df_clean : DataFrame) :
  required_columns (columns raw) = true ->
  in_columns "Survived" (columns raw) = true ->
  clean_data raw = Ok (log, df_clean) ->
  let has_class z := exists r, In r (rows df_clean) /\ Pclass r = z in
  (~ has_class 1%Z -> insight_values df_clean = Raise (KeyError "1")) /\
  (has_class 1%Z -> ~ has_class 3%Z ->
   insight_values df_clean = Raise (KeyError "3")) /\
  (has_class 1%Z -> has_class 3%Z ->
   exists gender class family fare children,
     insight_values df_clean =
       Ok ([gender; class] ++ children ++ [family; fare])%list /\
     (exists f m, gender = GenderInsight f m) /\
     (exists a b, class = ClassInsight a b) /\
     (exists a b, family = FamilyInsight a b) /\
     (exists a b, fare = FareInsight a b) /\
     (children = [] \/ exists x, children = [ChildInsight (Some x)] /\ 0 < x)).
Proof.
  intros Hreq Hsurv H has_class.
  destruct (clean_data_ok _ _ _ Hreq H) as (_ & Hout & _).
  assert (Hcols : forall c,
            In c ["Sex"; "Survived"; "Pclass"; "AgeGroup"; "IsAlone"; "Fare"; "Age"] ->
            in_columns c (columns df_clean) = true)
    by (rewrite Hout; intros c Hc; now apply cleaned_insight_columns).
  pose proof (insight_values_eq df_clean Hcols) as Heq.
  cbv zeta in Heq.
  destruct (getitem_map
              (fun c => scale100 (mean (map Survived
                                          (group_rows "Pclass" c (rows df_clean)))))
              (categories "Pclass" (rows df_clean)) (CatInt 1) "1") as (G1 & G1').
  destruct (getitem_map
              (fun c => scale100 (mean (map Survived
                                          (group_rows "Pclass" c (rows df_clean)))))
              (categories "Pclass" (rows df_clean)) (CatInt 3) "3") as (G3 & G3').
  fold (survival_rate_by "Pclass" (rows df_clean)) in G1, G1', G3, G3'.
  rewrite class_category in G1, G1', G3, G3'.
  split; [|split].
  - intros Hn. now rewrite Heq, (G1' Hn).
  - intros H1 Hn. now rewrite Heq, (G1 H1), (G3' Hn).
  - intros H1 H3. rewrite Heq, (G1 H1), (G3 H3). cbn [bind].
    do 5 eexists. split; [reflexivity |].
    do 4 (split; [eauto |]).
    destruct (scale100 _) as [x|]; cbn [float_gt]; [|now left].
    destruct (Qle_bool x 0) eqn:E; cbn [negb]; [now left |].
    right. exists x. split; [reflexivity | now apply Qle_bool_false].
Qed.

Lemma generate_insights_outcome_witness :
  exists gender class family fare children,
    insight_values (cleaned_frame child_survivor) =
      Ok ([gender; class] ++ children ++ [family; fare])%list /\
    (exists f m, gender = GenderInsight f m) /\
    (exists a b, class = ClassInsight a b) /\
    (exists a b, family = FamilyInsight a b) /\
    (exists a b, fare = FareInsight a b) /\
    (children = [] \/ exists x, children = [ChildInsight (Some x)] /\ 0 < x).
Proof.
  refine (proj2 (proj2 (generate_insights_outcome child_survivor
                          (cleaned_log child_survivor)
                          (cleaned_frame child_survivor) _ _ _)) _ _).
  - reflexivity.
  - reflexivity.
  - vm_compute. reflexivity.
  - exists (nth 1 (rows (cleaned_frame child_survivor)) (raw_row 0 0 0 EmptyString EmptyString None 0 0 0 None None)).
    split; [cbn; auto | reflexivity].
  - exists (nth 0 (rows (cleaned_frame child_survivor)) (raw_row 0 0 0 EmptyString EmptyString None 0 0 0 None None)).
    split; [cbn; auto | reflexivity].
Defined.

Lemma rate_positive_iff (a b : Z) :
  (0 <= a)%Z -> (0 < b)%Z ->
  (0 < Qred (inject_Z a / inject_Z b * 100) <-> (0 < a)%Z).
Proof.
  intros Ha Hb. rewrite Qred_correct.
  assert (Hb' : 0 < inject_Z b) by (change 0 with (inject_Z 0); now rewrite <- Zlt_Qlt).
  split.
  - intros Hpos. destruct (Z.eq_dec a 0) as [->|]; [|lia].
    exfalso. assert (E : inject_Z 0 / inject_Z b * 100 == 0).
    { change (inject_Z 0) with 0. unfold Qdiv. now rewrite !Qmult_0_l. }
    rewrite E in Hpos. now apply Qlt_irrefl in Hpos.
  - intros Hpos.
    assert (Ha' : 0 < inject_Z a) by (change 0 with (inject_Z 0); now rewrite <- Zlt_Qlt).
    assert (Hq : 0 < inject_Z a / inject_Z b) by (apply Qlt_shift_div_l; lra).
    lra.
Qed.

(** The rate of a group is above 0 exactly when a record of the group has
    survived. *)
Lemma group_rate_positive (g : list Row) :
  (forall r, In r g -> Survived r = 0 \/ Survived r = 1)%Z ->
  float_gt (scale100 (mean (map Survived g))) (Some 0) = true <->
  exists r, In r g /\ Survived r = 1%Z.
Proof.
  intros Hflags. destruct g as [|r0 g0] eqn:Eg.
  - cbn. split; [discriminate | intros (r & [] & _)].
  - rewrite <- Eg in *.
    assert (Hne : g <> []) by (rewrite Eg; discriminate).
    rewrite mean_nonempty by (destruct g; [congruence | discriminate]).
    rewrite (sum_Z_flags g Hflags), length_map. cbn [scale100 float_gt].
    rewrite negb_true_iff.
    set (survivors := filter (fun x => (Survived x =? 1)%Z) g).
    assert (Hlen : (0 < Z.of_nat (length g))%Z) by (destruct g; [congruence | cbn; lia]).
    pose proof (rate_positive_iff (Z.of_nat (length survivors)) (Z.of_nat (length g))
                  ltac:(lia) Hlen) as Hpos.
    split.
    + intros Hle. apply Qle_bool_false in Hle. apply Hpos in Hle.
      destruct survivors as [|r s] eqn:Es; [cbn in Hle; lia |].
      assert (Hin : In r survivors) by (rewrite Es; now left).
      apply filter_In in Hin. destruct Hin as (Hr & E). apply Z.eqb_eq in E. eauto.
    + intros (r & Hr & E).
      assert (Hin : In r survivors) by (apply filter_In; split; [assumption | now apply Z.eqb_eq]).
      apply not_true_iff_false. rewrite Qle_bool_iff. apply Qlt_not_le, Hpos.
      destruct survivors; [contradiction | cbn; lia].
Qed.

(** X16: the sentence on children is among the insights exactly when a
    record of the age group Child has survived. *)
Theorem generate_insights_children (raw : DataFrame) (log : CleanLog)
    (df_clean : DataFrame) (values : list Insight) :
  required_columns (columns raw) = true ->
  in_columns "Survived" (columns raw) = true ->
  (forall r, In r (rows raw) -> Survived r = 0 \/ Survived r = 1)%Z ->
  clean_data raw = Ok (log, df_clean) ->
  insight_values df_clean = Ok values ->
  (exists x, In (ChildInsight x) values) <->
  (exists r, In r (rows df_clean) /\ AgeGroup r = Some "Child" /\ Survived r = 1%Z).
Proof.
  intros Hreq Hsurv Hflags H Hv.
  destruct (clean_data_ok _ _ _ Hreq H) as (_ & Hout & _).
  assert (Hcols : forall c,
            In c ["Sex"; "Survived"; "Pclass"; "AgeGroup"; "IsAlone"; "Fare"; "Age"] ->
            in_columns c (columns df_clean) = true)
    by (rewrite Hout; intros c Hc; now apply cleaned_insight_columns).
  rewrite (insight_values_eq df_clean Hcols) in Hv. cbv zeta in Hv.
  destruct (getitem _ (CatInt 1) _) as [a|]; cbn [bind] in Hv; [|discriminate].
  destruct (getitem _ (CatInt 3) _) as [b|]; cbn [bind] in Hv; [|discriminate].
  injection Hv as <-.
  set (g := group_rows "AgeGroup" (CatStr "Child") (rows df_clean)).
  assert (Hg : forall r, In r g <-> In r (rows df_clean) /\ AgeGroup r = Some "Child").
  { intros r. unfold g, group_rows. rewrite filter_In. cbn.
    destruct (AgeGroup r) as [s|]; cbn.
    - rewrite String.eqb_eq. split; intros (Hr & E); split; congruence.
    - split; intros (Hr & E); discriminate. }
  assert (Hf : forall r, In r g -> (Survived r = 0 \/ Survived r = 1)%Z).
  { intros r Hr. apply Hg in Hr. destruct Hr as (Hr & _).
    rewrite Hout in Hr. apply cleaned_frame_In in Hr.
    destruct Hr as (r0 & Hr0 & ->). cbn [cleaned_row Survived]. now apply Hflags. }
  pose proof (group_rate_positive g Hf) as Hpos.
  split.
  - intros (x & Hx). cbn [app In] in Hx.
    destruct (float_gt _ (Some 0)) eqn:E.
    + destruct (proj1 Hpos eq_refl) as (r & Hr & Es). apply Hg in Hr.
      exists r. tauto.
    + cbn in Hx. destruct Hx as [Hx|[Hx|[Hx|[Hx|[]]]]]; discriminate.
  - intros (r & Hr & Ea & Es).
    assert (E : float_gt (scale100 (mean (map Survived g))) (Some 0) = true).
    { apply Hpos. exists r. split; [apply Hg; tauto | assumption]. }
    rewrite E. eexists. cbn. right. right. left. reflexivity.
Qed.

Lemma generate_insights_children_witness :
  (exists x, In (ChildInsight x)
               [GenderInsight (Some 100) (Some 0); ClassInsight (Some 100) (Some 50);
                ChildInsight (Some 100); FamilyInsight (Some 100) (Some 0);
                FareInsight (Some 100) (Some 0)]) <->
  (exists r, In r (rows (cleaned_frame child_survivor)) /\
             AgeGroup r = Some "Child" /\ Survived r = 1%Z).
Proof.
  apply (generate_insights_children child_survivor (cleaned_log child_survivor)).
  - reflexivity.
  - reflexivity.
  - intros r [<-|[<-|[<-|[<-|[]]]]]; cbn; auto.
  - vm_compute. reflexivity.
  - vm_compute. reflexivity.
Defined.

Lemma getitem_Ok (f : Category -> option Q) (cats : list Category)
    (k : Category) (name : string) (v : option Q) :
  getitem (map (fun c => (c, f c)) cats) k name = Ok v -> In k cats /\ v = f k.
Proof.
  induction cats as [|c cats IH]; cbn [map getitem In]; [discriminate |].
  destruct (Category_eqb c k) eqn:E.
  - apply Category_eqb_eq in E. subst c. intros [= <-]. auto.
  - intros Hv. destruct (IH Hv). auto.
Qed.

Lemma group_rows_sex (l : list Row) (s : string) :
  group_rows "Sex" (CatStr s) l = filter (fun r => Sex r =? s) l.
Proof. unfold group_rows. apply filter_ext. intros r. reflexivity. Qed.

Lemma table_rate (feature : string) (l : list Row) (c : Category) (sr : SurvivalRow) :
  In (c, sr) (survival_by_feature feature l) ->
  Survival_Rate sr = scale100 (mean (map Survived (group_rows feature c l))).
Proof.
  unfold survival_by_feature. rewrite in_map_iff.
  intros (c' & [= -> <-] & _). reflexivity.
Qed.

(** X17: the insights show the rates of the aggregator: the rates of women
    and of men are those of the rows female and male of the table by sex, the
    rates of the first and of the third class those of the rows 1 and 3 of
    the table by class, and the rate of the children that of the row Child of
    the table by age group. *)
Theorem generate_insights_agree_with_tables (raw : DataFrame) (log : CleanLog)
    (df_clean : DataFrame) (values : list Insight) :
  required_columns (columns raw) = true ->
  in_columns "Survived" (columns raw) = true ->
  clean_data raw = Ok (log, df_clean) ->
  insight_values df_clean = Ok values ->
  let by_sex := survival_by_feature "Sex" (rows df_clean) in
  let by_class := survival_by_feature "Pclass" (rows df_clean) in
  let by_age := survival_by_feature "AgeGroup" (rows df_clean) in
  (forall f m, In (GenderInsight f m) values ->
     (forall sr, In (CatStr "female", sr) by_sex -> Survival_Rate sr = f) /\
     (forall sr, In (CatStr "male", sr) by_sex -> Survival_Rate sr = m)) /\
  (forall a b, In (ClassInsight a b) values ->
     exists s1 s3,
       In (CatInt 1, s1) by_class /\ In (CatInt 3, s3) by_class /\
       Survival_Rate s1 = a /\ Survival_Rate s3 = b) /\
  (forall x, In (ChildInsight x) values ->
     exists sr, In (CatStr "Child", sr) by_age /\ Survival_Rate sr = x).
Proof.
  intros Hreq Hsurv H Hv by_sex by_class by_age.
  destruct (clean_data_ok _ _ _ Hreq H) as (_ & Hout & _).
  assert (Hcols : forall c,
            In c ["Sex"; "Survived"; "Pclass"; "AgeGroup"; "IsAlone"; "Fare"; "Age"] ->
            in_columns c (columns df_clean) = true)
    by (rewrite Hout; intros c Hc; now apply cleaned_insight_columns).
  rewrite (insight_values_eq df_clean Hcols) in Hv. cbv zeta in Hv.
  set (l := rows df_clean) in *.
  destruct (getitem _ (CatInt 1) _) as [first_class|] eqn:E1; cbn [bind] in Hv;
    [|discriminate].
  destruct (getitem _ (CatInt 3) _) as [third_class|] eqn:E3; cbn [bind] in Hv;
    [|discriminate].
  injection Hv as <-.
  apply (getitem_Ok (fun c => scale100 (mean (map Survived (group_rows "Pclass" c l)))))
    in E1, E3.
  destruct E1 as (H1 & ->), E3 as (H3 & ->).
  split; [|split].
  - intros f m Hin. cbn [app In] in Hin.
    assert (E : GenderInsight f m =
                GenderInsight (survival_of (fun r => Sex r =? "female") l)
                              (survival_of (fun r => Sex r =? "male") l)).
    { destruct Hin as [Hin|[Hin|Hin]]; [congruence | discriminate |].
      destruct (float_gt _ _); cbn in Hin;
        repeat (destruct Hin as [Hin|Hin]; try discriminate); contradiction. }
    injection E as -> ->. split; intros sr Hsr; rewrite (table_rate _ _ _ _ Hsr);
      now rewrite group_rows_sex.
  - intros a b Hin. cbn [app In] in Hin.
    assert (E : ClassInsight a b =
                ClassInsight
                  (scale100 (mean (map Survived (group_rows "Pclass" (CatInt 1) l))))
                  (scale100 (mean (map Survived (group_rows "Pclass" (CatInt 3) l))))).
    { destruct Hin as [Hin|[Hin|Hin]]; [discriminate | congruence |].
      destruct (float_gt _ _); cbn in Hin;
        repeat (destruct Hin as [Hin|Hin]; try discriminate); contradiction. }
    injection E as -> ->.
    exists (aggregate (group_rows "Pclass" (CatInt 1) l)),
           (aggregate (group_rows "Pclass" (CatInt 3) l)).
    split; [|split; [|split; reflexivity]].
    + unfold by_class, survival_by_feature.
      now apply (in_map (fun c => (c, aggregate (group_rows "Pclass" c l)))).
    + unfold by_class, survival_by_feature.
      now apply (in_map (fun c => (c, aggregate (group_rows "Pclass" c l)))).
  - intros x Hin. cbn [app In] in Hin.
    exists (aggregate (group_rows "AgeGroup" (CatStr "Child") l)). split.
    + unfold by_age, survival_by_feature.
      apply (in_map (fun c => (c, aggregate (group_rows "AgeGroup" c l)))).
      cbn. auto.
    + destruct Hin as [Hin|[Hin|Hin]]; [discriminate | discriminate |].
      destruct (float_gt _ _); cbn in Hin;
        repeat (destruct Hin as [Hin|Hin]; try discriminate); try contradiction.
      now injection Hin as <-.
Qed.

Lemma generate_insights_agree_with_tables_witness :
  exists sr,
    In (CatStr "Child", sr)
       (survival_by_feature "AgeGroup" (rows (cleaned_frame child_survivor))) /\
    Survival_Rate sr = Some 100.
Proof.
  apply (proj2 (proj2
    (generate_insights_agree_with_tables child_survivor (cleaned_log child_survivor)
       (cleaned_frame child_survivor)
       [GenderInsight (Some 100) (Some 0); ClassInsight (Some 100) (Some 50);
        ChildInsight (Some 100); FamilyInsight (Some 100) (Some 0);
        FareInsight (Some 100) (Some 0)]
       eq_refl eq_refl
       ltac:(vm_compute; reflexivity) ltac:(vm_compute; reflexivity)))).
  cbn. auto.
Defined.
